(** * Cochlear_Navigation: a shallow embedding of the cochlea geometry engine

    The development follows the Python sources module by module:

    - [Py]                 exceptions, results of calls, indexing, loops;
    - [Np], [NpText], [NpR], [Scipy]
                           the library routines the sources call;
    - [CochleaParameters]  [cochlea_parameters.py];
    - [CochleaModel]       [cochlea_model.py];
    - [Binary64]           the sampling of the angle on IEEE-754 doubles;
    - [CochleaExporter]    the cross sections of [cochlea_export.py];

    and then states and proves the properties of the specification.

    Numbers.  A Python float is a (dyadic) rational, so the shape parameters
    and the coefficient tables are values of [Q], on which comparisons and the
    text format of the parameter file compute.  The geometry uses [cos], [sin],
    [sqrt] and [pi], so angles and coordinates are real numbers ([R]); a
    rational enters the reals through [Q2R].  The arithmetic of these modules
    is the exact one.  Where the rounding of IEEE-754 doubles decides a fact
    that a property names, the sampling of the angle, the module [Binary64]
    gives the computation in the arithmetic of the program. *)

From Stdlib Require Import QArith Qround Qabs Qreals Reals ZArith NArith Lia Lqa Lra.
From Stdlib Require Import List String Ascii Bool.
From Stdlib Require PrimFloat FloatOps SpecFloat Uint63.
Import ListNotations.

Local Open Scope string_scope.

(** The two linear-arithmetic solvers share one name; keep them apart. *)
Ltac qlra := Lqa.lra.
Ltac rlra := Lra.lra.

(* ===================================================================== *)
(** * Python: exceptions and results *)
(* ===================================================================== *)

Module Py.

(** The text of an exception.  An f-string that interpolates floats is kept
    structured, so that a theorem can speak about the values it names. *)
Inductive message : Type :=
| Text (s : string)
  (* f"{name} = {value} is outside reasonable bounds [{min_val}, {max_val}]" *)
| OutsideBounds (name : string) (value min_val max_val : Q)
  (* numpy: "Number of samples, %s, must be non-negative." % num *)
| NegativeSamples (num : Z)
  (* numpy: "index %d is out of bounds for axis %d with size %d" *)
| OutOfBounds (idx : Z) (axis size : nat).

Inductive exn : Type :=
| ValueError (m : message)
| IndexError (m : message)
| KeyError (key : string)
| FileNotFoundError (filename : string).

(** What a call does: it returns a value or raises. *)
Inductive outcome (T : Type) : Type :=
| Returned (v : T)
| Raised (e : exn).

Arguments Returned {T} v.
Arguments Raised {T} e.

Definition bind {T U : Type} (c : outcome T) (k : T -> outcome U) : outcome U :=
  match c with
  | Returned v => k v
  | Raised e => Raised e
  end.

Definition raises {T : Type} (c : outcome T) : Prop :=
  exists e, c = Raised e.

Definition returns {T : Type} (c : outcome T) : Prop :=
  exists v, c = Returned v.

(** [for x in xs: body], where the body may raise. *)
Fixpoint for_each {T S : Type} (xs : list T) (body : T -> S -> outcome S) (s : S)
  : outcome S :=
  match xs with
  | [] => Returned s
  | x :: rest => bind (body x s) (for_each rest body)
  end.

(** [[f(x) for x in xs]], where [f] may raise. *)
Fixpoint map_each {T U : Type} (f : T -> outcome U) (xs : list T) : outcome (list U) :=
  match xs with
  | [] => Returned []
  | x :: rest =>
      bind (f x) (fun y => bind (map_each f rest) (fun ys => Returned (y :: ys)))
  end.

(** An integer index [idx] along the axis [axis] of an array, [a] being the
    entries along that axis: negative indices count from the end, anything
    outside [-len, len) raises IndexError with the index as it was given, the
    axis and the size. *)
Definition index_axis {T : Type} (axis : nat) (a : list T) (idx : Z) : outcome T :=
  let len := Z.of_nat (List.length a) in
  let pos := if (idx <? 0)%Z then (idx + len)%Z else idx in
  if ((0 <=? pos) && (pos <? len))%Z%bool then
    match nth_error a (Z.to_nat pos) with
    | Some v => Returned v
    | None => Raised (IndexError (OutOfBounds idx axis (List.length a)))
    end
  else Raised (IndexError (OutOfBounds idx axis (List.length a))).

(** [a[idx]] on a one-dimensional array. *)
Definition index {T : Type} (a : list T) (idx : Z) : outcome T :=
  index_axis 0 a idx.

(** [a[i] = v] on an array, for an index in range; an index out of range is
    written out at each use. *)
Fixpoint set_item {T : Type} (a : list T) (i : nat) (v : T) : list T :=
  match a, i with
  | [], _ => []
  | _ :: rest, O => v :: rest
  | x :: rest, S i' => x :: set_item rest i' v
  end.

(** [enumerate(xs)] *)
Definition enumerate {T : Type} (xs : list T) : list (nat * T) :=
  combine (seq 0 (List.length xs)) xs.

(** [d[key]] on a dict given by its items. *)
Fixpoint getitem {V : Type} (d : list (string * V)) (key : string) : outcome V :=
  match d with
  | [] => Raised (KeyError key)
  | (k, v) :: rest => if String.eqb k key then Returned v else getitem rest key
  end.

End Py.

Import Py.

Declare Scope py_scope.
Delimit Scope py_scope with py.
Notation "x <- c ;; k" := (Py.bind c (fun x => k))
  (at level 61, c at next level, right associativity) : py_scope.
Notation "c ;;; k" := (Py.bind c (fun _ => k))
  (at level 61, right associativity) : py_scope.

(* ===================================================================== *)
(** * numpy *)
(* ===================================================================== *)

Module Np.

Local Open Scope Q_scope.

(** [np.dot] of two vectors.  numpy raises on operands of different lengths;
    every call in the sources pairs [np.append(1, self.A)] (five entries for a
    constructed model, see [CochleaModel.init_arity]) with a row or column of
    five coefficients. *)
Fixpoint dot (u v : list Q) : Q :=
  match u, v with
  | x :: u', y :: v' => x * y + dot u' v'
  | _, _ => 0
  end.

(** [M[:, i]] of a matrix given by its rows. *)
Definition column (M : list (list Q)) (i : nat) : list Q :=
  map (fun row => nth i row 0) M.

(** [np.random]: the generator is a sequence of standard normal deviates and
    the count of those already drawn; [normal(loc, scale)] consumes one deviate. *)
Record rng : Type := { deviates : nat -> Q; drawn : nat }.

Definition normal (loc scale : Q) (g : rng) : Q * rng :=
  (loc + scale * deviates g (drawn g),
   {| deviates := deviates g; drawn := S (drawn g) |}).

(** [np.random.multivariate_normal] on a mean vector of [n] entries draws [n]
    standard deviates and combines them with a factor of the covariance; the
    sources drop its result, so only the consumption is kept. *)
Definition multivariate_normal_consume (n : nat) (g : rng) : rng :=
  {| deviates := deviates g; drawn := (drawn g + n)%nat |}.

End Np.

(* ===================================================================== *)
(** * numpy: [savetxt] and [loadtxt] *)
(* ===================================================================== *)

Module NpText.

Local Open Scope Q_scope.

Definition LF : ascii := ascii_of_nat 10.
Definition newline : string := String LF "".

(** ** Writing: the format ['%.6f'] *)

Definition digit_char (d : N) : ascii :=
  match d with
  | 0%N => "0" | 1%N => "1" | 2%N => "2" | 3%N => "3" | 4%N => "4"
  | 5%N => "5" | 6%N => "6" | 7%N => "7" | 8%N => "8" | _ => "9"
  end%char.

(** [width] decimal digits of [n], most significant first (the low ones when
    [n] has more). *)
Fixpoint fixed_digits (width : nat) (n : N) : string :=
  match width with
  | O => ""
  | S w => fixed_digits w (n / 10) ++ String (digit_char (n mod 10)) ""
  end.

(** The decimal digits of [n] without leading zeros, at least one digit. *)
Fixpoint int_digits (fuel : nat) (n : N) : string :=
  match fuel with
  | O => ""
  | S f =>
      if (n <? 10)%N then String (digit_char n) ""
      else int_digits f (n / 10) ++ String (digit_char (n mod 10)) ""
  end.

Definition digits (n : N) : string := int_digits (S (N.to_nat (N.log2 n))) n.

(** Rounding to the nearest integer, ties to the even one: what the
    conversion of a double to a fixed number of decimals does. *)
Definition round_half_even (q : Q) : Z :=
  let f := Qfloor q in
  match Qcompare (q - inject_Z f) (1 # 2) with
  | Lt => f
  | Gt => (f + 1)%Z
  | Eq => if Z.even f then f else (f + 1)%Z
  end.

(** The number of millionths that ['%.6f' % q] prints, without its sign. *)
Definition millionths (q : Q) : N := Z.to_N (round_half_even (Qabs q * 1000000)).

(** ['%.6f' % q] *)
Definition format_f6 (q : Q) : string :=
  let n := millionths q in
  (if Qle_bool 0 q then "" else "-")
  ++ digits (n / 1000000) ++ "." ++ fixed_digits 6 (n mod 1000000).

(** The value that the text of ['%.6f' % q] denotes. *)
Definition round6 (q : Q) : Q :=
  (if Qle_bool 0 q then Z.of_N (millionths q) else - Z.of_N (millionths q))%Z
  # 1000000.

(** [np.savetxt(filename, X, fmt='%.6f', header=..., delimiter=',',
    comments='# ')] on a one-dimensional [X]: the header line behind the
    comment mark, then one value per line (the delimiter separates columns,
    and a one-dimensional array has one). *)
Definition savetxt (X : list Q) (header : string) : string :=
  "# " ++ header ++ newline
  ++ fold_right (fun q rest => format_f6 q ++ newline ++ rest) "" X.

(** ** Reading *)

Definition parse_digit (c : ascii) : option N :=
  let n := N_of_ascii c in
  if ((48 <=? n) && (n <=? 57))%N then Some (n - 48)%N else None.

Definition is_space (c : ascii) : bool :=
  (Ascii.eqb c " " || Ascii.eqb c (ascii_of_nat 9) || Ascii.eqb c (ascii_of_nat 13))%bool.

Fixpoint all_spaces (s : string) : bool :=
  match s with
  | "" => true
  | String c r => is_space c && all_spaces r
  end.

Fixpoint skip_spaces (s : string) : string :=
  match s with
  | "" => ""
  | String c r => if is_space c then skip_spaces r else s
  end.

(** The digits behind the point: the number read so far, the count of
    fraction digits, and whether any digit was seen at all. *)
Fixpoint parse_frac (s : string) (num : N) (k : nat) (seen : bool) : option (N * nat) :=
  match s with
  | "" => if seen then Some (num, k) else None
  | String c r =>
      match parse_digit c with
      | Some d => parse_frac r (num * 10 + d)%N (S k) true
      | None => if (all_spaces s && seen)%bool then Some (num, k) else None
      end
  end.

Fixpoint parse_int (s : string) (num : N) (seen : bool) : option (N * nat) :=
  match s with
  | "" => if seen then Some (num, O) else None
  | String c r =>
      match parse_digit c with
      | Some d => parse_int r (num * 10 + d)%N true
      | None =>
          if Ascii.eqb c "." then parse_frac r num O seen
          else if (all_spaces s && seen)%bool then Some (num, O) else None
      end
  end.

(** [float(field)] for a field in plain fixed-point syntax: blanks, a sign,
    digits, a point, digits, blanks.  Python also reads exponents, [inf] and
    [nan]; [savetxt] with ['%.6f'] writes none of them for a rational, and
    the model rejects them. *)
Definition parse_float (field : string) : outcome Q :=
  let s := skip_spaces field in
  let '(negative, body) :=
    match s with
    | String c r =>
        if Ascii.eqb c "-" then (true, r)
        else if Ascii.eqb c "+" then (false, r)
        else (false, s)
    | "" => (false, s)
    end in
  match parse_int body 0 false with
  | Some (num, k) =>
      Returned ((if negative then - Z.of_N num else Z.of_N num)%Z
                # Z.to_pos (10 ^ Z.of_nat k))
  | None => Raised (ValueError (Text "could not convert string to float"))
  end.

(** [s.split(c)] *)
Fixpoint split_on (c : ascii) (s : string) : list string :=
  match s with
  | "" => [""]
  | String a r =>
      if Ascii.eqb a c then "" :: split_on c r
      else match split_on c r with
           | h :: t => String a h :: t
           | [] => [String a ""]
           end
  end.

(** The part of a line before the comment mark. *)
Fixpoint before (c : ascii) (s : string) : string :=
  match s with
  | "" => ""
  | String a r => if Ascii.eqb a c then "" else String a (before c r)
  end.

(** The result of [loadtxt]: numpy squeezes the table it has read. *)
Inductive ndarray : Type :=
| Scalar (x : Q)
| Vector (xs : list Q)
| Matrix (rows : list (list Q)).

Definition parse_line (delimiter : ascii) (line : string) : outcome (list Q) :=
  map_each parse_float (split_on delimiter line).

Definition squeeze (rows : list (list Q)) : outcome ndarray :=
  match rows with
  | [] => Returned (Vector [])
  | first :: _ =>
      if forallb (fun row => Nat.eqb (List.length row) (List.length first)) rows then
        match rows with
        | [[x]] => Returned (Scalar x)
        | [row] => Returned (Vector row)
        | _ =>
            if Nat.eqb (List.length first) 1
            then Returned (Vector (map (fun row => nth 0 row 0) rows))
            else Returned (Matrix rows)
        end
      else Raised (ValueError (Text "the number of columns changed"))
  end.

(** [np.loadtxt(text, delimiter=',')]: comments start at ['#'], blank lines
    are skipped, every other line is a row of fields. *)
Definition loadtxt (text : string) (delimiter : ascii) : outcome ndarray :=
  let lines := map (before "#") (split_on LF text) in
  let data := filter (fun line => negb (all_spaces line)) lines in
  (rows <- map_each (parse_line delimiter) data ;; squeeze rows)%py.

End NpText.

(* ===================================================================== *)
(** * cochlea_parameters.py *)
(* ===================================================================== *)

Module CochleaParameters.

Import Np NpText.
Local Open Scope Q_scope.

(** ** [_initialize_coefficients] *)

Definition coefs_height : list (list Q) :=
  [ [-2.025562262381; 0.308684774745994; -0.0245970612199774; 0.00093743547596123; -6.49142944919421e-06];
    [-0.483933701821246; 0.150263587271025; -0.0249700764778651; 0.00184112837255666; -4.68696577096306e-05];
    [0.0936906993853392; 0.0485929242340616; -0.0111388827166082; 0.000852542615496957; -2.39666478178502e-05];
    [0.437215616236419; -0.609467318753365; 0.147019129524084; -0.012345472153677; 0.000341806092537278];
    [0.19884386428529; 0.0706538846984097; -0.0490269768729332; 0.00553612473205947; -0.000178036145575138] ].

Definition coefs_modiolus : list (list Q) :=
  [ [-0.0972007477234853; 0.0652777719428317; 0.00579010295961996; -0.000410053336041606];
    [0.745407586062517; -0.297795950930632; 0.0353079060718429; -0.00125774660897636];
    [0.349940654425921; -0.0488173880945223; 0.00235713329581525; -3.38189250648794e-05];
    [0.0567728210841444; 0.115930983938798; -0.0170603835499829; 0.000605305012135639];
    [-0.0613995454924607; 0.170502985259421; -0.0267552502171719; 0.00111572946871731] ].

Definition coefs_turns : list Q :=
  [963.166310413576; 6.37772934525638; -26.9585473096045;
   -36.3953582023656; 66.9416454453684].

(** ** [generate_parameters] *)

Definition generate_parameters (mode : string) (g : rng) : outcome (list Q) * rng :=
  if String.eqb mode "mean" then
    (Returned [5.97; 3.95; 3.26; 2.85], g)
  else if String.eqb mode "random" then
    let correlation_matrix : list (list Q) :=
      [ [1.0; 0.53476; -0.12441; -0.07296];
        [0.53476; 1.0; 0.11668; -0.43748];
        [-0.12441; 0.11668; 1.0; 0.57846];
        [-0.07296; -0.43748; 0.57846; 1.0] ] in
    let mean_vector : list Q := [1; 1; 1; 1] in
    (* random_values = np.random.multivariate_normal(...), never read *)
    let g := multivariate_normal_consume (List.length mean_vector) g in
    let means : list Q := [5.97; 3.95; 3.26; 2.85] in
    let stds : list Q := [0.36; 0.35; 0.28; 0.33] in
    let parameters : list Q := [0; 0; 0; 0] in
    let '(parameters, g) :=
      fold_left
        (fun (st : list Q * rng) (i : nat) =>
           let '(parameters, g) := st in
           (* uniform_value = np.random.normal(0, 1), never read *)
           let '(_, g) := normal 0 1 g in
           let '(x, g) := normal (nth i means 0) (nth i stds 0) g in
           (set_item parameters i x, g))
        (seq 0 4) (parameters, g) in
    (Returned parameters, g)
  else
    (Raised (ValueError (Text "Mode must be 'mean' or 'random'")), g).

(** ** [validate_parameters] *)

Definition bounds : list (string * (Q * Q)) :=
  [ ("A1", (4.0, 8.0)); ("B1", (2.5, 5.5)); ("A2", (2.0, 4.5)); ("B2", (1.5, 4.0)) ].

Definition param_names : list string := ["A1"; "B1"; "A2"; "B2"].

(** One turn of the loop: [if not min_val <= value <= max_val: raise]. *)
Definition check_bound (item : string * Q) (_ : unit) : outcome unit :=
  let '(name, value) := item in
  (range <- getitem bounds name ;;
   let '(min_val, max_val) := range in
   if negb (Qle_bool min_val value && Qle_bool value max_val)
   then Raised (ValueError (OutsideBounds name value min_val max_val))
   else Returned tt)%py.

Definition validate_parameters (parameters : list Q) : outcome bool :=
  if negb (Nat.eqb (List.length parameters) 4) then
    Raised (ValueError (Text "Parameters must be a 4-element array"))
  else
    (for_each (combine param_names parameters) check_bound tt ;;;
     Returned true)%py.

(** ** [save_parameters], [load_parameters] *)

(** The files of the run: the text stored under each name. *)
Definition files : Type := string -> option string.

Definition write_file (fs : files) (filename text : string) : files :=
  fun name => if String.eqb name filename then Some text else fs name.

Definition save_parameters (parameters : list Q) (filename : string) (fs : files)
  : files :=
  write_file fs filename (savetxt parameters "A1, B1, A2, B2").

Definition load_parameters (filename : string) (fs : files) : outcome ndarray :=
  match fs filename with
  | Some text => loadtxt text ","
  | None => Raised (FileNotFoundError filename)
  end.

End CochleaParameters.

(* ===================================================================== *)
(** * numpy on real numbers *)
(* ===================================================================== *)

Module NpR.

Local Open Scope R_scope.

(** [np.polyval(p, x)], coefficients from the highest degree down: Horner's
    scheme, [y = y * x + pv] for each coefficient. *)
Definition polyval (p : list Q) (x : R) : R :=
  fold_left (fun y pv => y * x + Q2R pv) p 0.

(** [np.polyder(np.poly1d(p))]: the coefficient of degree [k] is multiplied by
    [k] and the constant term is dropped.  (numpy writes the derivative of a
    constant as the one-entry polynomial 0; as a function it is [[]].) *)
Fixpoint polyder (p : list Q) : list Q :=
  match p with
  | [] => []
  | c :: rest =>
      match rest with
      | [] => []
      | _ => (inject_Z (Z.of_nat (List.length rest)) * c)%Q :: polyder rest
      end
  end.

(** [np.arange(start, stop, step)]: [ceil((stop - start) / step)] values
    [start + i * step], none when that count is not positive.  A zero step
    makes the count infinite or undefined and numpy raises. *)
Definition arange (start stop step : R) : outcome (list R) :=
  if Req_dec_T step 0 then
    if Req_dec_T (stop - start) 0
    then Raised (ValueError (Text "arange: cannot compute length"))
    else Raised (ValueError (Text "Maximum allowed size exceeded"))
  else
    let count := Z.to_nat (Zceil ((stop - start) / step)) in
    Returned (map (fun i => start + INR i * step) (seq 0 count)).

(** [np.linspace(start, stop, num)], end point included. *)
Definition linspace (start stop : R) (num : Z) : outcome (list R) :=
  if (num <? 0)%Z then
    Raised (ValueError (NegativeSamples num))
  else
    let div := (num - 1)%Z in
    let step := if (0 <? div)%Z then (stop - start) / IZR div else stop - start in
    Returned (map (fun i => start + INR i * step) (seq 0 (Z.to_nat num))).

(** [int(x)]: truncation towards zero. *)
Definition to_int (x : R) : Z :=
  if Rle_dec 0 x then Zfloor x else Zceil x.

(** Arrays of three coordinates. *)
Definition vec3 : Type := (R * R * R)%type.

Definition vadd (u v : vec3) : vec3 :=
  let '(u0, u1, u2) := u in let '(v0, v1, v2) := v in (u0 + v0, u1 + v1, u2 + v2).

Definition vscale (k : R) (v : vec3) : vec3 :=
  let '(v0, v1, v2) := v in (k * v0, k * v1, k * v2).

Definition vdot (u v : vec3) : R :=
  let '(u0, u1, u2) := u in let '(v0, v1, v2) := v in u0 * v0 + u1 * v1 + u2 * v2.

(** [np.cross(u, v)] *)
Definition cross (u v : vec3) : vec3 :=
  let '(u0, u1, u2) := u in
  let '(v0, v1, v2) := v in
  (u1 * v2 - u2 * v1, u2 * v0 - u0 * v2, u0 * v1 - u1 * v0).

(** [np.linalg.norm(v)] *)
Definition norm (v : vec3) : R :=
  let '(v0, v1, v2) := v in sqrt (v0 * v0 + v1 * v1 + v2 * v2).

(** [v / np.linalg.norm(v)].  For a vector of norm zero numpy warns and
    yields coordinates that are not numbers; [None] stands for that array. *)
Definition normalized (v : vec3) : option vec3 :=
  if Req_dec_T (norm v) 0 then None else Some (vscale (/ norm v) v).

End NpR.

(* ===================================================================== *)
(** * scipy.integrate *)
(* ===================================================================== *)

Module Scipy.

Import NpR.
Local Open Scope R_scope.

(** Continuity of the functions the integrands are made of, in the form in
    which they occur (pointwise sums and products). *)
Section Continuity.

Variables f g : R -> R.
Hypothesis Hf : continuity f.
Hypothesis Hg : continuity g.

Lemma continuity_add : continuity (fun x => f x + g x).
Proof. exact (continuity_plus f g Hf Hg). Qed.

Lemma continuity_sub : continuity (fun x => f x - g x).
Proof. exact (continuity_minus f g Hf Hg). Qed.

Lemma continuity_mul : continuity (fun x => f x * g x).
Proof. exact (continuity_mult f g Hf Hg). Qed.

Lemma continuity_square : continuity (fun x => f x ^ 2).
Proof.
  intros x. simpl.
  apply (continuity_mult f (fun x => f x * 1) Hf).
  apply (continuity_mult f (fun _ => 1) Hf).
  apply continuity_const; intros u v; reflexivity.
Qed.

Lemma continuity_sqrt_of : (forall x, 0 <= f x) -> continuity (fun x => sqrt (f x)).
Proof.
  intros Hpos x.
  apply (continuity_pt_comp f sqrt); [apply Hf | apply continuity_pt_sqrt, Hpos].
Qed.

End Continuity.

Lemma continuity_polyval_from (p : list Q) :
  forall f : R -> R, continuity f ->
    continuity (fun x => fold_left (fun y pv => y * x + Q2R pv) p (f x)).
Proof.
  induction p as [|c p IH]; intros f Hf; simpl.
  - exact Hf.
  - apply (IH (fun x => f x * x + Q2R c)).
    apply continuity_add.
    + apply continuity_mul; [exact Hf | apply derivable_continuous, derivable_id].
    + apply continuity_const; intros x y; reflexivity.
Qed.

Lemma continuity_polyval (p : list Q) : continuity (polyval p).
Proof.
  apply (continuity_polyval_from p (fun _ => 0)).
  apply continuity_const; intros x y; reflexivity.
Qed.

(** A continuous function has an integral between any two bounds, in either
    order. *)
Lemma continuous_integrable (f : R -> R) (a b : R) :
  continuity f -> Riemann_integrable f a b.
Proof.
  intros Hf. destruct (Rle_dec a b) as [Hab|Hab].
  - apply continuity_implies_RiemannInt; [exact Hab | intros x _; apply Hf].
  - apply RiemannInt_P1, continuity_implies_RiemannInt; [rlra | intros x _; apply Hf].
Qed.

(** [quad(f, a, b)[0]] for a continuous integrand.  QUADPACK returns an
    approximation of the integral together with an error estimate; the model
    takes the number that is approximated. *)
Definition quad (f : R -> R) (a b : R) (Hf : continuity f) : R :=
  RiemannInt (continuous_integrable f a b Hf).

End Scipy.

(* ===================================================================== *)
(** * cochlea_model.py *)
(* ===================================================================== *)

Module CochleaModel.

Import Np NpR Scipy CochleaParameters.
Local Open Scope R_scope.

(** The attributes of a model.  [param_manager] and [coefs] hold the constant
    tables of [CochleaParameters] and are read from there. *)
Record model : Type := {
  A : list Q;
  c_length : R;
  n_turns : R
}.

(** [_turn_number_estimation], on the parameters of the model under
    construction. *)
Definition _turn_number_estimation (A : list Q) : Q :=
  (dot (1 :: A) coefs_turns / 360)%Q.

(** The attributes computed by [__init__] once [self.A] is set. *)
Definition derived (A : list Q) : model :=
  let c_length := Q2R (_turn_number_estimation A) * 2 * PI in
  {| A := A; c_length := c_length; n_turns := c_length / (2 * PI) |}.

(** [__init__(parameters, mode)] *)
Definition init (parameters : option (list Q)) (mode : string) (g : rng)
  : outcome model * rng :=
  match parameters with
  | None =>
      match generate_parameters mode g with
      | (Returned A, g') => (Returned (derived A), g')
      | (Raised e, g') => (Raised e, g')
      end
  | Some parameters =>
      match validate_parameters parameters with
      | Returned _ => (Returned (derived parameters), g)
      | Raised e => (Raised e, g)
      end
  end.

(** [get_radius_coeffs], [get_height_coeffs] *)
Definition get_radius_coeffs (self : model) : list Q :=
  let coeffs := map (fun i => dot (1%Q :: A self) (column coefs_modiolus i)) (seq 0 4) in
  rev coeffs.

Definition get_height_coeffs (self : model) : list Q :=
  let coeffs := map (fun i => dot (1%Q :: A self) (column coefs_height i)) (seq 0 5) in
  rev coeffs.

(** [_radius_modiolus_poly], [_height_poly] *)
Definition _radius_modiolus_poly (self : model) (phi : R) : R :=
  let coeffs := map (fun i => dot (1%Q :: A self) (column coefs_modiolus i)) (seq 0 4) in
  polyval (rev coeffs) phi.

Definition _height_poly (self : model) (phi : R) : R :=
  let coeffs := map (fun i => dot (1%Q :: A self) (column coefs_height i)) (seq 0 5) in
  polyval (rev coeffs) phi.

(** ** [calculate_length]: the integrand *)

Definition integrand (self : model) (with_height : bool) (z : R) : R :=
  let r := _radius_modiolus_poly self z in
  let dr_dz := polyval (polyder (get_radius_coeffs self)) z in
  let x_deriv := dr_dz * cos z - r * sin z in
  let y_deriv := dr_dz * sin z + r * cos z in
  if with_height then
    let dh_dz := polyval (polyder (get_height_coeffs self)) z in
    sqrt (x_deriv ^ 2 + y_deriv ^ 2 + dh_dz ^ 2)
  else
    sqrt (x_deriv ^ 2 + y_deriv ^ 2).

Lemma radicand_nonneg (a b c : R) : 0 <= a ^ 2 + b ^ 2 + c ^ 2.
Proof. pose proof (pow2_ge_0 a); pose proof (pow2_ge_0 b); pose proof (pow2_ge_0 c); rlra. Qed.

Lemma integrand_continuous (self : model) (with_height : bool) :
  continuity (integrand self with_height).
Proof.
  assert (Hr : continuity (_radius_modiolus_poly self)) by apply continuity_polyval.
  pose proof (continuity_polyval (polyder (get_radius_coeffs self))) as Hdr.
  pose proof (continuity_polyval (polyder (get_height_coeffs self))) as Hdh.
  pose proof continuity_cos as Hcos. pose proof continuity_sin as Hsin.
  unfold integrand; destruct with_height; cbv zeta.
  - apply continuity_sqrt_of.
    + repeat first [ assumption | apply continuity_sub | apply continuity_add
                   | apply continuity_square | apply continuity_mul ].
    + intros z. apply radicand_nonneg.
  - apply continuity_sqrt_of.
    + repeat first [ assumption | apply continuity_sub | apply continuity_add
                   | apply continuity_square | apply continuity_mul ].
    + intros z.
      pose proof (radicand_nonneg
        (polyval (polyder (get_radius_coeffs self)) z * cos z
         - _radius_modiolus_poly self z * sin z)
        (polyval (polyder (get_radius_coeffs self)) z * sin z
         + _radius_modiolus_poly self z * cos z) 0) as H.
      rewrite (pow_i 2 ltac:(lia)) in H. rlra.
Qed.

(** [calculate_length(with_height)] *)
Definition calculate_length (self : model) (with_height : bool) : R :=
  quad (integrand self with_height) 0 (c_length self)
       (integrand_continuous self with_height).

(** ** [generate_geometry] *)

Record geometry : Type := {
  centerline : list (list R);          (* 3 rows: x, y, z *)
  scala_x : list (list R);             (* len(v) rows of len(phi) entries *)
  scala_y : list (list R);
  scala_z : list (list R);
  phi : list R;
  turns : list R;
  r_modiolus : list R
}.

(** [np.zeros((rows, cols))] and [M[j, i] = x] *)
Definition zeros (rows cols : nat) : list (list R) := repeat (repeat 0 cols) rows.

Definition set2 (M : list (list R)) (j i : nat) (x : R) : list (list R) :=
  set_item M j (set_item (nth j M []) i x).

Definition get2 (M : list (list R)) (j i : nat) : R := nth i (nth j M []) 0.

(** The three surface arrays as the loops over [enumerate(phi)] and
    [enumerate(v)] fill them. *)
Definition scala_inner (p : R) (i : nat) (r_scala : R)
  (r_modiolus : list R) (centerline : list (list R))
  (st : list (list R) * list (list R) * list (list R)) (jv : nat * R)
  : list (list R) * list (list R) * list (list R) :=
  let '(scala_x, scala_y, scala_z) := st in
  let '(j, angle) := jv in
  let local_r := nth i r_modiolus 0 + r_scala * (cos angle - 1) in
  (set2 scala_x j i (local_r * cos p),
   set2 scala_y j i (local_r * sin p),
   set2 scala_z j i (r_scala * sin angle + get2 centerline 2 i)).

Definition scala_outer (self : model) (v : list R)
  (r_modiolus : list R) (centerline : list (list R))
  (st : list (list R) * list (list R) * list (list R)) (ip : nat * R)
  : list (list R) * list (list R) * list (list R) :=
  let '(i, p) := ip in
  let r_scala := (c_length self - p) / c_length self * 0.5 + 0.6 in
  fold_left (scala_inner p i r_scala r_modiolus centerline) (enumerate v) st.

Definition generate_geometry (self : model) (resolution : R) : outcome geometry :=
  (phi <- arange 0 (c_length self) resolution ;;
   let r_modiolus := map (_radius_modiolus_poly self) phi in
   let centerline :=
     [ map (fun rp => fst rp * cos (snd rp)) (combine r_modiolus phi);
       map (fun rp => fst rp * sin (snd rp)) (combine r_modiolus phi);
       map (_height_poly self) phi ] in
   v <- arange 0 (2 * PI) resolution ;;
   let blank := zeros (List.length v) (List.length phi) in
   let '(scala_x, scala_y, scala_z) :=
     fold_left (scala_outer self v r_modiolus centerline) (enumerate phi)
               (blank, blank, blank) in
   Returned {| centerline := centerline;
               scala_x := scala_x; scala_y := scala_y; scala_z := scala_z;
               phi := phi;
               turns := map (fun p => p / (2 * PI)) phi;
               r_modiolus := r_modiolus |})%py.

(** ** [generate_cross_sections] *)

Record section : Type := {
  center : vec3;
  radius : R;
  angle : R;
  section_phi : R;
  points : list vec3
}.

(** [geometry['centerline'][:, idx]] *)
Definition centerline_column (g : geometry) (idx : Z) : outcome vec3 :=
  (x <- index_axis 1 (nth 0 (centerline g) []) idx ;;
   y <- index_axis 1 (nth 1 (centerline g) []) idx ;;
   z <- index_axis 1 (nth 2 (centerline g) []) idx ;;
   Returned (x, y, z))%py.

Definition cross_section (self : model) (g : geometry) (idx : Z) : outcome section :=
  (phi <- index (phi g) idx ;;
   center <- centerline_column g idx ;;
   let radius := (c_length self - phi) / c_length self * 0.5 + 0.6 in
   let n_points := 16%Z in
   angles <- linspace 0 (2 * PI) (n_points + 1) ;;
   Returned {| center := center;
               radius := radius;
               angle := phi * 180 / PI;
               section_phi := phi;
               points :=
                 map (fun angle =>
                        let local_r := radius * (cos angle - 1) in
                        let local_h := radius * sin angle in
                        let '(c0, c1, c2) := center in
                        (c0 + local_r * cos phi, c1 + local_r * sin phi, c2 + local_h))
                     angles |})%py.

Definition generate_cross_sections (self : model) (geometry : option geometry)
  (num_sections : Z) : outcome (list section) :=
  (g <- match geometry with
        | None => generate_geometry self 5
        | Some g => Returned g
        end ;;
   let half_idx := (Z.of_nat (List.length (phi g)) / 2)%Z in
   (* linspace with dtype=int rounds its values towards minus infinity *)
   positions <- linspace 0 (IZR (half_idx - 1)) num_sections ;;
   let section_indices := map Zfloor positions in
   map_each (cross_section self g) section_indices)%py.

(** ** [get_point_at_position] *)

Record point_info : Type := {
  position : vec3;
  radius_modiolus : R;
  height : R;
  point_phi : R;
  point_turns : R
}.

Definition get_point_at_position (self : model) (turn_fraction : R)
  : outcome point_info :=
  let phi := turn_fraction * c_length self in
  let r := _radius_modiolus_poly self phi in
  Returned {| position := (r * cos phi, r * sin phi, _height_poly self phi);
              radius_modiolus := r;
              height := _height_poly self phi;
              point_phi := phi;
              point_turns := phi / (2 * PI) |}.

End CochleaModel.

(* ===================================================================== *)
(** * The sampling of the angle in binary64 *)
(* ===================================================================== *)

(** [__init__] up to [c_length] and the first line of [generate_geometry],
    [phi = np.arange(0, self.c_length, resolution)], on IEEE-754 doubles with
    the operations of the processor (round to nearest, ties to even). *)

Set Warnings "-inexact-float".

Module Binary64.

Import PrimFloat FloatOps SpecFloat.
Local Open Scope float_scope.

(** [np.pi] *)
Definition pi : float := 0x1.921fb54442d18p+1.

(** [coefs['turns']]: the decimal texts of the source, read as doubles. *)
Definition coefs_turns : list float :=
  [963.166310413576; 6.37772934525638; -26.9585473096045;
   -36.3953582023656; 66.9416454453684].

(** [np.dot] on two vectors: the products are added from left to right. *)
Definition dot (a b : list float) : float :=
  fold_left (fun acc xy => acc + fst xy * snd xy) (combine a b) 0.

Definition _turn_number_estimation (A : list float) : float :=
  dot (1 :: A) coefs_turns / 360.

(** [self.c_length = self._turn_number_estimation() * 2 * np.pi] *)
Definition c_length (A : list float) : float :=
  _turn_number_estimation A * 2 * pi.

(** The integer [i] as a double. *)
Definition of_nat (i : nat) : float := of_uint63 (Uint63.of_Z (Z.of_nat i)).

(** [ceil] of a double as an integer; nothing for an infinity or a value
    that is not a number. *)
Definition ceil (x : float) : option Z :=
  match Prim2SF x with
  | S754_zero _ => Some 0%Z
  | S754_finite s m e =>
      let d := (2 ^ (- e))%Z in
      Some (if (0 <=? e)%Z
            then (if s then - (Z.pos m * 2 ^ e) else Z.pos m * 2 ^ e)%Z
            else if s then (- (Z.pos m / d))%Z else ((Z.pos m + d - 1) / d)%Z)
  | S754_infinity _ | S754_nan => None
  end.

(** [np.arange(start, stop, step)] on doubles: the length is the ceiling of
    the rounded quotient, which has to be a number within the range of an array
    index; the first two values are [start] and [start + step], the value
    number [i] is [start + i * delta] with the difference [delta] of the first
    two. *)
Definition arange (start stop step : float) : outcome (list float) :=
  match ceil ((stop - start) / step) with
  | None =>
      if is_nan ((stop - start) / step)
      then Raised (ValueError (Text "arange: cannot compute length"))
      else Raised (ValueError (Text "Maximum allowed size exceeded"))
  | Some length =>
      if ((length <? -9223372036854775808) || (9223372036854775807 <? length))%Z%bool
      then Raised (ValueError (Text "Maximum allowed size exceeded"))
      else
        let next := start + step in
        let delta := next - start in
        Returned (map (fun i => match i with
                                | O => start
                                | S O => next
                                | _ => start + of_nat i * delta
                                end)
                      (seq 0 (Z.to_nat length)))
  end.

(** [phi] of [generate_geometry] for a model built from the parameters [A]. *)
Definition phi_samples (A : list float) (resolution : float) : outcome (list float) :=
  arange 0 (c_length A) resolution.

(** [x < y] and [x == y] on doubles. *)
Definition lt (x y : float) : bool := x <? y.
Definition eq (x y : float) : bool := x =? y.

(** The mean shape, and a resolution a little above a 21st of its total
    angle. *)
Definition mean_parameters : list float := [5.97; 3.95; 3.26; 2.85].
Definition boundary_resolution : float := 0.8035910720262166.
Definition zero : float := 0.

End Binary64.

Set Warnings "inexact-float".

(* ===================================================================== *)
(** * cochlea_export.py: the cross sections of [export_csv] *)
(* ===================================================================== *)

Module CochleaExporter.

Import Np NpR CochleaModel.
Local Open Scope R_scope.

(** [geometry['centerline'][row, idx]] *)
Definition centerline_at (g : geometry) (row : nat) (idx : Z) : outcome R :=
  index_axis 1 (nth row (centerline g) []) idx.

(** The two perpendiculars built from the normalised tangent: world Z crossed
    with the tangent unless the tangent is close to vertical, world X then. *)
Definition frame (tangent : vec3) : option (vec3 * vec3) :=
  let '(_, _, tangent_2) := tangent in
  let perp1 :=
    if Rlt_dec (Rabs tangent_2) 0.9
    then cross (0, 0, 1) tangent
    else cross (1, 0, 0) tangent in
  match normalized perp1 with
  | Some perp1 =>
      let perp2 := cross tangent perp1 in
      match normalized perp2 with
      | Some perp2 => Some (perp1, perp2)
      | None => None
      end
  | None => None
  end.

(** The points written to one [cross_section_k.csv], in centimetres. *)
Definition ring (centerline_mode : string) (center : vec3) (radius : R)
  (perp1 perp2 : vec3) (angles : list R) : list vec3 :=
  map (fun angle =>
         let local_x := radius * cos angle in
         let local_y := radius * sin angle in
         let point :=
           if String.eqb centerline_mode "2D" then
             let '(c0, c1, _) := center in
             let center_2d := (c0, c1, 0) in
             vadd (vadd center_2d (vscale local_x perp1)) (vscale local_y perp2)
           else
             vadd (vadd center (vscale local_x perp1)) (vscale local_y perp2) in
         let '(p0, p1, p2) := point in
         (p0 * 0.1, p1 * 0.1, p2 * 0.1))
      angles.

(** One turn of the loop over [section_positions]: the ring that is written,
    [None] when the tangent or the frame is not a number. *)
Definition export_cross_section (self : model) (g : geometry)
  (centerline_mode : string) (position : R) : outcome (option (list vec3)) :=
  let len_phi := Z.of_nat (List.length (phi g)) in
  let idx := to_int (position * IZR (len_phi - 1)) in
  (phi <- index (phi g) idx ;;
   c0 <- centerline_at g 0 idx ;;
   c1 <- centerline_at g 1 idx ;;
   c2 <- centerline_at g 2 idx ;;
   let center := (c0, c1, c2) in
   let radius := (c_length self - phi) / c_length self * 0.5 + 0.6 in
   let '(idx, next_idx) :=
     if (idx <? len_phi - 1)%Z then (idx, (idx + 1)%Z) else ((idx - 1)%Z, idx) in
   x1 <- centerline_at g 0 next_idx ;;
   x0 <- centerline_at g 0 idx ;;
   y1 <- centerline_at g 1 next_idx ;;
   y0 <- centerline_at g 1 idx ;;
   tangent <-
     (if String.eqb centerline_mode "3D" then
        z1 <- centerline_at g 2 next_idx ;;
        z0 <- centerline_at g 2 idx ;;
        Returned (x1 - x0, y1 - y0, z1 - z0)
      else
        Returned (x1 - x0, y1 - y0, 0)) ;;
   let n_circle_points := 60%Z in
   angles <- linspace 0 (2 * PI) (n_circle_points + 1) ;;
   Returned
     match normalized tangent with
     | Some tangent =>
         match frame tangent with
         | Some (perp1, perp2) =>
             Some (ring centerline_mode center radius perp1 perp2 angles)
         | None => None
         end
     | None => None
     end)%py.

(** The cross sections of [export_csv], one ring per file. *)
Definition export_cross_sections (self : model) (g : geometry)
  (centerline_mode : string) (num_cross_sections : Z)
  : outcome (list (option (list vec3))) :=
  (section_positions <- linspace 0 1 num_cross_sections ;;
   map_each (export_cross_section self g centerline_mode) section_positions)%py.

End CochleaExporter.

(* ===================================================================== *)
(** * Properties *)
(* ===================================================================== *)

Import Np NpR NpText Scipy CochleaParameters CochleaModel CochleaExporter.

(** ** Valid shape parameters *)

Section Bounds.

Local Open Scope Q_scope.

(** The anatomical ranges, as the text of the specification gives them. *)
Definition in_bounds (parameters : list Q) : Prop :=
  exists A1 B1 A2 B2,
    parameters = [A1; B1; A2; B2] /\
    (4.0 <= A1 /\ A1 <= 8.0) /\ (2.5 <= B1 /\ B1 <= 5.5) /\
    (2.0 <= A2 /\ A2 <= 4.5) /\ (1.5 <= B2 /\ B2 <= 4.0).

Definition inside (lo hi x : Q) : bool := Qle_bool lo x && Qle_bool x hi.

Lemma inside_iff lo hi x : inside lo hi x = true <-> lo <= x /\ x <= hi.
Proof. unfold inside. rewrite andb_true_iff, !Qle_bool_iff. tauto. Qed.

Lemma inside_false_iff lo hi x : inside lo hi x = false <-> ~ (lo <= x /\ x <= hi).
Proof. rewrite <- inside_iff. destruct (inside lo hi x); split; congruence. Qed.

(** The loop of [validate_parameters] on four values, unrolled: the fields
    are examined in the order A1, B1, A2, B2 and the first one outside its
    range raises. *)
Lemma validate_parameters_four (A1 B1 A2 B2 : Q) :
  validate_parameters [A1; B1; A2; B2] =
    if negb (inside 4.0 8.0 A1) then Raised (ValueError (OutsideBounds "A1" A1 4.0 8.0))
    else if negb (inside 2.5 5.5 B1) then Raised (ValueError (OutsideBounds "B1" B1 2.5 5.5))
    else if negb (inside 2.0 4.5 A2) then Raised (ValueError (OutsideBounds "A2" A2 2.0 4.5))
    else if negb (inside 1.5 4.0 B2) then Raised (ValueError (OutsideBounds "B2" B2 1.5 4.0))
    else Returned true.
Proof.
  unfold validate_parameters, inside.
  cbn [List.length Nat.eqb negb combine param_names for_each check_bound].
  change (getitem bounds "A1") with (Returned (4.0, 8.0)).
  change (getitem bounds "B1") with (Returned (2.5, 5.5)).
  change (getitem bounds "A2") with (Returned (2.0, 4.5)).
  change (getitem bounds "B2") with (Returned (1.5, 4.0)).
  cbn [bind].
  destruct (Qle_bool 4.0 A1 && Qle_bool A1 8.0); cbn [negb bind]; [|reflexivity].
  destruct (Qle_bool 2.5 B1 && Qle_bool B1 5.5); cbn [negb bind]; [|reflexivity].
  destruct (Qle_bool 2.0 A2 && Qle_bool A2 4.5); cbn [negb bind]; [|reflexivity].
  destruct (Qle_bool 1.5 B2 && Qle_bool B2 4.0); reflexivity.
Qed.

Lemma validate_parameters_arity (parameters : list Q) :
  List.length parameters <> 4%nat ->
  validate_parameters parameters
  = Raised (ValueError (Text "Parameters must be a 4-element array")).
Proof.
  intros Hlen. unfold validate_parameters.
  destruct (Nat.eqb_spec (List.length parameters) 4); [contradiction | reflexivity].
Qed.

Lemma validate_parameters_iff (parameters : list Q) :
  validate_parameters parameters = Returned true <-> in_bounds parameters.
Proof.
  split.
  - intros Hv.
    destruct (Nat.eq_dec (List.length parameters) 4) as [Hlen|Hlen].
    + destruct parameters as [|A1 [|B1 [|A2 [|B2 [|x rest]]]]]; try discriminate Hlen.
      rewrite validate_parameters_four in Hv.
      destruct (inside 4.0 8.0 A1) eqn:H1; [|discriminate Hv].
      destruct (inside 2.5 5.5 B1) eqn:H2; [|discriminate Hv].
      destruct (inside 2.0 4.5 A2) eqn:H3; [|discriminate Hv].
      destruct (inside 1.5 4.0 B2) eqn:H4; [|discriminate Hv].
      apply inside_iff in H1, H2, H3, H4.
      exists A1, B1, A2, B2. auto.
    + rewrite (validate_parameters_arity _ Hlen) in Hv. discriminate Hv.
  - intros (A1 & B1 & A2 & B2 & -> & H1 & H2 & H3 & H4).
    apply inside_iff in H1, H2, H3, H4.
    rewrite validate_parameters_four, H1, H2, H3, H4. reflexivity.
Qed.

Lemma validate_parameters_total (parameters : list Q) :
  validate_parameters parameters = Returned true \/ raises (validate_parameters parameters).
Proof.
  destruct (Nat.eq_dec (List.length parameters) 4) as [Hlen|Hlen].
  - destruct parameters as [|A1 [|B1 [|A2 [|B2 [|x rest]]]]]; try discriminate Hlen.
    rewrite validate_parameters_four. unfold raises.
    destruct (inside 4.0 8.0 A1); cbn [negb]; [|eauto].
    destruct (inside 2.5 5.5 B1); cbn [negb]; [|eauto].
    destruct (inside 2.0 4.5 A2); cbn [negb]; [|eauto].
    destruct (inside 1.5 4.0 B2); cbn [negb]; eauto.
  - right. rewrite (validate_parameters_arity _ Hlen). unfold raises; eauto.
Qed.

(** The mean parameters are inside the ranges. *)
Lemma mean_in_bounds : in_bounds [5.97; 3.95; 3.26; 2.85].
Proof.
  exists 5.97, 3.95, 3.26, 2.85.
  repeat split; unfold Qle; simpl; lia.
Defined.

End Bounds.

(** C10: [validate_parameters] returns [True] exactly on four values that
    are each inside their range, end points included; on any other input it
    raises.  With a wrong number of values the error is the arity error; with
    four values it names the first field (in the order A1, B1, A2, B2) that is
    outside its range, the value and the two bounds of that field. *)
Theorem validate_parameters_spec (parameters : list Q) :
  (validate_parameters parameters = Returned true <-> in_bounds parameters)
  /\ (~ in_bounds parameters -> raises (validate_parameters parameters))
  /\ (List.length parameters <> 4%nat ->
      validate_parameters parameters
      = Raised (ValueError (Text "Parameters must be a 4-element array")))
  /\ (forall A1 B1 A2 B2, parameters = [A1; B1; A2; B2] ->
      (inside 4.0 8.0 A1 = false ->
       validate_parameters parameters
       = Raised (ValueError (OutsideBounds "A1" A1 4.0 8.0)))
      /\ (inside 4.0 8.0 A1 = true -> inside 2.5 5.5 B1 = false ->
          validate_parameters parameters
          = Raised (ValueError (OutsideBounds "B1" B1 2.5 5.5)))
      /\ (inside 4.0 8.0 A1 = true -> inside 2.5 5.5 B1 = true ->
          inside 2.0 4.5 A2 = false ->
          validate_parameters parameters
          = Raised (ValueError (OutsideBounds "A2" A2 2.0 4.5)))
      /\ (inside 4.0 8.0 A1 = true -> inside 2.5 5.5 B1 = true ->
          inside 2.0 4.5 A2 = true -> inside 1.5 4.0 B2 = false ->
          validate_parameters parameters
          = Raised (ValueError (OutsideBounds "B2" B2 1.5 4.0))))
  /\ validate_parameters [4.0; 2.5; 2.0; 1.5]%Q = Returned true
  /\ validate_parameters [8.0; 5.5; 4.5; 4.0]%Q = Returned true.
Proof.
  split; [apply validate_parameters_iff|].
  split.
  { intros Hout. destruct (validate_parameters_total parameters) as [Hok|Hr]; [|exact Hr].
    apply validate_parameters_iff in Hok. contradiction. }
  split; [apply validate_parameters_arity|].
  split; [|split; reflexivity].
  intros A1 B1 A2 B2 ->. rewrite validate_parameters_four.
  repeat split; intros; repeat match goal with H : inside _ _ _ = _ |- _ => rewrite H; clear H end;
    reflexivity.
Qed.

(** The same statement at an input with a value below its range: A1 = 3.0. *)
Lemma validate_parameters_spec_witness :
  validate_parameters [3.0; 3.95; 3.26; 2.85]%Q
  = Raised (ValueError (OutsideBounds "A1" 3.0 4.0 8.0)).
Proof.
  destruct (validate_parameters_spec [3.0; 3.95; 3.26; 2.85]%Q) as (_ & _ & _ & H & _).
  destruct (H 3.0 3.95 3.26 2.85 eq_refl)%Q as (H1 & _).
  apply H1. reflexivity.
Defined.

(** ** The derived attributes of a model *)

Section ModelFacts.

Local Open Scope R_scope.

Definition mean_model : model := derived [5.97; 3.95; 3.26; 2.85]%Q.

Lemma Q2R_zero : Q2R 0 = 0.
Proof. unfold Q2R; simpl; rlra. Qed.

Lemma turn_estimate_positive (parameters : list Q) :
  in_bounds parameters -> (0 < _turn_number_estimation parameters)%Q.
Proof.
  intros (A1 & B1 & A2 & B2 & -> & H1 & H2 & H3 & H4).
  unfold _turn_number_estimation, coefs_turns. cbn [dot].
  apply Qlt_shift_div_l; [reflexivity|].
  qlra.
Qed.

Lemma c_length_positive (parameters : list Q) :
  in_bounds parameters -> 0 < c_length (derived parameters).
Proof.
  intros Hb. cbn [derived c_length].
  pose proof (Qlt_Rlt _ _ (turn_estimate_positive _ Hb)) as Hq.
  rewrite Q2R_zero in Hq.
  pose proof PI_RGT_0.
  apply Rmult_lt_0_compat; [rlra | assumption].
Qed.

Lemma c_length_formula (A1 B1 A2 B2 : Q) :
  c_length (derived [A1; B1; A2; B2])
  = (963.166310413576 + 6.37772934525638 * Q2R A1 - 26.9585473096045 * Q2R B1
     - 36.3953582023656 * Q2R A2 + 66.9416454453684 * Q2R B2) / 360 * (2 * PI).
Proof.
  cbn [derived c_length]. unfold _turn_number_estimation, coefs_turns. cbn [dot].
  rewrite Q2R_div by (intros H; discriminate H).
  rewrite !Q2R_plus, !Q2R_mult.
  replace (Q2R 360) with 360 by (unfold Q2R; simpl; rlra).
  replace (Q2R 1) with 1 by (unfold Q2R; simpl; rlra).
  rewrite Q2R_zero.
  replace (-26.9585473096045) with (Ropp 26.9585473096045)
    by (unfold Q2R; simpl; rlra).
  replace (-36.3953582023656) with (Ropp 36.3953582023656)
    by (unfold Q2R; simpl; rlra).
  field.
Qed.

(** Every model that [__init__] returns has four parameters, so that
    [np.append(1, self.A)] has the five entries of a coefficient column. *)
Lemma init_arity (parameters : option (list Q)) (mode : string) (g g' : rng) (m : model) :
  init parameters mode g = (Returned m, g') -> List.length (A m) = 4%nat.
Proof.
  unfold init. destruct parameters as [ps|].
  - destruct (validate_parameters ps) eqn:Hv; intros H; inversion H; subst.
    cbn [derived A]. unfold validate_parameters in Hv.
    destruct (Nat.eqb_spec (List.length ps) 4); [assumption | discriminate Hv].
  - unfold generate_parameters.
    destruct (String.eqb mode "mean").
    + intros H; inversion H; reflexivity.
    + destruct (String.eqb mode "random"); [|intros H; discriminate H].
      cbn [seq fold_left List.length]. unfold normal, multivariate_normal_consume.
      cbn [set_item nth]. intros H; inversion H; reflexivity.
Qed.

End ModelFacts.

(** C1: for parameters inside the four ranges the constructor returns a
    model whose total angle [c_length] is strictly positive, whose turn count
    [n_turns] is the total angle divided by [2 * PI], and whose total angle is
    the dot product of (1, A1, B1, A2, B2) with the turns coefficients, divided
    by 360 and multiplied by [2 * PI]. *)
Theorem total_angle_positive (A1 B1 A2 B2 : Q) (mode : string) (g : rng) :
  (4.0 <= A1 <= 8.0)%Q -> (2.5 <= B1 <= 5.5)%Q ->
  (2.0 <= A2 <= 4.5)%Q -> (1.5 <= B2 <= 4.0)%Q ->
  exists m : model,
    init (Some [A1; B1; A2; B2]) mode g = (Returned m, g)
    /\ (0 < c_length m)%R
    /\ n_turns m = (c_length m / (2 * PI))%R
    /\ c_length m
       = ((963.166310413576 + 6.37772934525638 * Q2R A1 - 26.9585473096045 * Q2R B1
           - 36.3953582023656 * Q2R A2 + 66.9416454453684 * Q2R B2) / 360 * (2 * PI))%R.
Proof.
  intros H1 H2 H3 H4.
  assert (Hb : in_bounds [A1; B1; A2; B2]) by (exists A1, B1, A2, B2; auto).
  exists (derived [A1; B1; A2; B2]).
  split; [|split; [|split]].
  - unfold init. apply validate_parameters_iff in Hb. rewrite Hb. reflexivity.
  - apply c_length_positive, Hb.
  - reflexivity.
  - apply c_length_formula.
Qed.

(** C1 at the mean parameters. *)
Lemma total_angle_positive_witness :
  exists m : model,
    init (Some [5.97; 3.95; 3.26; 2.85]%Q) "mean" {| deviates := fun _ => 0%Q; drawn := 0 |}
    = (Returned m, {| deviates := fun _ => 0%Q; drawn := 0 |})
    /\ (0 < c_length m)%R
    /\ n_turns m = (c_length m / (2 * PI))%R
    /\ c_length m
       = ((963.166310413576 + 6.37772934525638 * Q2R 5.97 - 26.9585473096045 * Q2R 3.95
           - 36.3953582023656 * Q2R 3.26 + 66.9416454453684 * Q2R 2.85) / 360 * (2 * PI))%R.
Proof.
  apply (total_angle_positive 5.97 3.95 3.26 2.85);
    split; unfold Qle; simpl; lia.
Defined.

(** C9: with [parameters=None] the generated vector becomes [self.A] as it
    is, whatever its values; there are draws of the "random" mode (here every
    normal deviate is 3.5) for which the model is built with a parameter outside
    its range, B2 = 4.005 > 4.0, one that [validate_parameters] rejects.  With
    explicit parameters the constructor returns a model only for values inside
    the ranges and raises otherwise. *)
Theorem generated_parameters_unvalidated :
  (forall mode g ps g',
      generate_parameters mode g = (Returned ps, g') ->
      init None mode g = (Returned (derived ps), g'))
  /\ (exists m g',
        init None "random" {| deviates := fun _ => 3.5%Q; drawn := 0 |}
        = (Returned m, g')
        /\ ~ in_bounds (A m)
        /\ raises (validate_parameters (A m)))
  /\ (forall ps mode g m g',
        init (Some ps) mode g = (Returned m, g') -> A m = ps /\ in_bounds ps)
  /\ (forall ps mode g,
        ~ in_bounds ps -> raises (fst (init (Some ps) mode g))).
Proof.
  split; [|split; [|split]].
  - intros mode g ps g' Hgen. unfold init. rewrite Hgen. reflexivity.
  - eexists. eexists. split; [|split].
    + unfold init.
      replace (generate_parameters "random" {| deviates := fun _ => 3.5%Q; drawn := 0 |})
        with (Returned [5.97 + 0.36 * 3.5; 3.95 + 0.35 * 3.5;
                        3.26 + 0.28 * 3.5; 2.85 + 0.33 * 3.5]%Q,
              {| deviates := fun _ => 3.5%Q; drawn := 12 |})
        by reflexivity.
      reflexivity.
    + cbn [derived A]. intros Hb. apply validate_parameters_iff in Hb.
      vm_compute in Hb. discriminate Hb.
    + cbn [derived A]. eexists. vm_compute. reflexivity.
  - intros ps mode g m g'. unfold init.
    destruct (validate_parameters ps) eqn:Hv; intros H; inversion H; subst.
    split; [reflexivity|].
    apply validate_parameters_iff.
    destruct (validate_parameters_total ps) as [Hok|[e He]]; [exact Hok|].
    rewrite He in Hv. discriminate Hv.
  - intros ps mode g Hout. unfold init.
    destruct (validate_parameters_total ps) as [Hok|[e He]].
    + apply validate_parameters_iff in Hok. contradiction.
    + rewrite He. exists e. reflexivity.
Qed.

(** ** Sampling with [arange] *)

Section Sampling.

Local Open Scope R_scope.

(** The samples [start + i * step] that [arange] returns for a step that is
    not zero. *)
Definition samples (start stop step : R) : list R :=
  map (fun i => start + INR i * step)
      (seq 0 (Z.to_nat (Zceil ((stop - start) / step)))).

Lemma arange_nonzero (start stop step : R) :
  step <> 0 -> arange start stop step = Returned (samples start stop step).
Proof.
  intros Hs. unfold arange. destruct (Req_dec_T step 0); [contradiction | reflexivity].
Qed.

Lemma arange_zero (start stop : R) : raises (arange start stop 0).
Proof.
  unfold arange, raises. destruct (Req_dec_T 0 0) as [_|H]; [|contradiction H; reflexivity].
  destruct (Req_dec_T (stop - start) 0); eauto.
Qed.

Lemma Zceil_nonpos (x : R) : x <= 0 -> (Zceil x <= 0)%Z.
Proof.
  intros Hx. destruct (Zceil_bound x) as [Hlo _].
  apply Z.lt_succ_r, lt_IZR. rewrite succ_IZR. simpl. rlra.
Qed.

Lemma samples_backwards (start stop step : R) :
  step < 0 -> start <= stop -> samples start stop step = [].
Proof.
  intros Hs Hle. unfold samples.
  assert (Hq : (stop - start) / step <= 0).
  { unfold Rdiv. pose proof (Rinv_lt_0_compat step Hs). Lra.nra. }
  replace (Z.to_nat (Zceil ((stop - start) / step))) with 0%nat; [reflexivity|].
  pose proof (Zceil_nonpos _ Hq). lia.
Qed.

Lemma nth_map_in {T U : Type} (f : T -> U) (l : list T) (i : nat) (d : T) (d' : U) :
  (i < List.length l)%nat -> nth i (map f l) d' = f (nth i l d).
Proof.
  intros Hi. rewrite (nth_indep _ d' (f d)) by (rewrite length_map; exact Hi).
  apply map_nth.
Qed.

Lemma samples_length (start stop step : R) :
  List.length (samples start stop step) = Z.to_nat (Zceil ((stop - start) / step)).
Proof. unfold samples. rewrite length_map, length_seq. reflexivity. Qed.

Lemma samples_nth (start stop step : R) (i : nat) :
  (i < List.length (samples start stop step))%nat ->
  nth i (samples start stop step) 0 = start + INR i * step.
Proof.
  intros Hi. rewrite samples_length in Hi. unfold samples.
  rewrite (nth_map_in _ _ _ 0%nat) by (rewrite length_seq; exact Hi).
  rewrite seq_nth by exact Hi. reflexivity.
Qed.

(** Half-open sampling: every sample is below [stop]. *)
Lemma samples_below (start stop step : R) (i : nat) :
  0 < step -> (i < List.length (samples start stop step))%nat ->
  start + INR i * step < stop.
Proof.
  intros Hs Hi. rewrite samples_length in Hi.
  destruct (Zceil_bound ((stop - start) / step)) as [Hlo _].
  assert (Hi' : INR i <= IZR (Zceil ((stop - start) / step)) - 1).
  { rewrite INR_IZR_INZ, <- minus_IZR. apply IZR_le. lia. }
  assert (Hlt : INR i < (stop - start) / step) by rlra.
  apply (Rmult_lt_compat_r step) in Hlt; [|exact Hs].
  unfold Rdiv in Hlt. rewrite Rmult_assoc, Rinv_l, Rmult_1_r in Hlt by rlra.
  rlra.
Qed.

Lemma samples_increasing (start stop step : R) (i j : nat) :
  0 < step -> (i < j)%nat -> start + INR i * step < start + INR j * step.
Proof.
  intros Hs Hij. apply lt_INR in Hij.
  apply Rplus_lt_compat_l, Rmult_lt_compat_r; assumption.
Qed.

End Sampling.

(** ** The result of [generate_geometry] *)

Section Geometry.

Local Open Scope R_scope.

Definition empty_geometry : geometry :=
  {| centerline := [[]; []; []];
     scala_x := []; scala_y := []; scala_z := [];
     phi := []; turns := []; r_modiolus := [] |}.

(** The centre line of a model at the angle [p]. *)
Definition centerline_point (self : model) (p : R) : vec3 :=
  (_radius_modiolus_poly self p * cos p,
   _radius_modiolus_poly self p * sin p,
   _height_poly self p).

Lemma map_combine_map (r : R -> R) (k : R * R -> R) (ps : list R) :
  map k (combine (map r ps) ps) = map (fun p => k (r p, p)) ps.
Proof. induction ps as [|p ps IH]; simpl; [reflexivity | rewrite IH; reflexivity]. Qed.

(** For a step that is not zero the call returns, and everything but the
    surface arrays is a function of the samples. *)
Lemma generate_geometry_returns (self : model) (resolution : R) :
  resolution <> 0 ->
  exists sx sy sz,
    generate_geometry self resolution
    = Returned
        {| centerline :=
             [ map (fun p => _radius_modiolus_poly self p * cos p)
                   (samples 0 (c_length self) resolution);
               map (fun p => _radius_modiolus_poly self p * sin p)
                   (samples 0 (c_length self) resolution);
               map (_height_poly self) (samples 0 (c_length self) resolution) ];
           scala_x := sx; scala_y := sy; scala_z := sz;
           phi := samples 0 (c_length self) resolution;
           turns := map (fun p => p / (2 * PI)) (samples 0 (c_length self) resolution);
           r_modiolus := map (_radius_modiolus_poly self)
                             (samples 0 (c_length self) resolution) |}
    /\ (sx, sy, sz)
       = fold_left
           (scala_outer self (samples 0 (2 * PI) resolution)
              (map (_radius_modiolus_poly self) (samples 0 (c_length self) resolution))
              [ map (fun p => _radius_modiolus_poly self p * cos p)
                    (samples 0 (c_length self) resolution);
                map (fun p => _radius_modiolus_poly self p * sin p)
                    (samples 0 (c_length self) resolution);
                map (_height_poly self) (samples 0 (c_length self) resolution) ])
           (enumerate (samples 0 (c_length self) resolution))
           (zeros (List.length (samples 0 (2 * PI) resolution))
                  (List.length (samples 0 (c_length self) resolution)),
            zeros (List.length (samples 0 (2 * PI) resolution))
                  (List.length (samples 0 (c_length self) resolution)),
            zeros (List.length (samples 0 (2 * PI) resolution))
                  (List.length (samples 0 (c_length self) resolution))).
Proof.
  intros Hres. unfold generate_geometry.
  rewrite !(arange_nonzero _ _ _ Hres). cbn [bind].
  rewrite !map_combine_map. cbn [fst snd].
  destruct (fold_left _ _ _) as [[sx sy] sz].
  exists sx, sy, sz. split; reflexivity.
Qed.

Lemma generate_geometry_backwards (self : model) (resolution : R) :
  0 <= c_length self -> resolution < 0 ->
  generate_geometry self resolution = Returned empty_geometry.
Proof.
  intros Hc Hres.
  destruct (generate_geometry_returns self resolution) as (sx & sy & sz & Hg & Hs);
    [rlra|].
  rewrite Hg. rewrite !samples_backwards in * by (try assumption; pose proof PI_RGT_0; rlra).
  cbn in Hs. inversion Hs; subst. reflexivity.
Qed.

Lemma generate_geometry_zero (self : model) : raises (generate_geometry self 0).
Proof.
  unfold generate_geometry.
  destruct (arange_zero 0 (c_length self)) as [e He]. rewrite He.
  exists e. reflexivity.
Qed.

End Geometry.

(** C2, as the code has it: [get_point_at_position] checks nothing.  For
    every turn fraction, inside [0, 1] or not, it returns the point of the
    centre line at [phi = turn_fraction * c_length] together with the radius,
    the height, [phi] and the number of turns [phi / (2 * PI)]. *)
Theorem get_point_at_position_returns (self : model) (turn_fraction : R) :
  exists info : point_info,
    get_point_at_position self turn_fraction = Returned info
    /\ point_phi info = (turn_fraction * c_length self)%R
    /\ position info
       = ((_radius_modiolus_poly self (point_phi info) * cos (point_phi info))%R,
          (_radius_modiolus_poly self (point_phi info) * sin (point_phi info))%R,
          _height_poly self (point_phi info))
    /\ radius_modiolus info = _radius_modiolus_poly self (point_phi info)
    /\ height info = _height_poly self (point_phi info)
    /\ point_turns info = (point_phi info / (2 * PI))%R.
Proof.
  unfold get_point_at_position.
  eexists. split; [reflexivity|].
  cbn [point_phi position radius_modiolus height point_turns].
  repeat split; reflexivity.
Qed.

(** C2 fails at the turn fraction 2, which is outside [0, 1]: the call on
    the mean model returns a point and raises nothing. *)
Lemma get_point_at_position_outside_range :
  (~ (0 <= 2 <= 1)%R)
  /\ returns (get_point_at_position mean_model 2)
  /\ ~ raises (get_point_at_position mean_model 2).
Proof.
  split; [intros [_ H]; rlra|].
  split.
  - eexists. reflexivity.
  - intros [e He]. discriminate He.
Qed.







Section RoundedSampling.

Local Open Scope R_scope.

(** An arithmetic that rounds: the rounding is monotone and leaves the
    integers that can be array indices as they are.  The exact arithmetic
    ([fl x = x]) and IEEE-754 binary64 are of this kind. *)
Variable fl : R -> R.
Hypothesis fl_monotone : forall x y, x <= y -> fl x <= fl y.
Hypothesis fl_index : forall i : nat, (Z.of_nat i <= 2 ^ 53)%Z -> fl (INR i) = INR i.

(** In such an arithmetic no sample [fl (i * resolution)] with [i] below the
    length [ceil (fl (c / resolution))] is above a total angle [c] that is a
    number of the arithmetic. *)
Lemma rounded_sample_le (c resolution : R) (i : nat) :
  fl c = c -> 0 < resolution ->
  (Z.of_nat i <= 2 ^ 53)%Z ->
  (Z.of_nat i < Zceil (fl (c / resolution)))%Z ->
  fl (INR i * resolution) <= c.
Proof.
  intros Hc Hres Hi53 Hi.
  destruct (Zceil_bound (fl (c / resolution))) as [Hlo _].
  assert (Hlt : INR i < fl (c / resolution)).
  { apply IZR_le in Hi53. rewrite INR_IZR_INZ.
    assert (H : IZR (Z.of_nat i) <= IZR (Zceil (fl (c / resolution))) - 1).
    { rewrite <- minus_IZR. apply IZR_le. lia. }
    rlra. }
  assert (Hle : INR i <= c / resolution).
  { destruct (Rle_lt_dec (INR i) (c / resolution)) as [H|H]; [exact H|].
    exfalso. pose proof (fl_monotone _ _ (Rlt_le _ _ H)) as Hm.
    rewrite (fl_index i Hi53) in Hm. rlra. }
  rewrite <- Hc. apply fl_monotone.
  apply (Rmult_le_compat_r resolution) in Hle; [|rlra].
  replace (c / resolution * resolution) with c in Hle by (field; rlra).
  exact Hle.
Qed.

End RoundedSampling.

(** ** Vectors and the frame of a cross section *)

Section Frames.

Local Open Scope R_scope.

Lemma vdot_self_nonneg (v : vec3) : 0 <= vdot v v.
Proof. destruct v as [[x y] z]. cbn. Lra.nra. Qed.

Lemma norm_sqrt_vdot (v : vec3) : norm v = sqrt (vdot v v).
Proof. destruct v as [[x y] z]. reflexivity. Qed.

Lemma norm_unit_iff (v : vec3) : norm v = 1 <-> vdot v v = 1.
Proof.
  rewrite norm_sqrt_vdot. split; intros H.
  - rewrite <- (sqrt_sqrt (vdot v v)) by apply vdot_self_nonneg.
    rewrite H. ring.
  - rewrite H. apply sqrt_1.
Qed.

Lemma norm_zero_iff (v : vec3) : norm v = 0 <-> vdot v v = 0.
Proof.
  rewrite norm_sqrt_vdot. split; intros H.
  - apply sqrt_eq_0; [apply vdot_self_nonneg | exact H].
  - rewrite H. apply sqrt_0.
Qed.

Lemma vdot_vscale_l (k : R) (u v : vec3) : vdot (vscale k u) v = k * vdot u v.
Proof. destruct u as [[a b] c], v as [[x y] z]. cbn. ring. Qed.

Lemma vdot_vscale_r (k : R) (u v : vec3) : vdot u (vscale k v) = k * vdot u v.
Proof. destruct u as [[a b] c], v as [[x y] z]. cbn. ring. Qed.

Lemma vdot_comm (u v : vec3) : vdot u v = vdot v u.
Proof. destruct u as [[a b] c], v as [[x y] z]. cbn. ring. Qed.

Lemma vdot_cross_l (u v : vec3) : vdot (cross u v) u = 0.
Proof. destruct u as [[a b] c], v as [[x y] z]. cbn. ring. Qed.

Lemma vdot_cross_r (u v : vec3) : vdot (cross u v) v = 0.
Proof. destruct u as [[a b] c], v as [[x y] z]. cbn. ring. Qed.

(** Lagrange's identity. *)
Lemma vdot_cross_cross (u v : vec3) :
  vdot (cross u v) (cross u v) = vdot u u * vdot v v - vdot u v * vdot u v.
Proof. destruct u as [[a b] c], v as [[x y] z]. cbn. ring. Qed.

(** Normalising a vector that is not zero gives a unit vector. *)
Lemma normalized_unit (v : vec3) :
  vdot v v <> 0 ->
  normalized v = Some (vscale (/ norm v) v)
  /\ vdot (vscale (/ norm v) v) (vscale (/ norm v) v) = 1.
Proof.
  intros Hv.
  assert (Hn : norm v <> 0) by (rewrite norm_zero_iff; exact Hv).
  split.
  - unfold normalized. destruct (Req_dec_T (norm v) 0); [contradiction | reflexivity].
  - rewrite vdot_vscale_l, vdot_vscale_r.
    rewrite <- (sqrt_sqrt (vdot v v)) by apply vdot_self_nonneg.
    rewrite <- norm_sqrt_vdot. field. exact Hn.
Qed.

(** Whatever [normalized] returns has length one. *)
Lemma normalized_some_unit (v u : vec3) : normalized v = Some u -> norm u = 1.
Proof.
  unfold normalized. destruct (Req_dec_T (norm v) 0) as [|Hn]; [discriminate|].
  intros H. inversion H; subst u.
  apply norm_unit_iff, normalized_unit.
  intros Hv. apply Hn, norm_zero_iff, Hv.
Qed.

(** The frame built from a unit tangent, case by case. *)
Lemma frame_of_unit (tangent axis : vec3) :
  vdot tangent tangent = 1 ->
  vdot (cross axis tangent) (cross axis tangent) <> 0 ->
  let perp1 := vscale (/ norm (cross axis tangent)) (cross axis tangent) in
  let perp2 := vscale (/ norm (cross tangent perp1)) (cross tangent perp1) in
  normalized (cross axis tangent) = Some perp1
  /\ normalized (cross tangent perp1) = Some perp2
  /\ norm perp1 = 1 /\ norm perp2 = 1
  /\ vdot perp1 tangent = 0 /\ vdot perp2 tangent = 0 /\ vdot perp1 perp2 = 0.
Proof.
  intros Ht Hc perp1 perp2.
  destruct (normalized_unit _ Hc) as [Hn1 Hu1]. fold perp1 in Hn1, Hu1.
  assert (Hp1t : vdot perp1 tangent = 0).
  { unfold perp1. rewrite vdot_vscale_l, vdot_cross_r. ring. }
  assert (Hc2 : vdot (cross tangent perp1) (cross tangent perp1) = 1).
  { rewrite vdot_cross_cross, Ht, Hu1, (vdot_comm tangent perp1), Hp1t. ring. }
  assert (Hc2' : vdot (cross tangent perp1) (cross tangent perp1) <> 0) by (rewrite Hc2; rlra).
  destruct (normalized_unit _ Hc2') as [Hn2 Hu2]. fold perp2 in Hn2, Hu2.
  repeat split; try assumption.
  - apply norm_unit_iff, Hu1.
  - apply norm_unit_iff, Hu2.
  - unfold perp2. rewrite vdot_vscale_l, vdot_cross_l. ring.
  - unfold perp2. rewrite vdot_vscale_r, vdot_comm, vdot_cross_r. ring.
Qed.

End Frames.

(** C7: for every unit tangent the frame construction of the export path
    yields two perpendiculars; the first is the normalised cross product of
    world Z with the tangent when the tangent's |z| is below 0.9 and of world X
    with the tangent otherwise; both have length one, both are orthogonal to
    the tangent, and they are orthogonal to each other.  (Exact arithmetic: the
    equalities hold without a tolerance.) *)
Theorem frame_orthonormal (tangent : vec3) :
  norm tangent = 1%R ->
  exists perp1 perp2 : vec3,
    frame tangent = Some (perp1, perp2)
    /\ ((Rabs (snd tangent) < 0.9)%R ->
        normalized (cross (0, 0, 1)%R tangent) = Some perp1)
    /\ (~ (Rabs (snd tangent) < 0.9)%R ->
        normalized (cross (1, 0, 0)%R tangent) = Some perp1)
    /\ norm perp1 = 1%R /\ norm perp2 = 1%R
    /\ vdot perp1 tangent = 0%R /\ vdot perp2 tangent = 0%R
    /\ vdot perp1 perp2 = 0%R.
Proof.
  intros Hn. apply norm_unit_iff in Hn.
  assert (Hcase : forall axis,
             vdot (cross axis tangent) (cross axis tangent) <> 0%R ->
             exists perp1 perp2,
               (normalized (cross axis tangent) = Some perp1
                /\ normalized (cross tangent perp1) = Some perp2)
               /\ norm perp1 = 1%R /\ norm perp2 = 1%R
               /\ vdot perp1 tangent = 0%R /\ vdot perp2 tangent = 0%R
               /\ vdot perp1 perp2 = 0%R).
  { intros axis Hc.
    destruct (frame_of_unit tangent axis Hn Hc) as (H1 & H2 & H3).
    eexists. eexists. split; [split; [exact H1 | exact H2] | exact H3]. }
  destruct tangent as [[x y] z]. unfold frame. cbn [snd].
  cbn in Hn.
  destruct (Rlt_dec (Rabs z) 0.9) as [Hz|Hz].
  - destruct (Hcase (0, 0, 1)%R) as (perp1 & perp2 & [H1 H2] & H3).
    { cbn. apply Rabs_def2 in Hz. Lra.nra. }
    exists perp1, perp2. rewrite H1, H2.
    split; [reflexivity|]. split; [intros _; reflexivity|].
    split; [intros Hc; contradiction | exact H3].
  - destruct (Hcase (1, 0, 0)%R) as (perp1 & perp2 & [H1 H2] & H3).
    { cbn. apply Rnot_lt_le in Hz.
      assert (Hzz : (0.81 <= z * z)%R).
      { unfold Rabs in Hz. destruct (Rcase_abs z); Lra.nra. }
      Lra.nra. }
    exists perp1, perp2. rewrite H1, H2.
    split; [reflexivity|]. split; [intros Hc; contradiction|].
    split; [intros _; reflexivity | exact H3].
Qed.

(** C7 on the vertical tangent (0, 0, 1), where world X is the axis. *)
Lemma frame_orthonormal_witness :
  exists perp1 perp2 : vec3,
    frame (0, 0, 1)%R = Some (perp1, perp2)
    /\ norm perp1 = 1%R /\ norm perp2 = 1%R
    /\ vdot perp1 (0, 0, 1)%R = 0%R /\ vdot perp2 (0, 0, 1)%R = 0%R
    /\ vdot perp1 perp2 = 0%R.
Proof.
  assert (Hunit : norm (0, 0, 1)%R = 1%R).
  { apply norm_unit_iff. cbn. rlra. }
  destruct (frame_orthonormal (0, 0, 1)%R Hunit) as (perp1 & perp2 & Hf & _ & _ & H).
  exists perp1, perp2. split; [exact Hf | exact H].
Defined.

(** ** Arrays filled cell by cell *)

Section Fill.

Local Open Scope R_scope.

Lemma set_item_length {T : Type} (a : list T) (i : nat) (v : T) :
  List.length (set_item a i v) = List.length a.
Proof.
  revert i; induction a as [|x a IH]; intros [|i]; simpl; try reflexivity.
  rewrite IH. reflexivity.
Qed.

Lemma set_item_nth_same {T : Type} (a : list T) (i : nat) (v d : T) :
  (i < List.length a)%nat -> nth i (set_item a i v) d = v.
Proof.
  revert i; induction a as [|x a IH]; intros [|i] Hi; simpl in *; try lia; try reflexivity.
  apply IH. lia.
Qed.

Lemma set_item_nth_other {T : Type} (a : list T) (i j : nat) (v d : T) :
  i <> j -> nth j (set_item a i v) d = nth j a d.
Proof.
  revert i j; induction a as [|x a IH]; intros [|i] [|j] Hij; simpl; try reflexivity.
  - contradiction Hij; reflexivity.
  - apply IH. lia.
Qed.

Lemma set_item_outside {T : Type} (a : list T) (i : nat) (v : T) :
  (List.length a <= i)%nat -> set_item a i v = a.
Proof.
  revert i; induction a as [|x a IH]; intros [|i] Hi; simpl in *; try reflexivity; try lia.
  rewrite IH by lia. reflexivity.
Qed.

(** The shape of an array: the length of each row. *)
Definition shape (M : list (list R)) : list nat := map (@List.length R) M.

Lemma shape_rows (M N : list (list R)) :
  shape M = shape N -> List.length M = List.length N.
Proof. intros H. apply (f_equal (@List.length nat)) in H. unfold shape in H.
  rewrite !length_map in H. exact H. Qed.

Lemma shape_row (M N : list (list R)) (j : nat) :
  shape M = shape N -> List.length (nth j M []) = List.length (nth j N []).
Proof.
  intros H. apply (f_equal (fun s => nth j s 0%nat)) in H. unfold shape in H.
  change 0%nat with (@List.length R []) in H. rewrite !map_nth in H. exact H.
Qed.

Lemma shape_zeros_rows (rows cols : nat) : List.length (zeros rows cols) = rows.
Proof. apply repeat_length. Qed.

Lemma shape_zeros_row (rows cols j : nat) :
  (j < rows)%nat -> List.length (nth j (zeros rows cols) []) = cols.
Proof.
  intros Hj. unfold zeros.
  rewrite (nth_indep _ [] (repeat 0 cols)) by (rewrite repeat_length; exact Hj).
  rewrite nth_repeat. apply repeat_length.
Qed.

Lemma shape_set2 (M : list (list R)) (j i : nat) (x : R) :
  shape (set2 M j i x) = shape M.
Proof.
  unfold set2, shape.
  destruct (Nat.lt_ge_cases j (List.length M)) as [Hj|Hj].
  - apply nth_ext with (d := 0%nat) (d' := 0%nat).
    + rewrite !length_map, set_item_length. reflexivity.
    + intros k _. change 0%nat with (@List.length R []). rewrite !map_nth.
      destruct (Nat.eq_dec j k) as [<-|Hjk].
      * rewrite set_item_nth_same by exact Hj. apply set_item_length.
      * rewrite set_item_nth_other by exact Hjk. reflexivity.
  - rewrite set_item_outside by exact Hj. reflexivity.
Qed.

Lemma get2_set2_same (M : list (list R)) (j i : nat) (x : R) :
  (j < List.length M)%nat -> (i < List.length (nth j M []))%nat ->
  get2 (set2 M j i x) j i = x.
Proof.
  intros Hj Hi. unfold get2, set2.
  rewrite set_item_nth_same by exact Hj. apply set_item_nth_same, Hi.
Qed.

Lemma get2_set2_other (M : list (list R)) (j i j' i' : nat) (x : R) :
  j' <> j \/ i' <> i -> get2 (set2 M j i x) j' i' = get2 M j' i'.
Proof.
  intros Hne. unfold get2, set2.
  destruct (Nat.eq_dec j j') as [<-|Hj].
  - destruct Hne as [Hne|Hne]; [contradiction Hne; reflexivity|].
    destruct (Nat.lt_ge_cases j (List.length M)) as [Hlt|Hge].
    + rewrite set_item_nth_same by exact Hlt.
      apply set_item_nth_other. congruence.
    + rewrite set_item_outside by exact Hge. reflexivity.
  - rewrite set_item_nth_other by exact Hj. reflexivity.
Qed.

(** One column: [for j, angle in enumerate(v): M[j, i] = cell(j, angle)]. *)
Definition fill_column (cell : nat -> R -> R) (i : nat)
  (M : list (list R)) (jv : nat * R) : list (list R) :=
  set2 M (fst jv) i (cell (fst jv) (snd jv)).

Lemma fill_column_spec (cell : nat -> R -> R) (i : nat) (l : list (nat * R)) :
  forall M : list (list R),
    NoDup (map fst l) ->
    shape (fold_left (fill_column cell i) l M) = shape M
    /\ (forall j a, In (j, a) l ->
          (j < List.length M)%nat -> (i < List.length (nth j M []))%nat ->
          get2 (fold_left (fill_column cell i) l M) j i = cell j a)
    /\ (forall j' i', i' <> i \/ ~ In j' (map fst l) ->
          get2 (fold_left (fill_column cell i) l M) j' i' = get2 M j' i').
Proof.
  induction l as [|[j0 a0] l IH]; intros M Hnd.
  - cbn. split; [reflexivity|]. split; [intros j a []|reflexivity].
  - cbn [fold_left map fst] in *. inversion Hnd as [|? ? Hnotin Hnd']; subst.
    set (M1 := fill_column cell i M (j0, a0)).
    assert (HM1 : M1 = set2 M j0 i (cell j0 a0)) by reflexivity.
    assert (Hs1 : shape M1 = shape M) by (rewrite HM1; apply shape_set2).
    destruct (IH M1 Hnd') as (Hshape & Hin & Hout).
    split; [|split].
    + rewrite Hshape. exact Hs1.
    + intros j a [Heq|Hl] Hj Hi.
      * inversion Heq; subst j0 a0.
        rewrite Hout by (right; exact Hnotin).
        rewrite HM1. apply get2_set2_same; assumption.
      * apply Hin; [exact Hl | |].
        -- rewrite (shape_rows _ _ Hs1). exact Hj.
        -- rewrite (shape_row _ _ j Hs1). exact Hi.
    + intros j' i' Hne.
      rewrite Hout
        by (destruct Hne as [Hne|Hne];
            [left; exact Hne | right; intros Hc; apply Hne; right; exact Hc]).
      rewrite HM1. apply get2_set2_other.
      destruct Hne as [Hne|Hne]; [right; exact Hne | left; intros ->; apply Hne; left; reflexivity].
Qed.

(** All columns: [for i, p in enumerate(phi): for j, angle in enumerate(v):
    M[j, i] = cell(i, p, j, angle)]. *)
Definition fill_columns (cell : nat -> R -> nat -> R -> R) (v : list (nat * R))
  (M : list (list R)) (ip : nat * R) : list (list R) :=
  fold_left (fill_column (cell (fst ip) (snd ip)) (fst ip)) v M.

Lemma fill_columns_spec (cell : nat -> R -> nat -> R -> R) (v l : list (nat * R)) :
  NoDup (map fst v) ->
  forall M : list (list R),
    NoDup (map fst l) ->
    shape (fold_left (fill_columns cell v) l M) = shape M
    /\ (forall i p j a, In (i, p) l -> In (j, a) v ->
          (j < List.length M)%nat -> (i < List.length (nth j M []))%nat ->
          get2 (fold_left (fill_columns cell v) l M) j i = cell i p j a)
    /\ (forall j' i', ~ In i' (map fst l) ->
          get2 (fold_left (fill_columns cell v) l M) j' i' = get2 M j' i').
Proof.
  intros Hv. induction l as [|[i0 p0] l IH]; intros M Hnd.
  - cbn. split; [reflexivity|]. split; [intros i p j a []|reflexivity].
  - cbn [fold_left map fst] in *. inversion Hnd as [|? ? Hnotin Hnd']; subst.
    set (M1 := fill_columns cell v M (i0, p0)).
    assert (HM1 : M1 = fold_left (fill_column (cell i0 p0) i0) v M) by reflexivity.
    destruct (fill_column_spec (cell i0 p0) i0 v M Hv) as (Hs0 & Hin0 & Hout0).
    rewrite <- HM1 in Hs0, Hin0, Hout0.
    destruct (IH M1 Hnd') as (Hshape & Hin & Hout).
    split; [|split].
    + rewrite Hshape. exact Hs0.
    + intros i p j a [Heq|Hl] Hja Hj Hi.
      * inversion Heq; subst i0 p0.
        rewrite Hout by exact Hnotin. apply Hin0; assumption.
      * apply (Hin i p j a Hl Hja).
        -- rewrite (shape_rows _ _ Hs0). exact Hj.
        -- rewrite (shape_row _ _ j Hs0). exact Hi.
    + intros j' i' Hne.
      rewrite Hout by (intros Hc; apply Hne; right; exact Hc).
      apply Hout0. left. intros ->. apply Hne. left. reflexivity.
Qed.

Lemma enumerate_fst {T : Type} (xs : list T) :
  map fst (enumerate xs) = seq 0 (List.length xs).
Proof.
  unfold enumerate. generalize 0%nat.
  induction xs as [|x xs IH]; intros k; cbn; [reflexivity | rewrite IH; reflexivity].
Qed.

Lemma enumerate_NoDup {T : Type} (xs : list T) : NoDup (map fst (enumerate xs)).
Proof. rewrite enumerate_fst. apply seq_NoDup. Qed.

Lemma enumerate_In {T : Type} (xs : list T) (i : nat) (d : T) :
  (i < List.length xs)%nat -> In (i, nth i xs d) (enumerate xs).
Proof.
  intros Hi. unfold enumerate.
  replace (i, nth i xs d) with (nth i (combine (seq 0 (List.length xs)) xs) (0%nat, d)).
  - apply nth_In. rewrite length_combine, length_seq. lia.
  - rewrite combine_nth by apply length_seq. rewrite seq_nth by exact Hi. reflexivity.
Qed.

(** The nested loops of [generate_geometry] fill every cell of a blank array
    of the right shape with the value its body computes. *)
Lemma fill_all (cell : nat -> R -> nat -> R -> R) (phi v : list R) (i j : nat) :
  (i < List.length phi)%nat -> (j < List.length v)%nat ->
  get2 (fold_left (fill_columns cell (enumerate v)) (enumerate phi)
                  (zeros (List.length v) (List.length phi))) j i
  = cell i (nth i phi 0) j (nth j v 0).
Proof.
  intros Hi Hj.
  destruct (fill_columns_spec cell (enumerate v) (enumerate phi) (enumerate_NoDup v)
              (zeros (List.length v) (List.length phi)) (enumerate_NoDup phi))
    as (_ & Hin & _).
  apply Hin.
  - apply enumerate_In, Hi.
  - apply enumerate_In, Hj.
  - rewrite shape_zeros_rows. exact Hj.
  - rewrite shape_zeros_row by exact Hj. exact Hi.
Qed.

End Fill.

(** ** The tube radius in the three code paths *)

Section TubeRadius.

Local Open Scope R_scope.

(** The radius of the tube at the angle [phi], in the words of the
    specification: linear from the base to the apex. *)
Definition tube_radius (total_angle phi : R) : R :=
  (total_angle - phi) / total_angle * 0.5 + 0.6.

Lemma tube_radius_profile (total_angle : R) :
  total_angle <> 0 ->
  tube_radius total_angle 0 = 1.1
  /\ tube_radius total_angle total_angle = 0.6
  /\ (forall phi, tube_radius total_angle phi = 1.1 - 0.5 / total_angle * phi).
Proof.
  intros Hc. unfold tube_radius, Q2R. cbn [Qnum Qden].
  repeat split; intros; field; exact Hc.
Qed.

Lemma tube_radius_decreasing (total_angle phi1 phi2 : R) :
  0 < total_angle -> phi1 < phi2 ->
  tube_radius total_angle phi2 < tube_radius total_angle phi1.
Proof.
  intros Hc Hlt.
  destruct (tube_radius_profile total_angle) as (_ & _ & Hlin); [rlra|].
  rewrite !Hlin.
  assert (Hk : 0 < 0.5 / total_angle) by (apply Rdiv_lt_0_compat; rlra).
  Lra.nra.
Qed.

(** The loops over the three surface arrays, array by array. *)
Lemma scala_inner_fold (p : R) (i : nat) (r_scala : R) (rm : list R)
  (cl : list (list R)) (l : list (nat * R)) :
  forall X Y Z : list (list R),
    fold_left (scala_inner p i r_scala rm cl) l (X, Y, Z)
    = (fold_left (fill_column
                    (fun _ angle => (nth i rm 0 + r_scala * (cos angle - 1)) * cos p) i) l X,
       fold_left (fill_column
                    (fun _ angle => (nth i rm 0 + r_scala * (cos angle - 1)) * sin p) i) l Y,
       fold_left (fill_column
                    (fun _ angle => r_scala * sin angle + get2 cl 2 i) i) l Z).
Proof.
  induction l as [|[j angle] l IH]; intros X Y Z; [reflexivity|].
  cbn [fold_left scala_inner]. rewrite IH. reflexivity.
Qed.

Lemma scala_outer_fold (self : model) (v : list R) (rm : list R)
  (cl : list (list R)) (l : list (nat * R)) :
  forall X Y Z : list (list R),
    fold_left (scala_outer self v rm cl) l (X, Y, Z)
    = (fold_left
         (fill_columns
            (fun i p _ angle =>
               (nth i rm 0 + tube_radius (c_length self) p * (cos angle - 1)) * cos p)
            (enumerate v)) l X,
       fold_left
         (fill_columns
            (fun i p _ angle =>
               (nth i rm 0 + tube_radius (c_length self) p * (cos angle - 1)) * sin p)
            (enumerate v)) l Y,
       fold_left
         (fill_columns
            (fun i p _ angle => tube_radius (c_length self) p * sin angle + get2 cl 2 i)
            (enumerate v)) l Z).
Proof.
  induction l as [|[i p] l IH]; intros X Y Z; [reflexivity|].
  cbn [fold_left]. unfold scala_outer at 2.
  rewrite scala_inner_fold, IH. reflexivity.
Qed.

(** The surface mesh: cell [j, i] of the three arrays. *)
Lemma scala_cells (self : model) (resolution : R) (g : geometry) (i j : nat) :
  resolution <> 0 ->
  generate_geometry self resolution = Returned g ->
  (i < List.length (phi g))%nat ->
  (j < List.length (samples 0 (2 * PI) resolution))%nat ->
  let p := nth i (phi g) 0 in
  let angle := nth j (samples 0 (2 * PI) resolution) 0 in
  let local_r :=
    _radius_modiolus_poly self p + tube_radius (c_length self) p * (cos angle - 1) in
  get2 (scala_x g) j i = local_r * cos p
  /\ get2 (scala_y g) j i = local_r * sin p
  /\ get2 (scala_z g) j i = tube_radius (c_length self) p * sin angle + _height_poly self p.
Proof.
  intros Hres Hg Hi Hj.
  destruct (generate_geometry_returns self resolution Hres) as (sx & sy & sz & Hg' & Hs).
  rewrite Hg' in Hg. inversion Hg; subst g; clear Hg. cbn [phi scala_x scala_y scala_z] in *.
  rewrite scala_outer_fold in Hs. inversion Hs; subst sx sy sz; clear Hs.
  rewrite !fill_all by assumption.
  unfold get2. cbn [nth].
  rewrite !(nth_map_in _ _ _ 0) by exact Hi.
  repeat split; reflexivity.
Qed.

Lemma map_each_In {T U : Type} (f : T -> outcome U) (xs : list T) :
  forall ys, map_each f xs = Returned ys ->
    forall y, In y ys -> exists x, In x xs /\ f x = Returned y.
Proof.
  induction xs as [|x xs IH]; intros ys Hm y Hy; cbn in Hm.
  - inversion Hm; subst. destruct Hy.
  - destruct (f x) as [y0|e] eqn:Hfx; cbn in Hm; [|discriminate Hm].
    destruct (map_each f xs) as [ys0|e] eqn:Hrest; cbn in Hm; [|discriminate Hm].
    inversion Hm; subst ys. destruct Hy as [<-|Hy].
    + exists x. split; [left; reflexivity | exact Hfx].
    + destruct (IH ys0 eq_refl y Hy) as (x' & Hin & Hfx').
      exists x'. split; [right; exact Hin | exact Hfx'].
Qed.

(** The half-curve cross sections: one section. *)
Lemma cross_section_radius (self : model) (g : geometry) (idx : Z) (s : section) :
  cross_section self g idx = Returned s ->
  index (phi g) idx = Returned (section_phi s)
  /\ centerline_column g idx = Returned (center s)
  /\ radius s = tube_radius (c_length self) (section_phi s)
  /\ exists angles,
       linspace 0 (2 * PI) 17 = Returned angles
       /\ points s
          = map (fun angle =>
                   let r := tube_radius (c_length self) (section_phi s) in
                   (fst (fst (center s)) + r * (cos angle - 1) * cos (section_phi s),
                    snd (fst (center s)) + r * (cos angle - 1) * sin (section_phi s),
                    snd (center s) + r * sin angle))
                angles.
Proof.
  unfold cross_section. intros H.
  destruct (index (phi g) idx) as [p|e] eqn:Hp; cbn [bind] in H; [|discriminate H].
  destruct (centerline_column g idx) as [[[c0 c1] c2]|e] eqn:Hc; cbn [bind] in H;
    [|discriminate H].
  change (16 + 1)%Z with 17%Z in H.
  destruct (linspace 0 (2 * PI) 17) as [angles|e] eqn:Ha; cbn [bind] in H; [|discriminate H].
  inversion H; subst s; clear H. cbn [section_phi radius points center fst snd].
  split; [reflexivity|]. split; [reflexivity|]. split; [reflexivity|].
  exists angles. split; reflexivity.
Qed.

(** Both perpendiculars of a frame come out of [normalized]. *)
Lemma frame_some_units (tangent perp1 perp2 : vec3) :
  frame tangent = Some (perp1, perp2) -> norm perp1 = 1 /\ norm perp2 = 1.
Proof.
  unfold frame. destruct tangent as [[x y] z].
  destruct (normalized _) as [p1|] eqn:H1; [|discriminate].
  destruct (normalized (cross _ p1)) as [p2|] eqn:H2; [|discriminate].
  intros H. inversion H; subst.
  split; eapply normalized_some_unit; eassumption.
Qed.

(** The frame-based cross sections of the export: one ring.  The ring is
    drawn around the centre line point of the chosen sample, along two unit
    vectors, with the radius of the tube at the angle of that sample. *)
Lemma export_cross_section_radius (self : model) (g : geometry)
  (centerline_mode : string) (position : R) (pts : list vec3) :
  export_cross_section self g centerline_mode position = Returned (Some pts) ->
  let idx := to_int (position * IZR (Z.of_nat (List.length (phi g)) - 1)) in
  exists p c0 c1 c2 perp1 perp2 angles,
    index (phi g) idx = Returned p
    /\ centerline_at g 0 idx = Returned c0
    /\ centerline_at g 1 idx = Returned c1
    /\ centerline_at g 2 idx = Returned c2
    /\ linspace 0 (2 * PI) 61 = Returned angles
    /\ norm perp1 = 1 /\ norm perp2 = 1
    /\ pts = ring centerline_mode (c0, c1, c2) (tube_radius (c_length self) p)
                  perp1 perp2 angles.
Proof.
  intros H idx. unfold export_cross_section in H. fold idx in H.
  destruct (index (phi g) idx) as [p|e] eqn:Hp; cbn [bind] in H; [|discriminate H].
  destruct (centerline_at g 0 idx) as [c0|e] eqn:Hc0; cbn [bind] in H; [|discriminate H].
  destruct (centerline_at g 1 idx) as [c1|e] eqn:Hc1; cbn [bind] in H; [|discriminate H].
  destruct (centerline_at g 2 idx) as [c2|e] eqn:Hc2; cbn [bind] in H; [|discriminate H].
  exists p, c0, c1, c2.
  change (60 + 1)%Z with 61%Z in H.
  destruct (idx <? Z.of_nat (List.length (phi g)) - 1)%Z;
    repeat match type of H with
           | bind ?c _ = Returned _ =>
               let v := fresh "v" in
               destruct c as [v|?] eqn:?; cbn [bind] in H; [|discriminate H]
           end;
    inversion H as [Hring]; clear H;
    (destruct (normalized _) as [tangent|]; [|discriminate Hring]);
    (destruct (frame tangent) as [[perp1 perp2]|] eqn:Hframe; [|discriminate Hring]);
    inversion Hring; subst pts;
    destruct (frame_some_units _ _ _ Hframe) as [Hn1 Hn2];
    exists perp1, perp2; eexists;
    (repeat split; first [assumption | reflexivity]).
Qed.

End TubeRadius.

(** ** Arc length *)

Section ArcLength.

Local Open Scope R_scope.

(** A polynomial, given by its coefficients from the highest degree down, is
    not constant: a coefficient other than the last one is not zero. *)
Definition nonconstant (p : list Q) : Prop :=
  exists c, In c (removelast p) /\ ~ (c == 0)%Q.

(** The height adds to the speed of the curve at every angle. *)
Lemma integrand_height_larger (self : model) (z : R) :
  integrand self false z <= integrand self true z.
Proof.
  unfold integrand. cbv zeta.
  set (x_deriv := _ - _). set (y_deriv := _ + _).
  set (dh_dz := polyval (polyder (get_height_coeffs self)) z).
  apply sqrt_le_1_alt.
  pose proof (pow2_ge_0 dh_dz). rlra.
Qed.

Lemma calculate_length_monotone (self : model) :
  0 <= c_length self ->
  calculate_length self false <= calculate_length self true.
Proof.
  intros Hc. unfold calculate_length, quad.
  apply RiemannInt_P19; [exact Hc|].
  intros x _. apply integrand_height_larger.
Qed.

Lemma derivable_pt_lim_ext (f g : R -> R) (x l : R) :
  (forall y, f y = g y) -> derivable_pt_lim f x l -> derivable_pt_lim g x l.
Proof.
  intros Hfg Hf eps Heps. destruct (Hf eps Heps) as [delta Hd].
  exists delta. intros h Hh Hlt. rewrite <- !Hfg. apply Hd; assumption.
Qed.

Lemma horner_from (p : list Q) (x : R) :
  forall acc,
    fold_left (fun y pv => y * x + Q2R pv) p acc
    = acc * x ^ List.length p + polyval p x.
Proof.
  unfold polyval. induction p as [|c p IH]; intros acc; cbn [fold_left List.length].
  - cbn. ring.
  - rewrite (IH (acc * x + Q2R c)), (IH (0 * x + Q2R c)). cbn [pow]. ring.
Qed.

Lemma polyval_cons (c : Q) (p : list Q) (x : R) :
  polyval (c :: p) x = Q2R c * x ^ List.length p + polyval p x.
Proof.
  unfold polyval at 1. cbn [fold_left]. rewrite horner_from. ring.
Qed.

Lemma polyder_length (p : list Q) : List.length (polyder p) = pred (List.length p).
Proof.
  induction p as [|c [|d p] IH]; try reflexivity.
  change (polyder (c :: d :: p))
    with ((inject_Z (Z.of_nat (List.length (d :: p))) * c)%Q :: polyder (d :: p)).
  cbn [List.length] in *. rewrite IH. reflexivity.
Qed.

Lemma polyval_derivative (p : list Q) (x : R) :
  derivable_pt_lim (polyval p) x (polyval (polyder p) x).
Proof.
  induction p as [|c p IH].
  - apply (derivable_pt_lim_ext (fct_cte 0)); [reflexivity|].
    change (polyval (polyder []) x) with 0. apply derivable_pt_lim_const.
  - apply (derivable_pt_lim_ext
             (fun y => Q2R c * y ^ List.length p + polyval p y)%R).
    { intros y. symmetry. apply polyval_cons. }
    replace (polyval (polyder (c :: p)) x)
      with (Q2R c * (INR (List.length p) * x ^ pred (List.length p))
            + polyval (polyder p) x).
    + apply (derivable_pt_lim_plus (fun y => Q2R c * y ^ List.length p) (polyval p));
        [|exact IH].
      apply (derivable_pt_lim_scal (fun y => y ^ List.length p)).
      apply derivable_pt_lim_pow.
    + destruct p as [|d p].
      * cbn. ring.
      * change (polyder (c :: d :: p))
          with ((inject_Z (Z.of_nat (List.length (d :: p))) * c)%Q :: polyder (d :: p)).
        rewrite polyval_cons, polyder_length, Q2R_mult.
        replace (Q2R (inject_Z (Z.of_nat (List.length (d :: p)))))
          with (INR (List.length (d :: p))).
        -- ring.
        -- rewrite INR_IZR_INZ. unfold Q2R, inject_Z. cbn [Qnum Qden]. field.
Qed.
(** The integrand is the speed of the centre line: the square root of the
    sum of the squares of the derivatives of its coordinates (of the two
    horizontal ones without the height). *)
Lemma integrand_is_speed (self : model) (z : R) :
  exists dx dy dh : R,
    derivable_pt_lim (fun p => _radius_modiolus_poly self p * cos p) z dx
    /\ derivable_pt_lim (fun p => _radius_modiolus_poly self p * sin p) z dy
    /\ derivable_pt_lim (_height_poly self) z dh
    /\ integrand self true z = sqrt (dx ^ 2 + dy ^ 2 + dh ^ 2)
    /\ integrand self false z = sqrt (dx ^ 2 + dy ^ 2).
Proof.
  pose proof (polyval_derivative (get_radius_coeffs self) z) as Hr.
  pose proof (polyval_derivative (get_height_coeffs self) z) as Hh.
  exists (polyval (polyder (get_radius_coeffs self)) z * cos z
          - _radius_modiolus_poly self z * sin z),
         (polyval (polyder (get_radius_coeffs self)) z * sin z
          + _radius_modiolus_poly self z * cos z),
         (polyval (polyder (get_height_coeffs self)) z).
  split; [|split; [|split; [|split]]].
  - replace (polyval (polyder (get_radius_coeffs self)) z * cos z
             - _radius_modiolus_poly self z * sin z)
      with (polyval (polyder (get_radius_coeffs self)) z * cos z
            + _radius_modiolus_poly self z * - sin z) by ring.
    apply (derivable_pt_lim_mult (_radius_modiolus_poly self) cos);
      [exact Hr | apply derivable_pt_lim_cos].
  - apply (derivable_pt_lim_mult (_radius_modiolus_poly self) sin);
      [exact Hr | apply derivable_pt_lim_sin].
  - exact Hh.
  - reflexivity.
  - reflexivity.
Qed.

Lemma mean_height_nonconstant : nonconstant (get_height_coeffs mean_model).
Proof.
  unfold mean_model, get_height_coeffs. cbn [derived A].
  exists (dot [1; 5.97; 3.95; 3.26; 2.85]%Q (column coefs_height 4)). split.
  - cbn [seq map rev app removelast]. left. reflexivity.
  - intros H. vm_compute in H. discriminate H.
Defined.

End ArcLength.

(** C6: for a valid model whose height polynomial is not constant, the arc
    length with the height term is at least the arc length without it.  Both
    are integrals over [0, c_length]: of [sqrt(x'^2 + y'^2 + h'^2)] and of
    [sqrt(x'^2 + y'^2)], where [x'], [y'], [h'] are the derivatives of the
    coordinates of the centre line.  ([quad] stands for the integral it
    approximates.) *)
Theorem arc_length_with_height_longer (parameters : list Q) :
  in_bounds parameters ->
  let self := derived parameters in
  nonconstant (get_height_coeffs self) ->
  (forall with_height (pr : Riemann_integrable (integrand self with_height) 0 (c_length self)),
      calculate_length self with_height = RiemannInt pr)
  /\ (forall z : R,
        exists dx dy dh : R,
          derivable_pt_lim (fun p => _radius_modiolus_poly self p * cos p)%R z dx
          /\ derivable_pt_lim (fun p => _radius_modiolus_poly self p * sin p)%R z dy
          /\ derivable_pt_lim (_height_poly self) z dh
          /\ integrand self true z = sqrt (dx ^ 2 + dy ^ 2 + dh ^ 2)
          /\ integrand self false z = sqrt (dx ^ 2 + dy ^ 2))
  /\ (calculate_length self false <= calculate_length self true)%R.
Proof.
  intros Hb self _. split; [|split].
  - intros with_height pr. unfold calculate_length, quad. apply RiemannInt_P5.
  - apply integrand_is_speed.
  - apply calculate_length_monotone.
    left. apply c_length_positive, Hb.
Qed.

(** C6 on the mean model. *)
Lemma arc_length_with_height_longer_witness :
  (calculate_length mean_model false <= calculate_length mean_model true)%R.
Proof.
  apply (arc_length_with_height_longer [5.97; 3.95; 3.26; 2.85]%Q
           mean_in_bounds mean_height_nonconstant).
Defined.

(** ** The text of the parameter file *)

Section Text.

Local Open Scope N_scope.

Fixpoint string_forall (P : ascii -> bool) (s : string) : bool :=
  match s with
  | "" => true
  | String a r => P a && string_forall P r
  end.

Lemma string_forall_app (P : ascii -> bool) (s r : string) :
  string_forall P (s ++ r) = (string_forall P s && string_forall P r)%bool.
Proof.
  induction s as [|a s IH]; cbn; [reflexivity|]. rewrite IH. apply andb_assoc.
Qed.

Lemma string_forall_impl (P Q : ascii -> bool) (s : string) :
  (forall a, P a = true -> Q a = true) ->
  string_forall P s = true -> string_forall Q s = true.
Proof.
  intros HPQ. induction s as [|a s IH]; cbn; [reflexivity|].
  rewrite !andb_true_iff. intros [Ha Hs]. auto.
Qed.

Lemma append_assoc (s r t : string) : ((s ++ r) ++ t = s ++ (r ++ t))%string.
Proof. induction s as [|a s IH]; cbn; [reflexivity | rewrite IH; reflexivity]. Qed.

(** *** Digits *)

Definition is_digit (a : ascii) : bool :=
  match parse_digit a with Some _ => true | None => false end.

Lemma parse_digit_char (d : N) : d < 10 -> parse_digit (digit_char d) = Some d.
Proof.
  intros Hd.
  assert (H : d = 0 \/ d = 1 \/ d = 2 \/ d = 3 \/ d = 4 \/ d = 5 \/ d = 6 \/ d = 7
              \/ d = 8 \/ d = 9) by lia.
  repeat (destruct H as [->|H]; [reflexivity|]). subst d. reflexivity.
Qed.

Lemma is_digit_char (d : N) : d < 10 -> is_digit (digit_char d) = true.
Proof. intros Hd. unfold is_digit. rewrite parse_digit_char by exact Hd. reflexivity. Qed.

Lemma mod10_lt (n : N) : n mod 10 < 10.
Proof. apply N.mod_lt. discriminate. Qed.

Lemma fixed_digits_are_digits (width : nat) :
  forall n, string_forall is_digit (fixed_digits width n) = true.
Proof.
  induction width as [|w IH]; intros n; cbn [fixed_digits]; [reflexivity|].
  rewrite string_forall_app, IH. cbn. rewrite is_digit_char by apply mod10_lt. reflexivity.
Qed.

Lemma int_digits_are_digits (fuel : nat) :
  forall n, string_forall is_digit (int_digits fuel n) = true.
Proof.
  induction fuel as [|f IH]; intros n; cbn [int_digits]; [reflexivity|].
  destruct (N.ltb_spec n 10) as [Hlt|Hge].
  - cbn. rewrite is_digit_char by exact Hlt. reflexivity.
  - rewrite string_forall_app, IH. cbn. rewrite is_digit_char by apply mod10_lt. reflexivity.
Qed.

(** Reading back a fixed number of digits, before or behind the point. *)
Lemma mod_pow10_succ (n : N) (k : nat) :
  n mod 10 ^ N.of_nat (S k) = (n / 10) mod 10 ^ N.of_nat k * 10 + n mod 10.
Proof.
  rewrite Nat2N.inj_succ, N.pow_succ_r by lia.
  rewrite N.Div0.mod_mul_r. lia.
Qed.

Lemma parse_int_fixed (k : nat) :
  forall n r acc seen,
    parse_int (fixed_digits k n ++ r) acc seen
    = parse_int r (acc * 10 ^ N.of_nat k + n mod 10 ^ N.of_nat k)
                (seen || negb (Nat.eqb k 0)).
Proof.
  induction k as [|k IH]; intros n r acc seen.
  - cbn [fixed_digits append Nat.eqb negb N.of_nat]. rewrite orb_false_r.
    rewrite N.pow_0_r, N.mod_1_r, N.mul_1_r, N.add_0_r. reflexivity.
  - cbn [fixed_digits]. rewrite append_assoc, IH. cbn [append parse_int].
    rewrite parse_digit_char by apply mod10_lt.
    rewrite mod_pow10_succ.
    rewrite Nat2N.inj_succ, N.pow_succ_r by lia.
    f_equal; [ring | cbn; rewrite orb_true_r; reflexivity].
Qed.

Lemma parse_frac_fixed (k : nat) :
  forall n r acc k0 seen,
    parse_frac (fixed_digits k n ++ r) acc k0 seen
    = parse_frac r (acc * 10 ^ N.of_nat k + n mod 10 ^ N.of_nat k) (k0 + k)
                 (seen || negb (Nat.eqb k 0)).
Proof.
  induction k as [|k IH]; intros n r acc k0 seen.
  - cbn [fixed_digits append Nat.eqb negb N.of_nat]. rewrite orb_false_r, Nat.add_0_r.
    rewrite N.pow_0_r, N.mod_1_r, N.mul_1_r, N.add_0_r. reflexivity.
  - cbn [fixed_digits]. rewrite append_assoc, IH. cbn [append parse_frac].
    rewrite parse_digit_char by apply mod10_lt.
    rewrite mod_pow10_succ.
    rewrite Nat2N.inj_succ, N.pow_succ_r by lia.
    f_equal; [ring | lia | cbn; rewrite orb_true_r; reflexivity].
Qed.

(** Reading back the integer part. *)
Lemma parse_int_digits (fuel : nat) :
  forall n r seen,
    (0 < fuel)%nat -> n < 10 ^ N.of_nat fuel ->
    parse_int (int_digits fuel n ++ r) 0 seen = parse_int r n true.
Proof.
  induction fuel as [|f IH]; intros n r seen Hf Hn; [lia|].
  cbn [int_digits]. destruct (N.ltb_spec n 10) as [Hlt|Hge].
  - cbn [append parse_int]. rewrite parse_digit_char by exact Hlt. reflexivity.
  - rewrite Nat2N.inj_succ, N.pow_succ_r in Hn by lia.
    assert (Hf' : (0 < f)%nat).
    { destruct f; [|lia]. cbn in Hn. lia. }
    assert (Hdiv : n / 10 < 10 ^ N.of_nat f).
    { apply N.Div0.div_lt_upper_bound. exact Hn. }
    rewrite append_assoc, (IH _ _ _ Hf' Hdiv). cbn [append parse_int].
    rewrite parse_digit_char by apply mod10_lt.
    f_equal. pose proof (N.div_mod n 10). lia.
Qed.

Lemma digits_bound (n : N) : n < 10 ^ N.of_nat (S (N.to_nat (N.log2 n))).
Proof.
  rewrite Nat2N.inj_succ, N2Nat.id.
  apply N.lt_le_trans with (2 ^ N.succ (N.log2 n)).
  - destruct n as [|p]; [cbn; lia|]. apply N.log2_spec. lia.
  - apply N.pow_le_mono_l. lia.
Qed.

Lemma parse_int_of_digits (n : N) (r : string) (seen : bool) :
  parse_int (digits n ++ r) 0 seen = parse_int r n true.
Proof. unfold digits. apply parse_int_digits; [lia | apply digits_bound]. Qed.

End Text.

Section ParameterFile.

Local Open Scope string_scope.

Lemma append_empty_r (s : string) : s ++ "" = s.
Proof. induction s as [|a s IH]; cbn; [reflexivity | rewrite IH; reflexivity]. Qed.

(** The characters that ['%.6f'] writes. *)
Definition float_char (a : ascii) : bool :=
  (is_digit a || Ascii.eqb a "-" || Ascii.eqb a ".")%bool.

Lemma float_char_plain (a : ascii) :
  float_char a = true ->
  is_space a = false /\ Ascii.eqb a LF = false
  /\ Ascii.eqb a "#" = false /\ Ascii.eqb a "," = false.
Proof.
  destruct a as [[] [] [] [] [] [] [] []]; intros H; try discriminate H;
    repeat split; reflexivity.
Qed.

Lemma digit_not_sign (a : ascii) :
  is_digit a = true ->
  is_space a = false /\ Ascii.eqb a "-" = false /\ Ascii.eqb a "+" = false.
Proof.
  destruct a as [[] [] [] [] [] [] [] []]; intros H; try discriminate H;
    repeat split; reflexivity.
Qed.

(** The digits and the point of ['%.6f' % q], without the sign. *)
Definition f6_body (q : Q) : string :=
  digits (millionths q / 1000000) ++ "." ++ fixed_digits 6 (millionths q mod 1000000).

Lemma format_f6_sign (q : Q) :
  format_f6 q = (if Qle_bool 0 q then "" else "-") ++ f6_body q.
Proof. reflexivity. Qed.

Lemma digits_first (n : N) :
  exists a r, digits n = String a r /\ is_digit a = true.
Proof.
  pose proof (int_digits_are_digits (S (N.to_nat (N.log2 n))) n) as Hall.
  unfold digits. cbn [int_digits] in *.
  destruct (n <? 10)%N.
  - eexists. eexists. split; [reflexivity|]. cbn in Hall.
    apply andb_true_iff in Hall. apply Hall.
  - destruct (int_digits (N.to_nat (N.log2 n)) (n / 10)) as [|a r]; cbn in *.
    + eexists. eexists. split; [reflexivity|]. apply andb_true_iff in Hall. apply Hall.
    + eexists. eexists. split; [reflexivity|]. apply andb_true_iff in Hall. apply Hall.
Qed.

Lemma f6_body_first (q : Q) :
  exists a r, f6_body q = String a r /\ is_digit a = true.
Proof.
  unfold f6_body. destruct (digits_first (millionths q / 1000000)) as (a & r & -> & Ha).
  eexists. eexists. split; [reflexivity | exact Ha].
Qed.

Lemma f6_body_chars (q : Q) : string_forall float_char (f6_body q) = true.
Proof.
  assert (Hd : forall a, is_digit a = true -> float_char a = true).
  { intros a Ha. unfold float_char. rewrite Ha. reflexivity. }
  unfold f6_body, digits. rewrite !string_forall_app.
  rewrite (string_forall_impl _ _ _ Hd (int_digits_are_digits _ _)).
  rewrite (string_forall_impl _ _ _ Hd (fixed_digits_are_digits _ _)).
  reflexivity.
Qed.

Lemma format_f6_chars (q : Q) : string_forall float_char (format_f6 q) = true.
Proof.
  rewrite format_f6_sign, string_forall_app, f6_body_chars.
  destruct (Qle_bool 0 q); reflexivity.
Qed.

Lemma format_f6_first (q : Q) :
  exists a r, format_f6 q = String a r /\ float_char a = true.
Proof.
  rewrite format_f6_sign.
  destruct (f6_body_first q) as (a & r & Hb & Ha).
  destruct (Qle_bool 0 q).
  - exists a, r. split; [exact Hb|]. unfold float_char. rewrite Ha. reflexivity.
  - exists "-"%char, (f6_body q). split; reflexivity.
Qed.

Lemma parse_f6_body (q : Q) :
  parse_int (f6_body q) 0 false = Some (millionths q, 6%nat).
Proof.
  unfold f6_body. rewrite parse_int_of_digits.
  change (parse_int ("." ++ fixed_digits 6 (millionths q mod 1000000))
                    (millionths q / 1000000) true)
    with (parse_frac (fixed_digits 6 (millionths q mod 1000000))
                     (millionths q / 1000000) 0 true).
  rewrite <- (append_empty_r (fixed_digits 6 _)), parse_frac_fixed.
  cbn [parse_frac orb Nat.add].
  change (10 ^ N.of_nat 6)%N with 1000000%N.
  rewrite N.Div0.mod_mod.
  f_equal. f_equal.
  pose proof (N.div_mod (millionths q) 1000000). lia.
Qed.

(** What is written is read back as the value rounded to six decimals. *)
Lemma parse_format_f6 (q : Q) : parse_float (format_f6 q) = Returned (round6 q).
Proof.
  unfold parse_float, round6. rewrite format_f6_sign.
  destruct (f6_body_first q) as (a & r & Hb & Ha).
  destruct (digit_not_sign a Ha) as (Hsp & Hminus & Hplus).
  destruct (Qle_bool 0 q).
  - cbn [append]. rewrite Hb. cbn [skip_spaces]. rewrite Hsp, Hminus, Hplus.
    rewrite <- Hb, parse_f6_body. reflexivity.
  - change ("-" ++ f6_body q) with (String "-" (f6_body q)).
    cbn [skip_spaces]. change (is_space "-") with false. cbv iota.
    change (Ascii.eqb "-" "-") with true. cbv iota.
    rewrite parse_f6_body. reflexivity.
Qed.

(** Lines and fields. *)
Lemma split_on_none (c : ascii) (s : string) :
  string_forall (fun a => negb (Ascii.eqb a c)) s = true -> split_on c s = [s].
Proof.
  induction s as [|a s IH]; cbn; [reflexivity|].
  rewrite andb_true_iff, negb_true_iff. intros [Ha Hs].
  rewrite Ha, (IH Hs). reflexivity.
Qed.

Lemma split_on_app (c : ascii) (s r : string) :
  string_forall (fun a => negb (Ascii.eqb a c)) s = true ->
  split_on c (s ++ String c r) = s :: split_on c r.
Proof.
  induction s as [|a s IH]; cbn.
  - intros _. rewrite Ascii.eqb_refl. reflexivity.
  - rewrite andb_true_iff, negb_true_iff. intros [Ha Hs].
    rewrite Ha, (IH Hs). reflexivity.
Qed.

Lemma before_none (c : ascii) (s : string) :
  string_forall (fun a => negb (Ascii.eqb a c)) s = true -> before c s = s.
Proof.
  induction s as [|a s IH]; cbn; [reflexivity|].
  rewrite andb_true_iff, negb_true_iff. intros [Ha Hs].
  rewrite Ha, (IH Hs). reflexivity.
Qed.

Lemma format_f6_has_no (c : ascii) (q : Q) :
  float_char c = false ->
  string_forall (fun a => negb (Ascii.eqb a c)) (format_f6 q) = true.
Proof.
  intros Hc. apply (string_forall_impl float_char); [|apply format_f6_chars].
  intros a Ha. apply negb_true_iff.
  destruct (Ascii.eqb_spec a c) as [->|]; [congruence | reflexivity].
Qed.

Lemma format_f6_not_blank (q : Q) : all_spaces (format_f6 q) = false.
Proof.
  destruct (format_f6_first q) as (a & r & -> & Ha).
  destruct (float_char_plain a Ha) as (Hsp & _). cbn. rewrite Hsp. reflexivity.
Qed.

Lemma parse_line_f6 (q : Q) : parse_line "," (format_f6 q) = Returned [round6 q].
Proof.
  unfold parse_line. rewrite split_on_none by (apply format_f6_has_no; reflexivity).
  cbn [map_each]. rewrite parse_format_f6. reflexivity.
Qed.

(** The file that [save_parameters] writes for four values is read back as
    the vector of the four rounded values. *)
Lemma loadtxt_savetxt (A1 B1 A2 B2 : Q) :
  loadtxt (savetxt [A1; B1; A2; B2] "A1, B1, A2, B2") ","
  = Returned (Vector [round6 A1; round6 B1; round6 A2; round6 B2]).
Proof.
  unfold loadtxt.
  replace (savetxt [A1; B1; A2; B2] "A1, B1, A2, B2")
    with ("# A1, B1, A2, B2"
          ++ String LF (format_f6 A1
          ++ String LF (format_f6 B1
          ++ String LF (format_f6 A2
          ++ String LF (format_f6 B2
          ++ String LF "")))))
    by reflexivity.
  rewrite split_on_app by reflexivity.
  rewrite !split_on_app by (apply format_f6_has_no; reflexivity).
  cbn [split_on map].
  change (before "#" "# A1, B1, A2, B2") with "".
  change (before "#" "") with "".
  rewrite !before_none by (apply format_f6_has_no; reflexivity).
  cbn [filter all_spaces negb]. rewrite !format_f6_not_blank. cbn [negb map_each].
  rewrite !parse_line_f6. cbn [bind].
  generalize (round6 A1) (round6 B1) (round6 A2) (round6 B2). intros r1 r2 r3 r4.
  reflexivity.
Qed.

End ParameterFile.

(** ** Rounding to six decimals *)

Section Rounding.

Local Open Scope Q_scope.

Lemma round_half_even_close (x : Q) :
  Qabs (inject_Z (round_half_even x) - x) <= 1 # 2.
Proof.
  unfold round_half_even.
  pose proof (Qfloor_le x) as Hlo. pose proof (Qlt_floor x) as Hhi.
  rewrite inject_Z_plus in Hhi. change (inject_Z 1) with 1 in Hhi.
  apply Qabs_Qle_condition.
  destruct (Qcompare (x - inject_Z (Qfloor x)) (1 # 2)) eqn:Hcmp.
  - apply Qeq_alt in Hcmp.
    destruct (Z.even (Qfloor x)); [|rewrite inject_Z_plus; change (inject_Z 1) with 1];
      split; qlra.
  - apply Qlt_alt in Hcmp. split; qlra.
  - apply Qgt_alt in Hcmp. rewrite inject_Z_plus. change (inject_Z 1) with 1.
    split; qlra.
Qed.

Lemma round_half_even_nonneg (x : Q) : 0 <= x -> (0 <= round_half_even x)%Z.
Proof.
  intros Hx. unfold round_half_even.
  assert (Hf : (0 <= Qfloor x)%Z).
  { change 0%Z with (Qfloor 0). apply Qfloor_resp_le, Hx. }
  destruct (Qcompare _ _); [destruct (Z.even _)| |]; lia.
Qed.

Lemma round_half_even_integer (x : Q) (z : Z) :
  x == inject_Z z -> round_half_even x = z.
Proof.
  intros Hx. unfold round_half_even.
  assert (Hf : Qfloor x = z) by (rewrite Hx; apply Qfloor_Z).
  rewrite Hf.
  assert (Hcmp : Qcompare (x - inject_Z z) (1 # 2) = Lt).
  { apply (proj1 (Qlt_alt _ _)). rewrite Hx. qlra. }
  rewrite Hcmp. reflexivity.
Qed.

Lemma Qabs_by_sign (q : Q) :
  (Qle_bool 0 q = true -> Qabs q = q /\ 0 <= q)
  /\ (Qle_bool 0 q = false -> Qabs q = - q /\ q < 0).
Proof.
  destruct q as [n d]. split; intros H.
  - apply Qle_bool_iff in H. split; [|exact H].
    unfold Qle in H. cbn in H. cbn. f_equal. Lia.lia.
  - assert (Hlt : (n # d) < 0).
    { apply Qnot_le_lt. intros Hle. apply Qle_bool_iff in Hle. congruence. }
    split; [|exact Hlt].
    unfold Qlt in Hlt. cbn in Hlt. unfold Qabs, Qopp. cbn [Qnum Qden]. f_equal. Lia.lia.
Qed.

Lemma millionths_spec (q : Q) :
  Z.of_N (millionths q) = round_half_even (Qabs q * 1000000).
Proof.
  unfold millionths. apply Z2N.id, round_half_even_nonneg.
  apply Qmult_le_0_compat; [apply Qabs_nonneg | discriminate].
Qed.

Lemma Qmake_millionth (z : Z) : z # 1000000 == inject_Z z * (1 # 1000000).
Proof. unfold Qeq. cbn. Lia.lia. Qed.

(** The value read back differs from the value written by at most half a
    unit of the sixth decimal. *)
Lemma round6_close (q : Q) : Qabs (round6 q - q) <= 1 # 2000000.
Proof.
  unfold round6. rewrite millionths_spec.
  pose proof (round_half_even_close (Qabs q * 1000000)) as Hc.
  apply Qabs_Qle_condition in Hc. apply Qabs_Qle_condition.
  destruct (Qabs_by_sign q) as [Hpos Hneg].
  destruct (Qle_bool 0 q).
  - destruct (Hpos eq_refl) as [Habs _]. rewrite Habs in *.
    rewrite Qmake_millionth. split; qlra.
  - destruct (Hneg eq_refl) as [Habs _]. rewrite Habs in *.
    rewrite Qmake_millionth, inject_Z_opp. split; qlra.
Qed.

(** A value with at most six decimals is read back as it is. *)
Lemma round6_exact (q : Q) (z : Z) : q == z # 1000000 -> round6 q == q.
Proof.
  intros Hq. unfold round6. rewrite millionths_spec.
  destruct (Qabs_by_sign q) as [Hpos Hneg].
  assert (Hz : q * 1000000 == inject_Z z).
  { rewrite Hq, Qmake_millionth. ring. }
  destruct (Qle_bool 0 q).
  - destruct (Hpos eq_refl) as [Habs _]. rewrite Habs.
    rewrite (round_half_even_integer _ z Hz). symmetry. exact Hq.
  - destruct (Hneg eq_refl) as [Habs _]. rewrite Habs.
    rewrite (round_half_even_integer (- q * 1000000) (- z)).
    + rewrite Z.opp_involutive. symmetry. exact Hq.
    + rewrite inject_Z_opp, <- Hz. ring.
Qed.

End Rounding.

(** C8: saving four valid parameters and loading the file again yields the
    four values in the same order, each rounded to the six decimals that
    ['%.6f'] writes: the value read back is within half a millionth of the
    value saved, and equal to it when it has at most six decimals. *)
Theorem save_load_roundtrip (parameters : list Q) (filename : string) (fs : files) :
  in_bounds parameters ->
  load_parameters filename (save_parameters parameters filename fs)
  = Returned (Vector (map round6 parameters))
  /\ (forall x, In x parameters -> Qabs (round6 x - x) <= 1 # 2000000)%Q
  /\ (forall x (z : Z), In x parameters -> x == z # 1000000 -> round6 x == x)%Q.
Proof.
  intros (A1 & B1 & A2 & B2 & -> & _).
  split; [|split].
  - unfold load_parameters, save_parameters, write_file.
    rewrite String.eqb_refl. apply loadtxt_savetxt.
  - intros x _. apply round6_close.
  - intros x z _. apply round6_exact.
Qed.

(** C8 on the mean parameters. *)
Lemma save_load_roundtrip_witness :
  load_parameters "parameters.txt"
    (save_parameters [5.97; 3.95; 3.26; 2.85]%Q "parameters.txt" (fun _ => None))
  = Returned (Vector (map round6 [5.97; 3.95; 3.26; 2.85]%Q)).
Proof.
  apply (save_load_roundtrip [5.97; 3.95; 3.26; 2.85]%Q "parameters.txt" (fun _ => None)
           mean_in_bounds).
Defined.

(* ===================================================================== *)
(** * Further properties of the parameter provider and the model *)
(* ===================================================================== *)

(** A property of the value of a call that returns; nothing is asked of a
    call that raises. *)
Definition when_returned {T : Type} (c : outcome T) (P : T -> Prop) : Prop :=
  match c with
  | Returned v => P v
  | Raised _ => True
  end.

Section Generation.

Local Open Scope Q_scope.

Lemma generate_parameters_random (h : rng) :
  generate_parameters "random" h
  = (Returned [5.97 + 0.36 * deviates h (drawn h + 5);
               3.95 + 0.35 * deviates h (drawn h + 7);
               3.26 + 0.28 * deviates h (drawn h + 9);
               2.85 + 0.33 * deviates h (drawn h + 11)],
     {| deviates := deviates h; drawn := drawn h + 12 |}).
Proof.
  unfold generate_parameters.
  change (String.eqb "random" "mean") with false.
  change (String.eqb "random" "random") with true. cbv iota.
  cbn [seq fold_left List.length]. unfold normal, multivariate_normal_consume.
  cbn [set_item nth deviates drawn].
  replace (S (drawn h + 4)) with (drawn h + 5)%nat by lia.
  replace (S (S (drawn h + 5))) with (drawn h + 7)%nat by lia.
  replace (S (S (drawn h + 7))) with (drawn h + 9)%nat by lia.
  replace (S (S (drawn h + 9))) with (drawn h + 11)%nat by lia.
  replace (S (drawn h + 11)) with (drawn h + 12)%nat by lia.
  reflexivity.
Qed.

Lemma generate_parameters_other (mode : string) (g : rng) :
  mode <> "mean" -> mode <> "random" ->
  generate_parameters mode g
  = (Raised (ValueError (Text "Mode must be 'mean' or 'random'")), g).
Proof.
  intros Hm Hr. unfold generate_parameters.
  destruct (String.eqb_spec mode "mean"); [contradiction|].
  destruct (String.eqb_spec mode "random"); [contradiction|]. reflexivity.
Qed.

End Generation.

(** X1: [generate_parameters].  The "mean" mode returns the fixed vector and
    draws nothing.  The "random" mode draws twelve normal deviates and returns
    [means[i] + stds[i] * z] for the deviates number 6, 8, 10 and 12 of them:
    the four deviates of the correlated sample and the four [uniform_value]
    deviates are drawn and dropped, so the result does not depend on them (nor
    on the correlation matrix).  Any other mode raises the mode error and draws
    nothing. *)
Theorem generate_parameters_draws (g : rng) :
  generate_parameters "mean" g = (Returned [5.97; 3.95; 3.26; 2.85]%Q, g)
  /\ generate_parameters "random" g
     = (Returned [5.97 + 0.36 * deviates g (drawn g + 5);
                  3.95 + 0.35 * deviates g (drawn g + 7);
                  3.26 + 0.28 * deviates g (drawn g + 9);
                  2.85 + 0.33 * deviates g (drawn g + 11)]%Q,
        {| deviates := deviates g; drawn := drawn g + 12 |})
  /\ (forall g2 : rng,
        drawn g2 = drawn g ->
        (forall k, In k [5; 7; 9; 11]%nat ->
                   deviates g2 (drawn g + k) = deviates g (drawn g + k)) ->
        fst (generate_parameters "random" g2) = fst (generate_parameters "random" g))
  /\ (forall mode,
        mode <> "mean" -> mode <> "random" ->
        generate_parameters mode g
        = (Raised (ValueError (Text "Mode must be 'mean' or 'random'")), g)).
Proof.
  split; [reflexivity|]. split; [apply generate_parameters_random|]. split.
  - intros g2 Hd Hz.
    rewrite (generate_parameters_random g2), (generate_parameters_random g), Hd.
    cbn [fst]. rewrite !Hz by (cbn; tauto). reflexivity.
  - intros mode. apply generate_parameters_other.
Qed.

(** X2: [__init__] with [parameters=None].  A model is returned exactly for
    the modes "mean" and "random"; any other mode raises the mode error before
    anything is drawn.  The model of the "mean" mode has its parameters inside
    the anatomical ranges and leaves the generator as it was. *)
Theorem init_generated (mode : string) (g : rng) :
  (returns (fst (init None mode g)) <-> mode = "mean" \/ mode = "random")
  /\ (mode <> "mean" -> mode <> "random" ->
      init None mode g
      = (Raised (ValueError (Text "Mode must be 'mean' or 'random'")), g))
  /\ init None "mean" g = (Returned mean_model, g)
  /\ in_bounds (A mean_model)
  /\ (0 < c_length mean_model)%R.
Proof.
  split; [|split; [|split; [|split]]].
  - split.
    + intros [m Hm].
      destruct (string_dec mode "mean") as [|Hn1]; [left; assumption|].
      destruct (string_dec mode "random") as [|Hn2]; [right; assumption|].
      unfold init in Hm. rewrite (generate_parameters_other mode g Hn1 Hn2) in Hm.
      discriminate Hm.
    + intros [->| ->]; unfold init.
      * eexists. reflexivity.
      * rewrite generate_parameters_random. eexists. reflexivity.
  - intros Hn1 Hn2. unfold init. rewrite (generate_parameters_other mode g Hn1 Hn2).
    reflexivity.
  - reflexivity.
  - exact mean_in_bounds.
  - apply c_length_positive, mean_in_bounds.
Qed.

Section TurnCount.

Local Open Scope R_scope.

Lemma n_turns_estimate (parameters : list Q) :
  n_turns (derived parameters) = Q2R (_turn_number_estimation parameters).
Proof.
  cbn [derived n_turns]. field. apply PI_neq0.
Qed.

Lemma turn_estimate_range (parameters : list Q) :
  in_bounds parameters ->
  (2.158 < _turn_number_estimation parameters < 3.172)%Q.
Proof.
  intros (A1 & B1 & A2 & B2 & -> & H1 & H2 & H3 & H4).
  unfold _turn_number_estimation, coefs_turns. cbn [dot]. split.
  - apply Qlt_shift_div_l; [reflexivity|]. qlra.
  - apply Qlt_shift_div_r; [reflexivity|]. qlra.
Qed.

End TurnCount.

(** X3: the number of turns of a model is the turns estimate itself (the
    factor [2 * PI] of the total angle cancels), and for parameters inside the
    anatomical ranges it lies strictly between 2.158 and 3.172; the total angle
    then lies between 12.9 and 25.4 radians. *)
Theorem n_turns_range (parameters : list Q) :
  in_bounds parameters ->
  n_turns (derived parameters) = Q2R (_turn_number_estimation parameters)
  /\ (2.158 < n_turns (derived parameters) < 3.172)%R
  /\ (12.9 < c_length (derived parameters) < 25.4)%R.
Proof.
  intros Hb.
  destruct (turn_estimate_range parameters Hb) as [Hlo Hhi].
  apply Qlt_Rlt in Hlo, Hhi.
  split; [apply n_turns_estimate|]. split.
  - rewrite n_turns_estimate. split; assumption.
  - cbn [derived c_length].
    pose proof PI2_3_2 as Hpi_lo. pose proof PI_4 as Hpi_hi.
    set (t := Q2R (_turn_number_estimation parameters)) in *.
    change (Q2R 2.158) with 2.158%R in Hlo. change (Q2R 3.172) with 3.172%R in Hhi.
    split; Lra.nra.
Qed.

(** X3 on the mean parameters. *)
Lemma n_turns_range_witness :
  (2.158 < n_turns mean_model < 3.172)%R.
Proof.
  apply (n_turns_range [5.97; 3.95; 3.26; 2.85]%Q mean_in_bounds).
Defined.

(** X4: the radius and the height of the centre line are the polynomials
    whose coefficient of degree [k] is the dot product of (1, A1, B1, A2, B2)
    with column [k] of the modiolus or height table (the reversal puts the
    highest degree first for Horner's scheme); at the angle 0 they are the
    constant terms. *)
Theorem centerline_polynomials (self : model) (phi : R) :
  let r k := Q2R (dot (1%Q :: A self) (column coefs_modiolus k)) in
  let h k := Q2R (dot (1%Q :: A self) (column coefs_height k)) in
  (_radius_modiolus_poly self phi
   = r 0%nat + r 1%nat * phi + r 2%nat * phi ^ 2 + r 3%nat * phi ^ 3)%R
  /\ (_height_poly self phi
      = h 0%nat + h 1%nat * phi + h 2%nat * phi ^ 2 + h 3%nat * phi ^ 3
        + h 4%nat * phi ^ 4)%R
  /\ _radius_modiolus_poly self 0 = r 0%nat
  /\ _height_poly self 0 = h 0%nat
  /\ _radius_modiolus_poly self phi = polyval (get_radius_coeffs self) phi
  /\ _height_poly self phi = polyval (get_height_coeffs self) phi.
Proof.
  intros r h.
  assert (Hr : forall x, (_radius_modiolus_poly self x
                          = r 0%nat + r 1%nat * x + r 2%nat * x ^ 2 + r 3%nat * x ^ 3)%R).
  { intros x. unfold _radius_modiolus_poly, polyval.
    cbn [seq map List.rev app fold_left]. fold (r 0%nat) (r 1%nat) (r 2%nat) (r 3%nat).
    ring. }
  assert (Hh : forall x, (_height_poly self x
                          = h 0%nat + h 1%nat * x + h 2%nat * x ^ 2 + h 3%nat * x ^ 3
                            + h 4%nat * x ^ 4)%R).
  { intros x. unfold _height_poly, polyval.
    cbn [seq map List.rev app fold_left].
    fold (h 0%nat) (h 1%nat) (h 2%nat) (h 3%nat) (h 4%nat).
    ring. }
  split; [apply Hr|]. split; [apply Hh|].
  split; [rewrite Hr; ring|]. split; [rewrite Hh; ring|].
  split; reflexivity.
Qed.

Section NonNegativeLength.

Local Open Scope R_scope.

Lemma integrand_nonneg (self : model) (with_height : bool) (z : R) :
  0 <= integrand self with_height z.
Proof. unfold integrand. destruct with_height; apply sqrt_pos. Qed.

Lemma calculate_length_nonneg (self : model) (with_height : bool) :
  0 <= c_length self -> 0 <= calculate_length self with_height.
Proof.
  intros Hc. unfold calculate_length, quad.
  apply Rle_trans with (RiemannInt (RiemannInt_P14 0 (c_length self) 0)).
  - rewrite RiemannInt_P15. rlra.
  - apply RiemannInt_P19; [exact Hc|].
    intros x _. apply integrand_nonneg.
Qed.

Lemma calculate_length_reversed (self : model) (with_height : bool) :
  c_length self <= 0 -> calculate_length self with_height <= 0.
Proof.
  intros Hc. unfold calculate_length, quad.
  rewrite (RiemannInt_P8 _ (continuous_integrable _ (c_length self) 0
                              (integrand_continuous self with_height))).
  assert (H : 0 <= RiemannInt (continuous_integrable (integrand self with_height)
                                 (c_length self) 0 (integrand_continuous self with_height))).
  { apply Rle_trans with (RiemannInt (RiemannInt_P14 (c_length self) 0 0)).
    - rewrite RiemannInt_P15. rlra.
    - apply RiemannInt_P19; [exact Hc|].
      intros x _. apply integrand_nonneg. }
  rlra.
Qed.

End NonNegativeLength.

(** X5: [calculate_length] integrates a speed, which is never negative: for
    a model whose total angle is not negative (every valid model) both lengths
    are non-negative, the one with the height being the larger; for a total
    angle below zero [quad] integrates backwards and the lengths are not
    positive. *)
Theorem calculate_length_sign (self : model) (with_height : bool) :
  ((0 <= c_length self)%R ->
   (0 <= calculate_length self with_height)%R
   /\ (0 <= calculate_length self false <= calculate_length self true)%R)
  /\ ((c_length self <= 0)%R -> (calculate_length self with_height <= 0)%R).
Proof.
  split.
  - intros Hc. split; [apply calculate_length_nonneg, Hc|].
    split; [apply calculate_length_nonneg, Hc | apply calculate_length_monotone, Hc].
  - apply calculate_length_reversed.
Qed.

(* ===================================================================== *)
(** * Further properties of the geometry *)
(* ===================================================================== *)

Section GeometryArrays.

Local Open Scope R_scope.

Lemma shape_zeros (rows cols : nat) : shape (zeros rows cols) = repeat cols rows.
Proof.
  unfold shape, zeros. induction rows as [|rows IH]; cbn; [reflexivity|].
  rewrite repeat_length, IH. reflexivity.
Qed.

Lemma fill_columns_shape (cell : nat -> R -> nat -> R -> R) (phi v : list R) :
  shape (fold_left (fill_columns cell (enumerate v)) (enumerate phi)
                   (zeros (List.length v) (List.length phi)))
  = repeat (List.length phi) (List.length v).
Proof.
  destruct (fill_columns_spec cell (enumerate v) (enumerate phi) (enumerate_NoDup v)
              (zeros (List.length v) (List.length phi)) (enumerate_NoDup phi))
    as (Hshape & _).
  rewrite Hshape. apply shape_zeros.
Qed.

(** The surface arrays of a returned geometry have one row per
    circumferential sample and one column per [phi] sample. *)
Lemma scala_shapes (self : model) (resolution : R) (g : geometry) :
  resolution <> 0 ->
  generate_geometry self resolution = Returned g ->
  shape (scala_x g)
  = repeat (List.length (phi g)) (List.length (samples 0 (2 * PI) resolution))
  /\ shape (scala_y g)
     = repeat (List.length (phi g)) (List.length (samples 0 (2 * PI) resolution))
  /\ shape (scala_z g)
     = repeat (List.length (phi g)) (List.length (samples 0 (2 * PI) resolution)).
Proof.
  intros Hres Hg.
  destruct (generate_geometry_returns self resolution Hres) as (sx & sy & sz & Hg' & Hs).
  rewrite Hg' in Hg. inversion Hg; subst g; clear Hg. cbn [phi scala_x scala_y scala_z].
  rewrite scala_outer_fold in Hs. inversion Hs; subst sx sy sz; clear Hs.
  rewrite !fill_columns_shape. repeat split; reflexivity.
Qed.

(** A positive step leaves at least one sample in an interval that is not
    empty, and the first sample is the start. *)
Lemma samples_first (start stop step : R) :
  0 < step -> start < stop ->
  (1 <= List.length (samples start stop step))%nat
  /\ nth 0 (samples start stop step) 0 = start.
Proof.
  intros Hs Hlt.
  assert (Hlen : (1 <= List.length (samples start stop step))%nat).
  { rewrite samples_length.
    destruct (Zceil_bound ((stop - start) / step)) as [_ Hhi].
    assert (Hq : 0 < (stop - start) / step) by (apply Rdiv_lt_0_compat; rlra).
    assert (Hz : (0 < Zceil ((stop - start) / step))%Z) by (apply lt_IZR; rlra).
    lia. }
  split; [exact Hlen|].
  rewrite samples_nth by lia. cbn [INR]. ring.
Qed.

End GeometryArrays.



(** X7: the surface is a tube through the centre line.  For a positive
    resolution there is at least one circumferential sample, the first one is
    the angle 0, and row 0 of the surface arrays is the centre line itself.  In
    every column [i] the surface points lie in the vertical plane of the angle
    [phi_i], on the circle of radius [tube_radius] whose centre is at the
    radius [r(phi_i) - tube_radius] and the height [h(phi_i)]. *)
Theorem surface_through_centerline (self : model) (resolution : R) :
  (0 < resolution)%R ->
  exists g : geometry,
    generate_geometry self resolution = Returned g
    /\ (1 <= List.length (scala_x g))%nat
    /\ (forall i, (i < List.length (phi g))%nat ->
          get2 (scala_x g) 0 i = get2 (centerline g) 0 i
          /\ get2 (scala_y g) 0 i = get2 (centerline g) 1 i
          /\ get2 (scala_z g) 0 i = get2 (centerline g) 2 i)
    /\ (forall i j,
          (i < List.length (phi g))%nat -> (j < List.length (scala_x g))%nat ->
          let p := nth i (phi g) 0%R in
          let rt := tube_radius (c_length self) p in
          exists local_r : R,
            get2 (scala_x g) j i = (local_r * cos p)%R
            /\ get2 (scala_y g) j i = (local_r * sin p)%R
            /\ ((local_r - (_radius_modiolus_poly self p - rt)) ^ 2
                + (get2 (scala_z g) j i - _height_poly self p) ^ 2 = rt ^ 2)%R).
Proof.
  intros Hres.
  assert (Hne : resolution <> 0%R) by rlra.
  destruct (generate_geometry_returns self resolution Hne) as (sx & sy & sz & Hg & Hs).
  eexists. split; [exact Hg|].
  destruct (scala_shapes self resolution _ Hne Hg) as (Hx & _).
  assert (Hrows : List.length sx = List.length (samples 0 (2 * PI) resolution)).
  { apply (f_equal (@List.length nat)) in Hx. unfold shape in Hx.
    cbn [scala_x] in Hx. rewrite length_map, repeat_length in Hx. exact Hx. }
  destruct (samples_first 0 (2 * PI) resolution Hres) as [Hv1 Hv0].
  { pose proof PI_RGT_0. rlra. }
  cbn [scala_x scala_y scala_z phi centerline].
  split; [rewrite Hrows; exact Hv1|]. split.
  - intros i Hi.
    destruct (scala_cells self resolution _ i 0%nat Hne Hg Hi) as (Hcx & Hcy & Hcz);
      [lia|].
    cbn [scala_x scala_y scala_z phi] in Hcx, Hcy, Hcz. cbv zeta in Hcx, Hcy, Hcz.
    rewrite Hv0 in Hcx, Hcy, Hcz. rewrite cos_0 in Hcx, Hcy. rewrite sin_0 in Hcz.
    unfold get2 at 2 4 6. cbn [nth].
    rewrite !(nth_map_in _ _ _ 0%R) by exact Hi.
    rewrite Hcx, Hcy, Hcz. repeat split; ring.
  - intros i j Hi Hj. rewrite Hrows in Hj.
    destruct (scala_cells self resolution _ i j Hne Hg Hi Hj) as (Hcx & Hcy & Hcz).
    cbn [scala_x scala_y scala_z phi] in Hcx, Hcy, Hcz. cbv zeta in Hcx, Hcy, Hcz.
    set (p := nth i (samples 0 (c_length self) resolution) 0%R) in *.
    set (rt := tube_radius (c_length self) p) in *.
    set (angle := nth j (samples 0 (2 * PI) resolution) 0%R) in *.
    exists (_radius_modiolus_poly self p + rt * (cos angle - 1))%R.
    split; [exact Hcx|]. split; [exact Hcy|].
    rewrite Hcz. pose proof (sin2_cos2 angle) as Hsc. unfold Rsqr in Hsc.
    replace ((_radius_modiolus_poly self p + rt * (cos angle - 1)
              - (_radius_modiolus_poly self p - rt)) ^ 2
             + (rt * sin angle + _height_poly self p - _height_poly self p) ^ 2)%R
      with (rt ^ 2 * (sin angle * sin angle + cos angle * cos angle))%R by ring.
    rewrite Hsc. ring.
Qed.

(** X7 on the mean model with the default resolution. *)
Lemma surface_through_centerline_witness :
  exists g : geometry,
    generate_geometry mean_model 0.1 = Returned g
    /\ (1 <= List.length (scala_x g))%nat.
Proof.
  assert (Hres : (0 < 0.1)%R) by rlra.
  destruct (surface_through_centerline mean_model 0.1 Hres) as (g & Hg & Hlen & _).
  exists g. split; assumption.
Defined.

(** X8: the point query agrees with the geometry.  In a valid model, for
    a positive resolution, the geometry has a first sample, and
    [get_point_at_position] at the turn fraction 0 returns the first centre line
    point, with the [phi] and [turns] of that sample.  The turn fraction
    [phi_i / c_length] of every sample lies in [0, 1], the end 1 included, and
    at every turn fraction [t] whose product [t * c_length] is the sample
    [phi_i] the query returns the centre line point number [i], with
    [phi = phi_i] and [turns = turns[i]].  At every turn fraction [t] the number
    of turns returned is [t * n_turns]. *)
Theorem point_query_on_samples (parameters : list Q) (resolution : R) :
  in_bounds parameters -> (0 < resolution)%R ->
  let self := derived parameters in
  (forall t, when_returned (get_point_at_position self t)
               (fun info => point_turns info = (t * n_turns self)%R))
  /\ exists g : geometry,
       generate_geometry self resolution = Returned g
       /\ (1 <= List.length (phi g))%nat
       /\ (exists info : point_info,
             get_point_at_position self 0 = Returned info
             /\ point_phi info = nth 0 (phi g) 0%R
             /\ position info
                = (get2 (centerline g) 0 0, get2 (centerline g) 1 0,
                   get2 (centerline g) 2 0)
             /\ point_turns info = nth 0 (turns g) 0%R)
       /\ forall i, (i < List.length (phi g))%nat ->
            (0 <= nth i (phi g) 0 / c_length self <= 1)%R
            /\ forall t, (t * c_length self)%R = nth i (phi g) 0%R ->
                 exists info : point_info,
                   get_point_at_position self t = Returned info
                   /\ point_phi info = nth i (phi g) 0%R
                   /\ position info
                      = (get2 (centerline g) 0 i, get2 (centerline g) 1 i,
                         get2 (centerline g) 2 i)
                   /\ point_turns info = nth i (turns g) 0%R.
Proof.
  intros Hb Hres self.
  assert (Hc : (0 < c_length self)%R) by (apply c_length_positive, Hb).
  split.
  { intros t. cbn [get_point_at_position when_returned point_turns].
    unfold self. cbn [derived n_turns c_length]. field. apply PI_neq0. }
  assert (Hne : resolution <> 0%R) by rlra.
  destruct (generate_geometry_returns self resolution Hne) as (sx & sy & sz & Hg & _).
  eexists. split; [exact Hg|]. cbn [phi centerline turns].
  destruct (samples_first 0 (c_length self) resolution Hres Hc) as [Hlen Hfirst].
  assert (Hat : forall i t,
             (i < List.length (samples 0 (c_length self) resolution))%nat ->
             (t * c_length self)%R = nth i (samples 0 (c_length self) resolution) 0%R ->
             exists info : point_info,
               get_point_at_position self t = Returned info
               /\ point_phi info = nth i (samples 0 (c_length self) resolution) 0%R
               /\ position info
                  = (get2 [map (fun p => (_radius_modiolus_poly self p * cos p)%R)
                               (samples 0 (c_length self) resolution);
                           map (fun p => (_radius_modiolus_poly self p * sin p)%R)
                               (samples 0 (c_length self) resolution);
                           map (_height_poly self)
                               (samples 0 (c_length self) resolution)] 0 i,
                     get2 [map (fun p => (_radius_modiolus_poly self p * cos p)%R)
                               (samples 0 (c_length self) resolution);
                           map (fun p => (_radius_modiolus_poly self p * sin p)%R)
                               (samples 0 (c_length self) resolution);
                           map (_height_poly self)
                               (samples 0 (c_length self) resolution)] 1 i,
                     get2 [map (fun p => (_radius_modiolus_poly self p * cos p)%R)
                               (samples 0 (c_length self) resolution);
                           map (fun p => (_radius_modiolus_poly self p * sin p)%R)
                               (samples 0 (c_length self) resolution);
                           map (_height_poly self)
                               (samples 0 (c_length self) resolution)] 2 i)
               /\ point_turns info
                  = nth i (map (fun p => (p / (2 * PI))%R)
                               (samples 0 (c_length self) resolution)) 0%R).
  { intros i t Hi Ht. unfold get_point_at_position. rewrite Ht.
    eexists. split; [reflexivity|].
    cbn [point_phi position point_turns]. unfold get2. cbn [nth].
    rewrite !(nth_map_in _ _ _ 0%R) by exact Hi.
    repeat split; reflexivity. }
  split; [exact Hlen|].
  split.
  { apply (Hat 0%nat 0%R); [lia|]. rewrite Hfirst. ring. }
  intros i Hi.
  pose proof (samples_below 0 (c_length self) resolution i Hres Hi) as Hlt.
  rewrite <- (samples_nth 0 (c_length self) resolution i Hi) in Hlt.
  assert (Hge : (0 <= nth i (samples 0 (c_length self) resolution) 0)%R).
  { rewrite (samples_nth _ _ _ _ Hi), Rplus_0_l.
    apply Rmult_le_pos; [apply pos_INR | rlra]. }
  split; [|intros t Ht; apply (Hat i t Hi Ht)].
  set (p := nth i (samples 0 (c_length self) resolution) 0%R) in *.
  assert (Htc : (p / c_length self * c_length self = p)%R) by (field; rlra).
  split.
  - apply Rmult_le_pos; [exact Hge | left; apply Rinv_0_lt_compat, Hc].
  - apply (Rmult_le_reg_r (c_length self)); [exact Hc|]. rewrite Htc. rlra.
Qed.

(** X8 on the mean model with the default resolution: the point at the turn
    fraction 0. *)
Lemma point_query_on_samples_witness :
  exists (g : geometry) (info : point_info),
    generate_geometry mean_model 0.1 = Returned g
    /\ get_point_at_position mean_model 0 = Returned info
    /\ position info
       = (get2 (centerline g) 0 0, get2 (centerline g) 1 0, get2 (centerline g) 2 0).
Proof.
  assert (Hres : (0 < 0.1)%R) by rlra.
  destruct (point_query_on_samples [5.97; 3.95; 3.26; 2.85]%Q 0.1 mean_in_bounds Hres)
    as (_ & g & Hg & _ & (info & Hinfo & _ & Hpos & _) & _).
  exists g, info. split; [exact Hg|]. split; [exact Hinfo | exact Hpos].
Defined.

(* ===================================================================== *)
(** * Further properties of the cross sections *)
(* ===================================================================== *)

Section Sequences.

Local Open Scope R_scope.

Lemma map_each_length {T U : Type} (f : T -> outcome U) (xs : list T) :
  forall ys, map_each f xs = Returned ys -> List.length ys = List.length xs.
Proof.
  induction xs as [|x xs IH]; intros ys Hm; cbn in Hm.
  - inversion Hm. reflexivity.
  - destruct (f x) as [y|e]; cbn in Hm; [|discriminate Hm].
    destruct (map_each f xs) as [ys0|e]; cbn in Hm; [|discriminate Hm].
    inversion Hm. cbn. rewrite (IH ys0 eq_refl). reflexivity.
Qed.

Lemma map_each_returns {T U : Type} (f : T -> outcome U) (P : U -> Prop) (xs : list T) :
  (forall x, In x xs -> exists y, f x = Returned y /\ P y) ->
  exists ys, map_each f xs = Returned ys
             /\ List.length ys = List.length xs /\ Forall P ys.
Proof.
  induction xs as [|x xs IH]; intros Hall.
  - exists []. repeat split. constructor.
  - destruct (Hall x (or_introl eq_refl)) as (y & Hy & HP).
    destruct IH as (ys & Hys & Hlen & HF).
    { intros x' Hx'. apply Hall. right. exact Hx'. }
    exists (y :: ys). cbn. rewrite Hy, Hys. cbn. rewrite Hlen.
    repeat split. constructor; assumption.
Qed.

Lemma map_each_first_raises {T U : Type} (f : T -> outcome U) (x : T) (xs : list T) (e : exn) :
  f x = Raised e -> map_each f (x :: xs) = Raised e.
Proof. intros H. cbn. rewrite H. reflexivity. Qed.

Lemma index_axis_in_range {T : Type} (axis : nat) (a : list T) (idx : Z) (d : T) :
  (0 <= idx < Z.of_nat (List.length a))%Z ->
  index_axis axis a idx = Returned (nth (Z.to_nat idx) a d).
Proof.
  intros [Hlo Hhi]. unfold index_axis.
  destruct (Z.ltb_spec idx 0) as [|_]; [lia|].
  destruct (Z.leb_spec 0 idx) as [_|]; [|lia].
  destruct (Z.ltb_spec idx (Z.of_nat (List.length a))) as [_|]; [|lia].
  cbn [andb]. rewrite (nth_error_nth' a d) by lia. reflexivity.
Qed.

Lemma index_in_range {T : Type} (a : list T) (idx : Z) (d : T) :
  (0 <= idx < Z.of_nat (List.length a))%Z ->
  index a idx = Returned (nth (Z.to_nat idx) a d).
Proof. apply index_axis_in_range. Qed.

(** An array without entries: the error names the index that was asked
    for. *)
Lemma index_axis_empty {T : Type} (axis : nat) (idx : Z) :
  @index_axis T axis [] idx = Raised (IndexError (OutOfBounds idx axis 0)).
Proof.
  unfold index_axis. cbn [List.length Z.of_nat].
  destruct (Z.ltb_spec idx 0); [rewrite Z.add_0_r|];
    (destruct (Z.leb_spec 0 idx); cbn [andb]; [|reflexivity]);
    (destruct (Z.ltb_spec idx 0); [|reflexivity]); lia.
Qed.

Lemma index_empty {T : Type} (idx : Z) :
  @index T [] idx = Raised (IndexError (OutOfBounds idx 0 0)).
Proof. apply index_axis_empty. Qed.

(** The values of [linspace]. *)
Definition spaced (start stop : R) (num : Z) : list R :=
  map (fun i => start + INR i * (if (0 <? num - 1)%Z
                                 then (stop - start) / IZR (num - 1)
                                 else stop - start))
      (seq 0 (Z.to_nat num)).

Lemma linspace_returns (start stop : R) (num : Z) :
  (0 <= num)%Z -> linspace start stop num = Returned (spaced start stop num).
Proof.
  intros Hn. unfold linspace, spaced.
  destruct (Z.ltb_spec num 0); [lia | reflexivity].
Qed.

Lemma linspace_negative (start stop : R) (num : Z) :
  (num < 0)%Z ->
  linspace start stop num = Raised (ValueError (NegativeSamples num)).
Proof.
  intros Hn. unfold linspace. destruct (Z.ltb_spec num 0); [reflexivity | lia].
Qed.

Lemma spaced_length (start stop : R) (num : Z) :
  List.length (spaced start stop num) = Z.to_nat num.
Proof. unfold spaced. rewrite length_map, length_seq. reflexivity. Qed.

(** Every value of [linspace(0, stop, num)] lies between 0 and [stop]. *)
Lemma spaced_between (stop : R) (num : Z) (x : R) :
  0 <= stop -> In x (spaced 0 stop num) -> 0 <= x <= stop.
Proof.
  intros Hstop Hx. unfold spaced in Hx. apply in_map_iff in Hx.
  destruct Hx as (i & <- & Hi). apply in_seq in Hi. rewrite Rminus_0_r, Rplus_0_l.
  destruct (Z.ltb_spec 0 (num - 1)) as [Hdiv|Hdiv].
  - assert (Hd : 0 < IZR (num - 1)) by (apply IZR_lt; exact Hdiv).
    assert (Hi' : INR i <= IZR (num - 1)).
    { rewrite INR_IZR_INZ. apply IZR_le. lia. }
    pose proof (pos_INR i) as Hi0.
    assert (Hq : 0 <= stop / IZR (num - 1)).
    { unfold Rdiv. apply Rmult_le_pos; [exact Hstop|].
      left. apply Rinv_0_lt_compat, Hd. }
    split; [apply Rmult_le_pos; assumption|].
    replace stop with (IZR (num - 1) * (stop / IZR (num - 1))) at 2 by (field; rlra).
    apply Rmult_le_compat_r; assumption.
  - assert (i = 0%nat) by lia. subst i. cbn [INR]. rlra.
Qed.

Lemma spaced_first (start stop : R) (num : Z) :
  (1 <= num)%Z -> exists rest, spaced start stop num
                               = (start + INR 0 * (if (0 <? num - 1)%Z
                                                   then (stop - start) / IZR (num - 1)
                                                   else stop - start)) :: rest.
Proof.
  intros Hn. unfold spaced.
  destruct (Z.to_nat num) as [|k] eqn:Hk; [lia|].
  cbn [seq map]. eexists. reflexivity.
Qed.

End Sequences.

Section HalfCurveRings.

Local Open Scope R_scope.

Lemma spaced_nth (start stop : R) (num : Z) (i : nat) :
  (i < Z.to_nat num)%nat ->
  nth i (spaced start stop num) 0
  = start + INR i * (if (0 <? num - 1)%Z
                     then (stop - start) / IZR (num - 1) else stop - start).
Proof.
  intros Hi. unfold spaced.
  rewrite (nth_map_in _ _ _ 0%nat) by (rewrite length_seq; exact Hi).
  rewrite seq_nth by exact Hi. reflexivity.
Qed.

(** The ring of one half-curve section. *)
Definition closed_ring_through_center (self : model) (s : section) : Prop :=
  List.length (points s) = 17%nat
  /\ nth 0 (points s) (0, 0, 0) = center s
  /\ nth 16 (points s) (0, 0, 0) = center s
  /\ angle s = section_phi s * 180 / PI
  /\ radius s = tube_radius (c_length self) (section_phi s)
  /\ forall pt, In pt (points s) ->
       exists local_r : R,
         fst (fst pt) = fst (fst (center s)) + local_r * cos (section_phi s)
         /\ snd (fst pt) = snd (fst (center s)) + local_r * sin (section_phi s)
         /\ (local_r + radius s) ^ 2 + (snd pt - snd (center s)) ^ 2 = radius s ^ 2.

Lemma cross_section_ring (self : model) (g : geometry) (idx : Z) (s : section) :
  cross_section self g idx = Returned s -> closed_ring_through_center self s.
Proof.
  intros Hs.
  assert (Hangle : angle s = section_phi s * 180 / PI).
  { unfold cross_section in Hs.
    destruct (index (phi g) idx) as [p|e]; cbn [bind] in Hs; [|discriminate Hs].
    destruct (centerline_column g idx) as [c|e]; cbn [bind] in Hs; [|discriminate Hs].
    destruct (linspace _ _ _) as [a|e]; cbn [bind] in Hs; [|discriminate Hs].
    inversion Hs. reflexivity. }
  destruct (cross_section_radius self g idx s Hs) as (_ & _ & Hr & angles & Ha & Hpts).
  rewrite linspace_returns in Ha by lia. inversion Ha; subst angles; clear Ha.
  unfold closed_ring_through_center.
  destruct (center s) as [[c0 c1] c2] eqn:Hc. cbn [fst snd] in *.
  cbv zeta in Hpts. rewrite <- Hr in Hpts. rewrite Hpts.
  split; [rewrite length_map, spaced_length; reflexivity|].
  assert (Hnth : forall i, (i < 17)%nat ->
            nth i (map (fun angle0 =>
                          (c0 + radius s * (cos angle0 - 1) * cos (section_phi s),
                           c1 + radius s * (cos angle0 - 1) * sin (section_phi s),
                           c2 + radius s * sin angle0)) (spaced 0 (2 * PI) 17)) (0, 0, 0)
            = (c0 + radius s * (cos (INR i * (2 * PI / 16)) - 1) * cos (section_phi s),
               c1 + radius s * (cos (INR i * (2 * PI / 16)) - 1) * sin (section_phi s),
               c2 + radius s * sin (INR i * (2 * PI / 16)))).
  { intros i Hi.
    rewrite (nth_map_in _ _ _ 0) by (rewrite spaced_length; exact Hi).
    rewrite spaced_nth by exact Hi.
    change (0 <? 17 - 1)%Z with true. cbv iota. change (17 - 1)%Z with 16%Z.
    rewrite Rminus_0_r, Rplus_0_l. reflexivity. }
  split.
  { refine (eq_trans (Hnth 0%nat ltac:(lia)) _). cbn [INR]. rewrite Rmult_0_l, cos_0, sin_0.
    f_equal; [f_equal|]; ring. }
  split.
  { refine (eq_trans (Hnth 16%nat ltac:(lia)) _).
    replace (INR 16 * (2 * PI / 16)) with (2 * PI) by (cbn [INR]; field).
    rewrite cos_2PI, sin_2PI. f_equal; [f_equal|]; ring. }
  split; [exact Hangle|]. split; [exact Hr|].
  intros pt Hpt. apply in_map_iff in Hpt. destruct Hpt as (a & <- & _).
  exists (radius s * (cos a - 1)). cbn [fst snd].
  split; [reflexivity|]. split; [reflexivity|].
  pose proof (sin2_cos2 a) as Hsc. unfold Rsqr in Hsc.
  replace ((radius s * (cos a - 1) + radius s) ^ 2
           + (c2 + radius s * sin a - c2) ^ 2)
    with (radius s ^ 2 * (sin a * sin a + cos a * cos a)) by ring.
  rewrite Hsc. ring.
Qed.

End HalfCurveRings.

(** X9: the rings of [generate_cross_sections].  Whenever the call returns,
    it returns [num_sections] sections; every section has 17 ring points, the
    first and the last of which coincide with the centre of the section (the
    ring is closed and passes through the centre line); its [angle] is its
    [phi] in degrees, its radius the tube radius at [phi]; and every ring point
    lies in the vertical plane of the angle [phi], on the circle of that radius
    that touches the centre line from the side of the axis. *)
Theorem half_curve_rings (self : model) (geometry : option geometry) (num_sections : Z) :
  when_returned (generate_cross_sections self geometry num_sections)
    (fun sections =>
       List.length sections = Z.to_nat num_sections
       /\ Forall (closed_ring_through_center self) sections).
Proof.
  unfold generate_cross_sections.
  destruct (match geometry with None => _ | Some g => _ end) as [g|e];
    cbn [bind when_returned]; [|exact I].
  destruct (Z.ltb_spec num_sections 0) as [Hneg|Hpos].
  - rewrite linspace_negative by exact Hneg. exact I.
  - rewrite linspace_returns by exact Hpos. cbn [bind].
    destruct (map_each _ _) as [sections|e] eqn:Hm; cbn [when_returned]; [|exact I].
    split.
    + rewrite (map_each_length _ _ _ Hm), length_map, spaced_length. reflexivity.
    + apply Forall_forall. intros s Hs.
      destruct (map_each_In _ _ _ Hm s Hs) as (idx & _ & Hsec).
      apply (cross_section_ring self g idx s Hsec).
Qed.

Section FirstHalf.

Local Open Scope R_scope.

Lemma c_length_range (parameters : list Q) :
  in_bounds parameters -> 12.9 < c_length (derived parameters) < 25.4.
Proof.
  intros Hb.
  destruct (turn_estimate_range parameters Hb) as [Hlo Hhi].
  apply Qlt_Rlt in Hlo, Hhi. cbn [derived c_length].
  pose proof PI2_3_2 as Hpi_lo. pose proof PI_4 as Hpi_hi.
  set (t := Q2R (_turn_number_estimation parameters)) in *.
  change (Q2R 2.158) with 2.158%R in Hlo. change (Q2R 3.172) with 3.172%R in Hhi.
  split; Lra.nra.
Qed.

(** A geometry whose centre line has a column for every [phi] sample. *)
Definition aligned (g : geometry) : Prop :=
  forall row, (row < 3)%nat ->
    List.length (nth row (centerline g) []) = List.length (phi g).

Lemma generated_aligned (self : model) (resolution : R) (g : geometry) :
  resolution <> 0 -> generate_geometry self resolution = Returned g -> aligned g.
Proof.
  intros Hres Hg.
  destruct (generate_geometry_returns self resolution Hres) as (sx & sy & sz & Hg' & _).
  rewrite Hg' in Hg. inversion Hg; subst g; clear Hg.
  intros row Hrow. cbn [centerline phi].
  destruct row as [|[|[|row]]]; [| | |lia]; cbn [nth]; apply length_map.
Qed.

Lemma centerline_at_in_range (g : geometry) (row : nat) (idx : Z) :
  aligned g -> (row < 3)%nat ->
  (0 <= idx < Z.of_nat (List.length (phi g)))%Z ->
  centerline_at g row idx = Returned (get2 (centerline g) row (Z.to_nat idx)).
Proof.
  intros Hal Hrow Hidx. unfold centerline_at, get2.
  apply index_axis_in_range. rewrite (Hal row Hrow). exact Hidx.
Qed.

(** One section at an index inside the arrays. *)
Lemma cross_section_at (self : model) (g : geometry) (idx : Z) :
  aligned g ->
  (0 <= idx < Z.of_nat (List.length (phi g)))%Z ->
  exists s : section,
    cross_section self g idx = Returned s
    /\ section_phi s = nth (Z.to_nat idx) (phi g) 0
    /\ center s = (get2 (centerline g) 0 (Z.to_nat idx),
                   get2 (centerline g) 1 (Z.to_nat idx),
                   get2 (centerline g) 2 (Z.to_nat idx)).
Proof.
  intros Hal Hidx. unfold cross_section, centerline_column.
  rewrite (index_in_range (phi g) idx 0 Hidx). cbn [bind].
  pose proof (centerline_at_in_range g 0 idx Hal ltac:(lia) Hidx) as H0.
  pose proof (centerline_at_in_range g 1 idx Hal ltac:(lia) Hidx) as H1.
  pose proof (centerline_at_in_range g 2 idx Hal ltac:(lia) Hidx) as H2.
  unfold centerline_at in H0, H1, H2. rewrite H0, H1, H2. cbn [bind].
  rewrite linspace_returns by lia. cbn [bind].
  eexists. split; [reflexivity|]. split; reflexivity.
Qed.

(** The indices chosen by [generate_cross_sections] in a geometry of at
    least two samples. *)
Lemma first_half_index (len : nat) (num_sections : Z) (x : R) :
  (2 <= len)%nat ->
  In x (spaced 0 (IZR (Z.of_nat len / 2 - 1)) num_sections) ->
  (0 <= Zfloor x < Z.of_nat len)%Z /\ (2 * (Zfloor x + 1) <= Z.of_nat len)%Z.
Proof.
  intros Hlen Hx.
  assert (Hhalf : (1 <= Z.of_nat len / 2)%Z).
  { apply Z.div_le_lower_bound; lia. }
  assert (Hdouble : (2 * (Z.of_nat len / 2) <= Z.of_nat len)%Z).
  { apply Z.mul_div_le. lia. }
  apply spaced_between in Hx; [|apply IZR_le; lia].
  destruct Hx as [Hlo Hhi]. destruct (Zfloor_bound x) as [Hfl _].
  assert (H0 : (0 <= Zfloor x)%Z) by (apply Zfloor_lub; exact Hlo).
  assert (H1 : (Zfloor x <= Z.of_nat len / 2 - 1)%Z) by (apply le_IZR; rlra).
  lia.
Qed.

End FirstHalf.

(** X10: [generate_cross_sections] samples the first half of the curve.  In
    a model with a positive resolution below the total angle (so that the
    geometry has at least two samples) and for a count that is not negative,
    the call on the generated geometry returns exactly that many sections;
    each of them sits at a sample [k] of the first half of the [phi] samples
    ([2 * (k + 1) <= len(phi)]), its centre is the centre line point number
    [k], and its angle is below half of the total angle. *)
Theorem cross_sections_first_half (self : model) (resolution : R) (num_sections : Z) :
  (0 < resolution < c_length self)%R -> (0 <= num_sections)%Z ->
  exists (g : geometry) (sections : list section),
    generate_geometry self resolution = Returned g
    /\ generate_cross_sections self (Some g) num_sections = Returned sections
    /\ List.length sections = Z.to_nat num_sections
    /\ Forall (fun s =>
                 exists k : nat,
                   (2 * (k + 1) <= List.length (phi g))%nat
                   /\ section_phi s = nth k (phi g) 0%R
                   /\ center s = (get2 (centerline g) 0 k, get2 (centerline g) 1 k,
                                  get2 (centerline g) 2 k)
                   /\ (0 <= section_phi s < c_length self / 2)%R)
              sections.
Proof.
  intros [Hres Hc] Hn.
  assert (Hne : resolution <> 0%R) by rlra.
  destruct (generate_geometry_returns self resolution Hne) as (sx & sy & sz & Hg & _).
  pose proof (generated_aligned self resolution _ Hne Hg) as Hal.
  match type of Hg with _ = Returned ?G => set (g := G) in * end.
  exists g.
  assert (Hphi : phi g = samples 0 (c_length self) resolution) by reflexivity.
  assert (Hq : (1 < c_length self / resolution)%R).
  { apply (Rmult_lt_reg_r resolution); [exact Hres|].
    unfold Rdiv. rewrite Rmult_assoc, Rinv_l, Rmult_1_r by rlra. rlra. }
  assert (Hceil : (IZR (Zceil (c_length self / resolution)) < c_length self / resolution + 1)%R).
  { destruct (Zceil_bound (c_length self / resolution)) as [Hlo _]. rlra. }
  assert (Hlen : Z.of_nat (List.length (phi g)) = Zceil (c_length self / resolution)).
  { rewrite Hphi, samples_length, Rminus_0_r. apply Z2Nat.id.
    destruct (Zceil_bound (c_length self / resolution)) as [_ Hhi].
    apply le_IZR. rlra. }
  assert (Hlen2 : (2 <= List.length (phi g))%nat).
  { destruct (Zceil_bound (c_length self / resolution)) as [_ Hhi].
    assert (H2 : (1 < Zceil (c_length self / resolution))%Z) by (apply lt_IZR; rlra).
    lia. }
  unfold generate_cross_sections. cbn [bind].
  rewrite linspace_returns by exact Hn. cbn [bind].
  destruct (map_each_returns (cross_section self g)
              (fun s => exists k : nat,
                          (2 * (k + 1) <= List.length (phi g))%nat
                          /\ section_phi s = nth k (phi g) 0%R
                          /\ center s = (get2 (centerline g) 0 k, get2 (centerline g) 1 k,
                                         get2 (centerline g) 2 k)
                          /\ (0 <= section_phi s < c_length self / 2)%R)
              (map Zfloor (spaced 0 (IZR (Z.of_nat (List.length (phi g)) / 2 - 1))
                                  num_sections)))
    as (sections & Hm & Hlens & Hall).
  { intros idx Hidx. apply in_map_iff in Hidx. destruct Hidx as (x & <- & Hx).
    destruct (first_half_index _ _ _ Hlen2 Hx) as [Hrange Hhalf].
    destruct (cross_section_at self g (Zfloor x) Hal Hrange) as (s & Hs & Hsp & Hsc).
    exists s. split; [exact Hs|].
    exists (Z.to_nat (Zfloor x)).
    split; [lia|]. split; [exact Hsp|]. split; [exact Hsc|].
    rewrite Hsp, Hphi, samples_nth by (rewrite <- Hphi; lia).
    rewrite Rplus_0_l.
    assert (Hk : (2 * (INR (Z.to_nat (Zfloor x)) + 1)
                  <= IZR (Zceil (c_length self / resolution)))%R).
    { rewrite INR_IZR_INZ, <- Hlen, <- plus_IZR, <- mult_IZR. apply IZR_le. lia. }
    pose proof (pos_INR (Z.to_nat (Zfloor x))) as Hk0.
    split; [apply Rmult_le_pos; rlra|].
    assert (Hkr : (INR (Z.to_nat (Zfloor x)) < c_length self / resolution / 2)%R) by rlra.
    apply (Rmult_lt_compat_r resolution) in Hkr; [|exact Hres].
    replace (c_length self / resolution / 2 * resolution)%R
      with (c_length self / 2)%R in Hkr by (field; rlra).
    exact Hkr. }
  exists sections. split; [exact Hg|]. split; [exact Hm|].
  split; [|exact Hall].
  rewrite Hlens, length_map, spaced_length. reflexivity.
Qed.

(** X10 for the call of the simple export script: the mean model, the
    resolution 0.1, ten sections. *)
Lemma cross_sections_first_half_witness :
  exists (g : geometry) (sections : list section),
    generate_geometry mean_model 0.1 = Returned g
    /\ generate_cross_sections mean_model (Some g) 10 = Returned sections
    /\ List.length sections = 10%nat.
Proof.
  assert (Hres : (0 < 0.1 < c_length mean_model)%R).
  { pose proof (c_length_range _ mean_in_bounds) as [Hlo _].
    fold mean_model in Hlo. split; rlra. }
  assert (Hn : (0 <= 10)%Z) by lia.
  destruct (cross_sections_first_half mean_model 0.1 10 Hres Hn)
    as (g & sections & Hg & Hs & Hlen & _).
  exists g, sections. repeat split; assumption.
Defined.

Section CrossSectionEdges.

Local Open Scope R_scope.

Lemma spaced_between_down (stop : R) (num : Z) (x : R) :
  stop <= 0 -> In x (spaced 0 stop num) -> stop <= x <= 0.
Proof.
  intros Hstop Hx. unfold spaced in Hx. apply in_map_iff in Hx.
  destruct Hx as (i & <- & Hi). apply in_seq in Hi. rewrite Rminus_0_r, Rplus_0_l.
  pose proof (pos_INR i) as Hi0.
  destruct (Z.ltb_spec 0 (num - 1)) as [Hdiv|Hdiv].
  - assert (Hd : 0 < IZR (num - 1)) by (apply IZR_lt; exact Hdiv).
    assert (Hi' : INR i <= IZR (num - 1)).
    { rewrite INR_IZR_INZ. apply IZR_le. lia. }
    assert (Hq : 0 <= - stop / IZR (num - 1)).
    { unfold Rdiv. apply Rmult_le_pos; [rlra|].
      left. apply Rinv_0_lt_compat, Hd. }
    assert (Hup : INR i * (- stop / IZR (num - 1)) <= - stop).
    { replace (- stop) with (IZR (num - 1) * (- stop / IZR (num - 1))) at 2
        by (field; rlra).
      apply Rmult_le_compat_r; assumption. }
    assert (Hdown : 0 <= INR i * (- stop / IZR (num - 1)))
      by (apply Rmult_le_pos; assumption).
    replace (INR i * (stop / IZR (num - 1)))
      with (- (INR i * (- stop / IZR (num - 1)))) by (field; rlra).
    split; rlra.
  - assert (i = 0%nat) by lia. subst i. cbn [INR]. rlra.
Qed.

(** With one sample every index that [generate_cross_sections] computes is 0
    or -1, and both denote that sample. *)
(** Counting from 0, the first value is 0 whatever the step is. *)
Lemma spaced_from_zero (stop : R) (num : Z) :
  (1 <= num)%Z -> exists rest, spaced 0 stop num = 0 :: rest.
Proof.
  intros Hn. unfold spaced.
  destruct (Z.to_nat num) as [|k] eqn:Hk; [lia|].
  cbn [seq map]. eexists. f_equal. cbn [INR]. ring.
Qed.

Lemma index_axis_single {T : Type} (axis : nat) (a d : T) (idx : Z) :
  (-1 <= idx <= 0)%Z -> index_axis axis [a] idx = Returned a.
Proof.
  intros Hidx. assert (H : idx = (-1)%Z \/ idx = 0%Z) by lia.
  destruct H as [-> | ->]; reflexivity.
Qed.

Lemma index_single {T : Type} (a d : T) (idx : Z) :
  (-1 <= idx <= 0)%Z -> index [a] idx = Returned a.
Proof. apply (index_axis_single 0 a d). Qed.

End CrossSectionEdges.

(** X11: the edges of [generate_cross_sections].  A negative count raises
    the error of [np.linspace], whose text names the count; the count 0 returns
    no section; on a geometry without samples (the one a negative resolution
    produces) every count from 1 on raises the IndexError of [phi[0]], "index 0
    is out of bounds for axis 0 with size 0"; on a geometry of a single sample
    the indices 0 and -1 that are computed both denote that sample, and the
    call returns the asked number of sections, all at that sample. *)
Theorem cross_sections_edges (self : model) (g : geometry) (num_sections : Z) :
  ((num_sections < 0)%Z ->
   generate_cross_sections self (Some g) num_sections
   = Raised (ValueError (NegativeSamples num_sections)))
  /\ generate_cross_sections self (Some g) 0 = Returned []
  /\ ((1 <= num_sections)%Z -> phi g = [] ->
      generate_cross_sections self (Some g) num_sections
      = Raised (IndexError (OutOfBounds 0 0 0)))
  /\ ((1 <= num_sections)%Z ->
      generate_cross_sections self (Some empty_geometry) num_sections
      = Raised (IndexError (OutOfBounds 0 0 0)))
  /\ (forall p x y z,
        (0 <= num_sections)%Z ->
        phi g = [p] -> centerline g = [[x]; [y]; [z]] ->
        exists sections,
          generate_cross_sections self (Some g) num_sections = Returned sections
          /\ List.length sections = Z.to_nat num_sections
          /\ Forall (fun s => section_phi s = p /\ center s = (x, y, z)) sections).
Proof.
  assert (Hempty : forall g0, (1 <= num_sections)%Z -> phi g0 = [] ->
             generate_cross_sections self (Some g0) num_sections
             = Raised (IndexError (OutOfBounds 0 0 0))).
  { intros g0 Hn Hphi. unfold generate_cross_sections. cbn [bind].
    rewrite linspace_returns by lia. cbn [bind].
    destruct (spaced_from_zero (IZR (Z.of_nat (List.length (phi g0)) / 2 - 1))
                num_sections Hn) as (rest & ->).
    cbn [map]. apply map_each_first_raises.
    unfold cross_section. rewrite Hphi, index_empty.
    rewrite (ZfloorZ 0). reflexivity. }
  assert (Hsingle : forall p x y z idx,
             phi g = [p] -> centerline g = [[x]; [y]; [z]] -> (-1 <= idx <= 0)%Z ->
             exists s, cross_section self g idx = Returned s
                       /\ section_phi s = p /\ center s = (x, y, z)).
  { intros p x y z idx Hphi Hcl Hidx. unfold cross_section, centerline_column.
    rewrite Hphi, Hcl. cbn [nth].
    rewrite (index_single _ 0%R idx Hidx).
    rewrite !(index_axis_single 1 _ 0%R idx Hidx). cbn [bind].
    rewrite linspace_returns by lia. cbn [bind].
    eexists. split; [reflexivity|]. split; reflexivity. }
  assert (Hidx1 : forall p, phi g = [p] -> forall idx,
             In idx (map Zfloor (spaced 0 (IZR (Z.of_nat (List.length (phi g)) / 2 - 1))
                                        num_sections)) -> (-1 <= idx <= 0)%Z).
  { intros p Hphi idx Hin. rewrite Hphi in Hin.
    change (Z.of_nat (List.length [p]) / 2 - 1)%Z with (-1)%Z in Hin.
    apply in_map_iff in Hin. destruct Hin as (v & <- & Hv).
    apply spaced_between_down in Hv; [|rlra]. destruct Hv as [Hlo Hhi].
    destruct (Zfloor_bound v) as [Hfl Hfu].
    split.
    - apply Zfloor_lub. exact Hlo.
    - apply le_IZR. rlra. }
  split.
  { intros Hn. unfold generate_cross_sections. cbn [bind].
    rewrite linspace_negative by exact Hn. reflexivity. }
  split; [reflexivity|].
  split; [apply Hempty|].
  split; [intros Hn; apply Hempty; [exact Hn | reflexivity]|].
  intros p x y z Hpos Hphi Hcl.
  unfold generate_cross_sections. cbn [bind].
  rewrite linspace_returns by exact Hpos. cbn [bind].
  destruct (map_each_returns (cross_section self g)
              (fun s => section_phi s = p /\ center s = (x, y, z))
              (map Zfloor (spaced 0 (IZR (Z.of_nat (List.length (phi g)) / 2 - 1))
                                  num_sections)))
    as (sections & Hm & Hlen & Hall).
  { intros idx Hin. apply (Hsingle p x y z idx Hphi Hcl), (Hidx1 p Hphi idx Hin). }
  exists sections. split; [exact Hm|]. split; [|exact Hall].
  rewrite Hlen, length_map, spaced_length. reflexivity.
Qed.

(* ===================================================================== *)
(** * Further properties of the exported cross sections *)
(* ===================================================================== *)

Section FrameGeometry.

Local Open Scope R_scope.

Lemma normalized_some (v u : vec3) :
  normalized v = Some u -> vdot v v <> 0 /\ u = vscale (/ norm v) v.
Proof.
  unfold normalized. destruct (Req_dec_T (norm v) 0) as [|Hn]; [discriminate|].
  intros H. inversion H. split; [|reflexivity].
  intros Hv. apply Hn, norm_zero_iff, Hv.
Qed.

Lemma vscale_one (v : vec3) : vscale 1 v = v.
Proof. destruct v as [[x y] z]. cbn. f_equal; [f_equal|]; ring. Qed.

(** The vector triple product. *)
Lemma cross_cross (a b c : vec3) :
  cross a (cross b c) = vadd (vscale (vdot a c) b) (vscale (- vdot a b) c).
Proof.
  destruct a as [[a0 a1] a2], b as [[b0 b1] b2], c as [[c0 c1] c2].
  cbn. f_equal; [f_equal|]; ring.
Qed.

Lemma vadd_vscale_zero (k : R) (u v : vec3) : vadd (vscale 1 u) (vscale (- 0) v) = u.
Proof.
  destruct u as [[u0 u1] u2], v as [[v0 v1] v2]. cbn. f_equal; [f_equal|]; ring.
Qed.

(** Every frame of a unit tangent is orthonormal and right-handed, and its
    second normalisation changes nothing. *)
Lemma frame_some_orthonormal (tangent perp1 perp2 : vec3) :
  norm tangent = 1 ->
  frame tangent = Some (perp1, perp2) ->
  norm perp1 = 1 /\ norm perp2 = 1
  /\ vdot perp1 tangent = 0 /\ vdot perp2 tangent = 0 /\ vdot perp1 perp2 = 0
  /\ perp2 = cross tangent perp1
  /\ cross perp1 perp2 = tangent.
Proof.
  intros Hn Hf. apply norm_unit_iff in Hn.
  assert (Hcase : exists axis, normalized (cross axis tangent) = Some perp1
                               /\ normalized (cross tangent perp1) = Some perp2).
  { unfold frame in Hf. destruct tangent as [[x y] z].
    destruct (Rlt_dec (Rabs z) 0.9);
      (destruct (normalized (cross _ (x, y, z))) as [p1|] eqn:H1; [|discriminate Hf]);
      (destruct (normalized (cross (x, y, z) p1)) as [p2|] eqn:H2; [|discriminate Hf]);
      inversion Hf; subst p1 p2; eexists; split; eassumption. }
  destruct Hcase as (axis & H1 & H2).
  destruct (normalized_some _ _ H1) as [Hc1 Hp1].
  destruct (frame_of_unit tangent axis Hn Hc1) as (_ & _ & Hn1 & Hn2 & Ho1 & Ho2 & Ho12).
  cbv zeta in Hn1, Hn2, Ho1, Ho2, Ho12. rewrite <- Hp1 in Hn1, Hn2, Ho1, Ho2, Ho12.
  destruct (normalized_some _ _ H2) as [Hc2 Hp2].
  rewrite <- Hp2 in Hn2, Ho2, Ho12.
  assert (Hu1 : vdot perp1 perp1 = 1) by (apply norm_unit_iff, Hn1).
  assert (Hcn : norm (cross tangent perp1) = 1).
  { apply norm_unit_iff.
    rewrite vdot_cross_cross, Hn, Hu1, (vdot_comm tangent perp1), Ho1. ring. }
  assert (Heq : perp2 = cross tangent perp1).
  { rewrite Hp2, Hcn, Rinv_1. apply vscale_one. }
  repeat split; try assumption.
  rewrite Heq, cross_cross, Hu1, Ho1. apply (vadd_vscale_zero 0).
Qed.

(** A horizontal unit tangent: the frame is the horizontal normal and the
    vertical. *)
Lemma frame_horizontal (x y : R) :
  x * x + y * y = 1 -> frame (x, y, 0) = Some ((- y, x, 0), (0, 0, 1)).
Proof.
  intros Hxy. unfold frame.
  destruct (Rlt_dec (Rabs 0) 0.9) as [_|Hn]; [|exfalso; apply Hn; rewrite Rabs_R0; rlra].
  assert (Hc1 : cross (0, 0, 1) (x, y, 0) = (- y, x, 0)).
  { cbn. f_equal; [f_equal|]; ring. }
  rewrite Hc1.
  assert (Hn1 : norm (- y, x, 0) = 1).
  { apply norm_unit_iff. cbn. rewrite <- Hxy. ring. }
  assert (Hnz : forall v, norm v = 1 -> normalized v = Some v).
  { intros v Hv. unfold normalized.
    destruct (Req_dec_T (norm v) 0) as [H0|_]; [rlra|].
    rewrite Hv, Rinv_1, vscale_one. reflexivity. }
  rewrite (Hnz _ Hn1).
  assert (Hc2 : cross (x, y, 0) (- y, x, 0) = (0, 0, 1)).
  { cbn. f_equal; [f_equal|]; try ring. rewrite <- Hxy. ring. }
  rewrite Hc2, (Hnz (0, 0, 1)); [reflexivity|].
  apply norm_unit_iff. cbn. ring.
Qed.

End FrameGeometry.

(** X12: the frame of the export is right-handed.  For every unit tangent
    for which the frame is built, [perp2] is [tangent x perp1] itself (the
    second normalisation divides by one) and [perp1 x perp2] is the tangent.
    For a horizontal unit tangent [(x, y, 0)], the tangent of the 2D mode, the
    frame is [(-y, x, 0)] and the vertical [(0, 0, 1)]: the cross sections of
    the 2D mode are vertical circles. *)
Theorem frame_right_handed (tangent : vec3) :
  norm tangent = 1%R ->
  (exists perp1 perp2, frame tangent = Some (perp1, perp2))
  /\ (forall perp1 perp2,
        frame tangent = Some (perp1, perp2) ->
        perp2 = cross tangent perp1
        /\ cross perp1 perp2 = tangent
        /\ norm perp1 = 1%R /\ norm perp2 = 1%R /\ vdot perp1 perp2 = 0%R)
  /\ (snd tangent = 0%R ->
      frame tangent
      = Some ((- snd (fst tangent), fst (fst tangent), 0)%R, (0, 0, 1)%R)).
Proof.
  intros Hn. split; [|split].
  - assert (Hu : vdot tangent tangent = 1%R) by (apply norm_unit_iff, Hn).
    destruct tangent as [[x y] z]. unfold frame. cbn in Hu.
    destruct (Rlt_dec (Rabs z) 0.9) as [Hz|Hz].
    + destruct (frame_of_unit (x, y, z) (0, 0, 1)%R) as (H1 & H2 & _).
      { apply norm_unit_iff, Hn. }
      { cbn. apply Rabs_def2 in Hz. Lra.nra. }
      cbv zeta in H1, H2. rewrite H1, H2. eexists. eexists. reflexivity.
    + destruct (frame_of_unit (x, y, z) (1, 0, 0)%R) as (H1 & H2 & _).
      { apply norm_unit_iff, Hn. }
      { cbn. apply Rnot_lt_le in Hz.
        assert (Hzz : (0.81 <= z * z)%R).
        { unfold Rabs in Hz. destruct (Rcase_abs z); Lra.nra. }
        Lra.nra. }
      cbv zeta in H1, H2. rewrite H1, H2. eexists. eexists. reflexivity.
  - intros perp1 perp2 Hf.
    destruct (frame_some_orthonormal tangent perp1 perp2 Hn Hf)
      as (H1 & H2 & _ & _ & H12 & Hp2 & Hrh).
    repeat split; assumption.
  - destruct tangent as [[x y] z]. cbn [fst snd]. intros ->.
    apply frame_horizontal.
    apply norm_unit_iff in Hn. cbn in Hn. rewrite <- Hn. ring.
Qed.

(** X12 on the horizontal tangent (1, 0, 0). *)
Lemma frame_right_handed_witness :
  frame (1, 0, 0)%R = Some ((- 0, 1, 0)%R, (0, 0, 1)%R).
Proof.
  assert (Hunit : norm (1, 0, 0)%R = 1%R).
  { apply norm_unit_iff. cbn. rlra. }
  destruct (frame_right_handed (1, 0, 0)%R Hunit) as (_ & _ & H).
  apply H. reflexivity.
Defined.

Section ExportRings.

Local Open Scope R_scope.

Lemma to_int_range (x : R) (n : Z) : 0 <= x <= IZR n -> (0 <= to_int x <= n)%Z.
Proof.
  intros [Hlo Hhi]. unfold to_int. destruct (Rle_dec 0 x) as [_|Hn]; [|contradiction].
  destruct (Zfloor_bound x) as [Hfl _]. split.
  - apply Zfloor_lub. exact Hlo.
  - apply le_IZR. rlra.
Qed.

Lemma to_int_zero : to_int 0 = 0%Z.
Proof. pose proof (to_int_range 0 0 ltac:(split; apply Rle_refl)). lia. Qed.

(** Indexing succeeds on [-len <= idx < len]. *)
Lemma index_axis_returns {T : Type} (axis : nat) (a : list T) (idx : Z) :
  (- Z.of_nat (List.length a) <= idx < Z.of_nat (List.length a))%Z ->
  exists v, index_axis axis a idx = Returned v.
Proof.
  intros H. unfold index_axis.
  destruct (Z.ltb_spec idx 0) as [Hneg|Hpos].
  - destruct (Z.leb_spec 0 (idx + Z.of_nat (List.length a))) as [_|]; [|lia].
    destruct (Z.ltb_spec (idx + Z.of_nat (List.length a)) (Z.of_nat (List.length a)))
      as [_|]; [|lia].
    cbn [andb].
    destruct (nth_error a (Z.to_nat (idx + Z.of_nat (List.length a)))) eqn:E;
      [eexists; reflexivity|].
    apply nth_error_None in E. lia.
  - destruct (Z.leb_spec 0 idx) as [_|]; [|lia].
    destruct (Z.ltb_spec idx (Z.of_nat (List.length a))) as [_|]; [|lia].
    cbn [andb].
    destruct (nth_error a (Z.to_nat idx)) eqn:E; [eexists; reflexivity|].
    apply nth_error_None in E. lia.
Qed.

Lemma index_returns {T : Type} (a : list T) (idx : Z) :
  (- Z.of_nat (List.length a) <= idx < Z.of_nat (List.length a))%Z ->
  exists v, index a idx = Returned v.
Proof. apply index_axis_returns. Qed.

(** One turn of the export loop raises nothing on a geometry with a sample. *)
Lemma export_cross_section_returns (self : model) (g : geometry)
  (centerline_mode : string) (position : R) :
  aligned g -> (1 <= List.length (phi g))%nat -> 0 <= position <= 1 ->
  exists r, export_cross_section self g centerline_mode position = Returned r.
Proof.
  intros Hal Hlen Hpos. unfold export_cross_section.
  set (len := Z.of_nat (List.length (phi g))).
  set (idx := to_int (position * IZR (len - 1))).
  assert (Hidx : (0 <= idx <= len - 1)%Z).
  { apply to_int_range.
    assert (0 <= IZR (len - 1)) by (apply IZR_le; unfold len; lia).
    split; [apply Rmult_le_pos; rlra | Lra.nra]. }
  assert (Hget : forall row i, (row < 3)%nat -> (-1 <= i < len)%Z ->
                               exists v, centerline_at g row i = Returned v).
  { intros row i Hrow Hi. unfold centerline_at. apply index_axis_returns.
    rewrite (Hal row Hrow). fold len. unfold len in *. lia. }
  destruct (index_returns (phi g) idx) as [p Hp]; [fold len; unfold len in *; lia|].
  rewrite Hp. cbn [bind].
  rewrite (linspace_returns 0 (2 * PI) (60 + 1)) by lia.
  destruct (Z.ltb_spec idx (len - 1)) as [Hlt|Hge];
    destruct (String.eqb centerline_mode "3D");
    repeat match goal with
           | |- context [centerline_at g ?r ?i] =>
               let v := fresh "v" in
               let Hv := fresh "Hv" in
               destruct (Hget r i) as [v Hv]; [lia | lia | rewrite Hv; cbn [bind]]
           end;
    eexists; reflexivity.
Qed.

(** The export of a geometry with a single sample: the tangent is the zero
    vector, its normalisation is not a number. *)
Lemma export_cross_section_single (self : model) (g : geometry)
  (centerline_mode : string) (position p x y z : R) :
  phi g = [p] -> centerline g = [[x]; [y]; [z]] ->
  export_cross_section self g centerline_mode position = Returned None.
Proof.
  intros Hphi Hc. unfold export_cross_section, centerline_at. rewrite Hphi, Hc.
  cbn [List.length Z.of_nat Pos.of_succ_nat].
  change (1 - 1)%Z with 0%Z. rewrite Rmult_0_r.
  assert (H0 : to_int 0 = 0%Z).
  { pose proof (to_int_range 0 0 ltac:(split; apply Rle_refl)). lia. }
  rewrite H0. cbn [nth].
  rewrite (index_single _ 0 0%Z) by lia.
  rewrite !(index_axis_single 1 _ 0 0%Z) by lia. cbn [bind].
  change (0 <? 0)%Z with false. cbv iota. change (0 - 1)%Z with (-1)%Z.
  rewrite !(index_axis_single 1 _ 0 (-1)%Z) by lia.
  rewrite !(index_axis_single 1 _ 0 0%Z) by lia. cbn [bind].
  rewrite (linspace_returns 0 (2 * PI) (60 + 1)) by lia.
  assert (Hz : forall v, vdot v v = 0 -> normalized v = None).
  { intros v Hv. unfold normalized.
    destruct (Req_dec_T (norm v) 0) as [_|Hn]; [reflexivity|].
    exfalso. apply Hn, norm_zero_iff, Hv. }
  destruct (String.eqb centerline_mode "3D"); cbn [bind];
    rewrite Hz; first [reflexivity | cbn; ring].
Qed.

(** The two samples between which the tangent is taken: the sample and the
    next one, or the one before and the sample at the end of the arrays. *)
Definition neighbours (len idx : Z) : Z * Z :=
  if (idx <? len - 1)%Z then (idx, (idx + 1)%Z) else ((idx - 1)%Z, idx).

Ltac bound_call H :=
  match type of H with
  | bind ?c _ = Returned _ =>
      let v := fresh "v" in
      destruct c as [v|?] eqn:?; cbn [bind] in H; [|discriminate H]
  end.

(** What a returned ring was built from. *)
Lemma export_cross_section_frame (self : model) (g : geometry)
  (centerline_mode : string) (position : R) (pts : list vec3) :
  export_cross_section self g centerline_mode position = Returned (Some pts) ->
  let len := Z.of_nat (List.length (phi g)) in
  let idx := to_int (position * IZR (len - 1)) in
  let i0 := fst (neighbours len idx) in
  let i1 := snd (neighbours len idx) in
  exists p c0 c1 c2 x0 y0 x1 y1 dz tangent perp1 perp2,
    index (phi g) idx = Returned p
    /\ centerline_at g 0 idx = Returned c0
    /\ centerline_at g 1 idx = Returned c1
    /\ centerline_at g 2 idx = Returned c2
    /\ centerline_at g 0 i0 = Returned x0
    /\ centerline_at g 1 i0 = Returned y0
    /\ centerline_at g 0 i1 = Returned x1
    /\ centerline_at g 1 i1 = Returned y1
    /\ (if String.eqb centerline_mode "3D"
        then exists z0 z1,
               centerline_at g 2 i0 = Returned z0
               /\ centerline_at g 2 i1 = Returned z1
               /\ dz = z1 - z0
        else dz = 0)
    /\ normalized (x1 - x0, y1 - y0, dz) = Some tangent
    /\ frame tangent = Some (perp1, perp2)
    /\ pts = ring centerline_mode (c0, c1, c2) (tube_radius (c_length self) p)
                  perp1 perp2 (spaced 0 (2 * PI) 61).
Proof.
  intros H len idx i0 i1. unfold export_cross_section in H. fold len idx in H.
  rewrite (linspace_returns 0 (2 * PI) (60 + 1)) in H by lia.
  change (60 + 1)%Z with 61%Z in H.
  assert (Hret : forall a b : option (list vec3), Returned a = Returned b -> a = b)
    by (intros a b E; injection E; trivial).
  assert (Hsome : forall a b : list vec3, Some a = Some b -> a = b)
    by (intros a b E; injection E; trivial).
  unfold i0, i1, neighbours.
  destruct (idx <? len - 1)%Z; cbn [fst snd];
    (destruct (index (phi g) idx) as [p|e] eqn:Hp; cbn [bind] in H; [|discriminate H]);
    (destruct (centerline_at g 0 idx) as [c0|e] eqn:Hc0; cbn [bind] in H;
     [|discriminate H]);
    (destruct (centerline_at g 1 idx) as [c1|e] eqn:Hc1; cbn [bind] in H;
     [|discriminate H]);
    (destruct (centerline_at g 2 idx) as [c2|e] eqn:Hc2; cbn [bind] in H;
     [|discriminate H]);
    exists p, c0, c1, c2;
    destruct (String.eqb centerline_mode "3D") eqn:Hmode;
    repeat bound_call H;
    repeat match goal with
           | Hx : bind _ _ = Returned _ |- _ => bound_call Hx
           end;
    repeat match goal with
           | Hx : Returned _ = Returned ?v |- _ => is_var v; injection Hx as <-
           | Hx : (if _ then _ else _) = Returned ?v |- _ =>
               is_var v; cbv iota in Hx; injection Hx as <-
           end;
    apply Hret in H;
    (destruct (normalized _) as [tangent|] eqn:Htan in H; [|discriminate H]);
    (destruct (frame tangent) as [[perp1 perp2]|] eqn:Hframe; [|discriminate H]);
    apply Hsome in H; subst pts;
    match type of Htan with
    | normalized (?a1 - ?a0, ?b1 - ?b0, ?d) = _ => exists a0, b0, a1, b1, d
    end;
    exists tangent, perp1, perp2; cbv iota.
  all: repeat match goal with
              | |- _ /\ _ => split
              | |- exists z0 z1, _ /\ _ /\ ?a - ?b = z1 - z0 => exists b, a
              end.
  all: first [assumption | reflexivity].
Qed.

(** The point around which a ring is drawn: the centre line point, moved
    into the plane [z = 0] in the 2D mode. *)
Definition ring_base (centerline_mode : string) (center : vec3) : vec3 :=
  if String.eqb centerline_mode "2D"
  then let '(c0, c1, _) := center in (c0, c1, 0)
  else center.

Lemma ring_length (centerline_mode : string) (center : vec3) (radius : R)
  (perp1 perp2 : vec3) (angles : list R) :
  List.length (ring centerline_mode center radius perp1 perp2 angles)
  = List.length angles.
Proof. unfold ring. apply length_map. Qed.

(** Every point of a ring drawn along an orthonormal pair lies on the circle
    of the given radius around the base, scaled to centimetres, and in the
    plane normal to every vector that both perpendiculars are normal to. *)
Lemma ring_points (centerline_mode : string) (center : vec3) (radius : R)
  (perp1 perp2 tangent : vec3) (angles : list R) (q : vec3) :
  vdot perp1 perp1 = 1 -> vdot perp2 perp2 = 1 -> vdot perp1 perp2 = 0 ->
  vdot perp1 tangent = 0 -> vdot perp2 tangent = 0 ->
  In q (ring centerline_mode center radius perp1 perp2 angles) ->
  let d := vadd q (vscale (- 0.1) (ring_base centerline_mode center)) in
  vdot d d = (0.1 * radius) * (0.1 * radius) /\ vdot d tangent = 0.
Proof.
  intros H11 H22 H12 H1t H2t Hq. unfold ring in Hq. apply in_map_iff in Hq.
  destruct Hq as (angle & Hq & _).
  assert (Hd : vadd q (vscale (- 0.1) (ring_base centerline_mode center))
               = vscale 0.1 (vadd (vscale (radius * cos angle) perp1)
                                  (vscale (radius * sin angle) perp2))).
  { subst q. unfold ring_base.
    destruct center as [[c0 c1] c2], perp1 as [[a0 a1] a2], perp2 as [[b0 b1] b2].
    destruct (String.eqb centerline_mode "2D"); cbn; f_equal; [f_equal| |f_equal|]; rlra. }
  cbv zeta. rewrite Hd. clear Hd Hq.
  set (lx := radius * cos angle). set (ly := radius * sin angle).
  assert (Hsq : lx * lx + ly * ly = radius * radius).
  { unfold lx, ly. pose proof (sin2_cos2 angle) as Hsc. unfold Rsqr in Hsc.
    replace (radius * cos angle * (radius * cos angle)
             + radius * sin angle * (radius * sin angle))
      with (radius * radius * (sin angle * sin angle + cos angle * cos angle)) by ring.
    rewrite Hsc. ring. }
  split.
  - rewrite vdot_vscale_l, vdot_vscale_r.
    replace (vdot (vadd (vscale lx perp1) (vscale ly perp2))
                  (vadd (vscale lx perp1) (vscale ly perp2)))
      with (lx * lx * vdot perp1 perp1 + 2 * (lx * ly) * vdot perp1 perp2
            + ly * ly * vdot perp2 perp2).
    + rewrite H11, H22, H12.
      replace (0.1 * radius * (0.1 * radius))
        with (0.1 * (0.1 * (lx * lx + ly * ly))) by (rewrite Hsq; ring).
      ring.
    + destruct perp1 as [[a0 a1] a2], perp2 as [[b0 b1] b2]. cbn. ring.
  - rewrite vdot_vscale_l.
    replace (vdot (vadd (vscale lx perp1) (vscale ly perp2)) tangent)
      with (lx * vdot perp1 tangent + ly * vdot perp2 tangent).
    + rewrite H1t, H2t. ring.
    + destruct perp1 as [[a0 a1] a2], perp2 as [[b0 b1] b2], tangent as [[t0 t1] t2].
      cbn. ring.
Qed.

(** The ring over [linspace(0, 2 pi, 61)] starts at the base moved by the
    radius along [perp1] and ends where it starts. *)
Lemma ring_closed (centerline_mode : string) (center : vec3) (radius : R)
  (perp1 perp2 : vec3) (d : vec3) :
  let pts := ring centerline_mode center radius perp1 perp2 (spaced 0 (2 * PI) 61) in
  nth 0 pts d
  = vscale 0.1 (vadd (ring_base centerline_mode center) (vscale radius perp1))
  /\ nth 60 pts d = nth 0 pts d.
Proof.
  cbv zeta.
  assert (Hlen : List.length (spaced 0 (2 * PI) 61) = 61%nat) by apply spaced_length.
  assert (Hfirst : nth 0 (spaced 0 (2 * PI) 61) 0 = 0).
  { rewrite spaced_nth by (cbn; lia). cbn [INR]. ring. }
  assert (Hlast : nth 60 (spaced 0 (2 * PI) 61) 0 = 2 * PI).
  { rewrite spaced_nth by (cbn; lia).
    change (0 <? 61 - 1)%Z with true. cbv iota. change (61 - 1)%Z with 60%Z.
    rewrite INR_IZR_INZ. change (Z.of_nat 60) with 60%Z. field. }
  unfold ring.
  rewrite !(nth_map_in _ _ _ 0) by (rewrite Hlen; lia).
  rewrite Hfirst, Hlast, cos_2PI, sin_2PI, cos_0, sin_0.
  split; [|reflexivity].
  unfold ring_base.
  destruct center as [[c0 c1] c2], perp1 as [[a0 a1] a2], perp2 as [[b0 b1] b2].
  destruct (String.eqb centerline_mode "2D"); cbn; f_equal; [f_equal| |f_equal|]; rlra.
Qed.

End ExportRings.

Section ExportedRings.

Local Open Scope R_scope.

Lemma normalized_of_unit (v : vec3) : norm v = 1 -> normalized v = Some v.
Proof.
  intros Hv. unfold normalized.
  destruct (Req_dec_T (norm v) 0) as [H0|_]; [rlra|].
  rewrite Hv, Rinv_1, vscale_one. reflexivity.
Qed.

(** A centre line of two samples along the X axis. *)
Definition two_sample_geometry : geometry :=
  {| centerline := [[0; 1]; [0; 0]; [0; 0]];
     scala_x := []; scala_y := []; scala_z := [];
     phi := [0; 1]; turns := []; r_modiolus := [] |}.

Lemma export_cross_section_two_samples :
  exists pts,
    export_cross_section mean_model two_sample_geometry "3D" 0 = Returned (Some pts).
Proof.
  unfold export_cross_section, centerline_at.
  cbn [phi centerline two_sample_geometry List.length nth].
  change (Z.of_nat 2 - 1)%Z with 1%Z. rewrite Rmult_0_l.
  assert (H0 : to_int 0 = 0%Z).
  { pose proof (to_int_range 0 0 ltac:(split; apply Rle_refl)). lia. }
  rewrite H0. change (0 <? 1)%Z with true. cbv iota.
  rewrite (index_in_range _ 0%Z 0) by (cbn; lia).
  rewrite !(index_axis_in_range 1 _ 0%Z 0) by (cbn; lia).
  rewrite !(index_axis_in_range 1 _ (0 + 1)%Z 0) by (cbn; lia).
  change (Z.to_nat (0 + 1)) with 1%nat. change (Z.to_nat 0) with 0%nat.
  cbn [bind nth].
  change (String.eqb "3D" "3D") with true. cbv iota. cbn [bind].
  rewrite (linspace_returns 0 (2 * PI) (60 + 1)) by lia. cbn [bind].
  replace (1 - 0) with 1 by ring. replace (0 - 0) with 0 by ring.
  rewrite (normalized_of_unit (1, 0, 0)) by (apply norm_unit_iff; cbn; ring).
  rewrite (frame_horizontal 1 0) by ring.
  eexists. reflexivity.
Qed.

End ExportedRings.

(** X13: a ring written by the export is a closed circle.  When one turn of
    the cross-section loop of [export_csv] yields numbers, the tangent is the
    normalised difference of two centre line points, the sample and its
    successor or, at the last sample, its predecessor and the sample, with the
    [z] difference replaced by 0 in every mode other than "3D".  The 61 points
    of the ring lie, in centimetres, at the tube radius of the chosen sample
    from the base point (the centre line point, moved to [z = 0] exactly in the
    mode "2D"), in the plane normal to that tangent; the ring starts at the base
    moved by the radius along the first perpendicular, and its last point is
    its first. *)
Theorem export_ring_circle (self : model) (g : geometry) (centerline_mode : string)
  (position : R) (pts : list vec3) :
  export_cross_section self g centerline_mode position = Returned (Some pts) ->
  exists (p : R) (center tangent perp1 : vec3) (x0 y0 x1 y1 dz : R),
    let len := Z.of_nat (List.length (phi g)) in
    let idx := to_int (position * IZR (len - 1)) in
    let i0 := fst (neighbours len idx) in
    let i1 := snd (neighbours len idx) in
    let radius := tube_radius (c_length self) p in
    let base := ring_base centerline_mode center in
    index (phi g) idx = Returned p
    /\ centerline_at g 0 idx = Returned (fst (fst center))
    /\ centerline_at g 1 idx = Returned (snd (fst center))
    /\ centerline_at g 2 idx = Returned (snd center)
    /\ centerline_at g 0 i0 = Returned x0
    /\ centerline_at g 1 i0 = Returned y0
    /\ centerline_at g 0 i1 = Returned x1
    /\ centerline_at g 1 i1 = Returned y1
    /\ (if String.eqb centerline_mode "3D"
        then exists z0 z1,
               centerline_at g 2 i0 = Returned z0
               /\ centerline_at g 2 i1 = Returned z1
               /\ dz = (z1 - z0)%R
        else dz = 0%R)
    /\ normalized (x1 - x0, y1 - y0, dz)%R = Some tangent
    /\ norm tangent = 1%R /\ norm perp1 = 1%R /\ vdot perp1 tangent = 0%R
    /\ (String.eqb centerline_mode "3D" = false -> snd tangent = 0%R)
    /\ List.length pts = 61%nat
    /\ Forall (fun q => let d := vadd q (vscale (- 0.1) base) in
                        vdot d d = ((0.1 * radius) * (0.1 * radius))%R
                        /\ vdot d tangent = 0%R) pts
    /\ (forall d, nth 0 pts d = vscale 0.1 (vadd base (vscale radius perp1))
                  /\ nth 60 pts d = nth 0 pts d).
Proof.
  intros H.
  destruct (export_cross_section_frame self g centerline_mode position pts H)
    as (p & c0 & c1 & c2 & x0 & y0 & x1 & y1 & dz & tangent & perp1 & perp2
        & Hp & Hc0 & Hc1 & Hc2 & Hx0 & Hy0 & Hx1 & Hy1 & Hdz & Htan & Hframe & Hpts).
  cbv zeta in Hp, Hc0, Hc1, Hc2, Hx0, Hy0, Hx1, Hy1, Hdz.
  pose proof (normalized_some_unit _ _ Htan) as Hunit.
  destruct (frame_some_orthonormal tangent perp1 perp2 Hunit Hframe)
    as (Hn1 & Hn2 & H1t & H2t & H12 & _ & _).
  exists p, (c0, c1, c2), tangent, perp1, x0, y0, x1, y1, dz. cbv zeta. cbn [fst snd].
  split; [exact Hp|]. split; [exact Hc0|]. split; [exact Hc1|]. split; [exact Hc2|].
  split; [exact Hx0|]. split; [exact Hy0|]. split; [exact Hx1|]. split; [exact Hy1|].
  split; [exact Hdz|]. split; [exact Htan|].
  split; [exact Hunit|]. split; [exact Hn1|]. split; [exact H1t|].
  split.
  { intros Hmode. rewrite Hmode in Hdz. subst dz.
    destruct (normalized_some _ _ Htan) as [_ ->]. cbn. ring. }
  split; [rewrite Hpts, ring_length; apply spaced_length|].
  split.
  { apply Forall_forall. intros q Hq. rewrite Hpts in Hq.
    apply (ring_points centerline_mode (c0, c1, c2) _ perp1 perp2 tangent
                       (spaced 0 (2 * PI) 61) q);
      try assumption; apply norm_unit_iff; assumption. }
  intros d. rewrite Hpts. apply ring_closed.
Qed.

(** X13 on the first sample of a centre line of two samples along X. *)
Lemma export_ring_circle_witness :
  exists pts,
    export_cross_section mean_model two_sample_geometry "3D" 0 = Returned (Some pts)
    /\ List.length pts = 61%nat.
Proof.
  destruct export_cross_section_two_samples as [pts Hpts].
  exists pts. split; [exact Hpts|].
  destruct (export_ring_circle mean_model two_sample_geometry "3D" 0 pts Hpts)
    as (p & center & tangent & perp1 & x0 & y0 & x1 & y1 & dz & H).
  cbv zeta in H. apply H.
Defined.

Section ExportTotal.

Local Open Scope R_scope.

Lemma export_cross_sections_returns (self : model) (g : geometry)
  (centerline_mode : string) (num_cross_sections : Z) :
  aligned g -> (1 <= List.length (phi g))%nat -> (0 <= num_cross_sections)%Z ->
  exists rings,
    export_cross_sections self g centerline_mode num_cross_sections = Returned rings
    /\ List.length rings = Z.to_nat num_cross_sections.
Proof.
  intros Hal Hlen Hn. unfold export_cross_sections.
  rewrite linspace_returns by exact Hn. cbn [bind].
  destruct (map_each_returns (export_cross_section self g centerline_mode)
              (fun _ => True) (spaced 0 1 num_cross_sections))
    as (rings & Hm & Hl & _).
  { intros x Hx. apply spaced_between in Hx; [|rlra].
    destruct (export_cross_section_returns self g centerline_mode x Hal Hlen Hx)
      as [r Hr].
    exists r. split; [exact Hr | exact I]. }
  exists rings. split; [exact Hm|]. rewrite Hl. apply spaced_length.
Qed.

End ExportTotal.

(** X14: the cross sections of [export_all] are always written.  For valid
    shape parameters the geometry at resolution 0.05 is generated, and for
    every mode string and every count from 0 on the cross-section loop of
    [export_csv] raises nothing on it (all indices, [idx - 1] and [idx + 1]
    included, stay inside the arrays) and yields one ring per count. *)
Theorem export_cross_sections_total (parameters : list Q) (centerline_mode : string)
  (num_cross_sections : Z) :
  in_bounds parameters -> (0 <= num_cross_sections)%Z ->
  exists g rings,
    generate_geometry (derived parameters) 0.05 = Returned g
    /\ export_cross_sections (derived parameters) g centerline_mode num_cross_sections
       = Returned rings
    /\ List.length rings = Z.to_nat num_cross_sections.
Proof.
  intros Hb Hn.
  assert (Hres : (0.05 <> 0)%R) by rlra.
  destruct (generate_geometry_returns (derived parameters) 0.05 Hres)
    as (sx & sy & sz & Hg & _).
  match type of Hg with _ = Returned ?G => set (g := G) in * end.
  assert (Hlen : (1 <= List.length (phi g))%nat).
  { apply samples_first; [rlra | apply c_length_positive, Hb]. }
  destruct (export_cross_sections_returns (derived parameters) g centerline_mode
              num_cross_sections (generated_aligned _ _ _ Hres Hg) Hlen Hn)
    as (rings & Hr & Hl).
  exists g, rings. repeat split; assumption.
Qed.

(** X14 on the mean shape with the default of five cross sections. *)
Lemma export_cross_sections_total_witness :
  exists g rings,
    generate_geometry (derived [5.97; 3.95; 3.26; 2.85]%Q) 0.05 = Returned g
    /\ export_cross_sections (derived [5.97; 3.95; 3.26; 2.85]%Q) g "3D" 5
       = Returned rings
    /\ List.length rings = Z.to_nat 5.
Proof.
  apply (export_cross_sections_total [5.97; 3.95; 3.26; 2.85]%Q "3D" 5).
  - exact mean_in_bounds.
  - lia.
Defined.

(** X15: the edges of the cross-section loop of [export_csv].  A negative
    count raises the error of [np.linspace], whose text names the count; the
    count 0 writes no ring; on a geometry without samples every count from 1 on
    raises the IndexError of [phi[0]], "index 0 is out of bounds for axis 0 with
    size 0"; on a geometry of a single sample nothing is raised, and every ring
    is made of values that are not numbers, because the tangent between the
    sample and itself has length zero. *)
Theorem export_cross_sections_edges (self : model) (g : geometry)
  (centerline_mode : string) (num_cross_sections : Z) :
  ((num_cross_sections < 0)%Z ->
   export_cross_sections self g centerline_mode num_cross_sections
   = Raised (ValueError (NegativeSamples num_cross_sections)))
  /\ export_cross_sections self g centerline_mode 0 = Returned []
  /\ ((1 <= num_cross_sections)%Z -> phi g = [] ->
      export_cross_sections self g centerline_mode num_cross_sections
      = Raised (IndexError (OutOfBounds 0 0 0)))
  /\ (forall p x y z,
        (0 <= num_cross_sections)%Z ->
        phi g = [p] -> centerline g = [[x]; [y]; [z]] ->
        export_cross_sections self g centerline_mode num_cross_sections
        = Returned (repeat None (Z.to_nat num_cross_sections))).
Proof.
  split.
  { intros Hn. unfold export_cross_sections.
    rewrite linspace_negative by exact Hn. reflexivity. }
  split; [reflexivity|].
  split.
  { intros Hn Hphi. unfold export_cross_sections.
    rewrite linspace_returns by lia. cbn [bind].
    destruct (spaced_from_zero 1 num_cross_sections Hn) as (rest & ->).
    apply map_each_first_raises.
    unfold export_cross_section. rewrite Hphi, index_empty.
    rewrite Rmult_0_l, to_int_zero. reflexivity. }
  intros p x y z Hn Hphi Hc. unfold export_cross_sections.
  rewrite linspace_returns by exact Hn. cbn [bind].
  rewrite <- (spaced_length 0 1 num_cross_sections).
  induction (spaced 0 1 num_cross_sections) as [|a l IH]; [reflexivity|].
  cbn [map_each List.length repeat].
  rewrite (export_cross_section_single self g centerline_mode a p x y z Hphi Hc).
  cbn [bind]. rewrite IH. reflexivity.
Qed.

(* ===================================================================== *)
(** * Further properties of the parameter file *)
(* ===================================================================== *)

Section StoredParameters.

Local Open Scope Q_scope.

(** Rounding to six decimals changes nothing the second time. *)
Lemma round6_stable (q : Q) : round6 (round6 q) = round6 q.
Proof.
  assert (H : forall z : Z, round6 (z # 1000000) = z # 1000000).
  { intros z. pose proof (round6_exact (z # 1000000) z (Qeq_refl _)) as E.
    unfold round6 in *. unfold Qeq in E. cbn [Qnum Qden] in E. f_equal. lia. }
  unfold round6 at 2 3. apply H.
Qed.

(** Rounding to six decimals does not cross a bound that has at most six
    decimals itself. *)
Lemma round6_above (b : Q) (z : Z) (x : Q) :
  b == z # 1000000 -> b <= x -> b <= round6 x.
Proof.
  intros Hb Hx. pose proof (round6_close x) as Hc.
  apply Qabs_Qle_condition in Hc. destruct Hc as [Hc1 _].
  unfold round6 in *.
  set (r := (if Qle_bool 0 x then Z.of_N (millionths x)
             else - Z.of_N (millionths x))%Z) in *.
  assert (Hx' : inject_Z z * (1 # 1000000) <= x).
  { rewrite <- Qmake_millionth, <- Hb. exact Hx. }
  assert (Hc' : - (1 # 2000000) <= inject_Z r * (1 # 1000000) - x).
  { rewrite <- Qmake_millionth. exact Hc1. }
  assert (Hlt : inject_Z z + inject_Z (-1) < inject_Z r).
  { change (inject_Z (-1)) with (-1 # 1). qlra. }
  rewrite <- inject_Z_plus, <- Zlt_Qlt in Hlt.
  assert (Hle : inject_Z z <= inject_Z r) by (rewrite <- Zle_Qle; lia).
  rewrite Hb, (Qmake_millionth z), (Qmake_millionth r). qlra.
Qed.

Lemma round6_below (b : Q) (z : Z) (x : Q) :
  b == z # 1000000 -> x <= b -> round6 x <= b.
Proof.
  intros Hb Hx. pose proof (round6_close x) as Hc.
  apply Qabs_Qle_condition in Hc. destruct Hc as [_ Hc2].
  unfold round6 in *.
  set (r := (if Qle_bool 0 x then Z.of_N (millionths x)
             else - Z.of_N (millionths x))%Z) in *.
  assert (Hx' : x <= inject_Z z * (1 # 1000000)).
  { rewrite <- Qmake_millionth, <- Hb. exact Hx. }
  assert (Hc' : inject_Z r * (1 # 1000000) - x <= 1 # 2000000).
  { rewrite <- Qmake_millionth. exact Hc2. }
  assert (Hlt : inject_Z r < inject_Z z + inject_Z 1).
  { change (inject_Z 1) with (1 # 1). qlra. }
  rewrite <- inject_Z_plus, <- Zlt_Qlt in Hlt.
  assert (Hle : inject_Z r <= inject_Z z) by (rewrite <- Zle_Qle; lia).
  rewrite Hb, (Qmake_millionth z), (Qmake_millionth r). qlra.
Qed.

Lemma round6_in_bounds (parameters : list Q) :
  in_bounds parameters -> in_bounds (map round6 parameters).
Proof.
  intros (A1 & B1 & A2 & B2 & -> & (H1 & H2) & (H3 & H4) & (H5 & H6) & (H7 & H8)).
  exists (round6 A1), (round6 B1), (round6 A2), (round6 B2).
  split; [reflexivity|].
  repeat split.
  - apply (round6_above _ 4000000); [reflexivity | exact H1].
  - apply (round6_below _ 8000000); [reflexivity | exact H2].
  - apply (round6_above _ 2500000); [reflexivity | exact H3].
  - apply (round6_below _ 5500000); [reflexivity | exact H4].
  - apply (round6_above _ 2000000); [reflexivity | exact H5].
  - apply (round6_below _ 4500000); [reflexivity | exact H6].
  - apply (round6_above _ 1500000); [reflexivity | exact H7].
  - apply (round6_below _ 4000000); [reflexivity | exact H8].
Qed.

(** The lines that [savetxt] writes below the header. *)
Definition value_lines (X : list Q) : string :=
  fold_right (fun q rest => format_f6 q ++ newline ++ rest)%string ""%string X.

Lemma value_lines_rows (X : list Q) :
  map_each (parse_line ",")
    (filter (fun line => negb (all_spaces line))
       (map (before "#") (split_on LF (value_lines X))))
  = Returned (map (fun q => [round6 q]) X).
Proof.
  induction X as [|q X IH]; [reflexivity|].
  change (value_lines (q :: X))
    with (format_f6 q ++ String LF (value_lines X))%string.
  rewrite split_on_app by (apply format_f6_has_no; reflexivity).
  cbn [map filter].
  rewrite before_none by (apply format_f6_has_no; reflexivity).
  rewrite format_f6_not_blank. cbn [negb map_each].
  rewrite parse_line_f6, IH. reflexivity.
Qed.

Lemma loadtxt_savetxt_rows (X : list Q) :
  loadtxt (savetxt X "A1, B1, A2, B2") ","
  = squeeze (map (fun q => [round6 q]) X).
Proof.
  unfold loadtxt.
  change (savetxt X "A1, B1, A2, B2")
    with ("# A1, B1, A2, B2" ++ String LF (value_lines X))%string.
  rewrite split_on_app by reflexivity.
  cbn [map]. change (before "#" "# A1, B1, A2, B2") with ""%string.
  cbn [filter all_spaces negb].
  rewrite value_lines_rows. reflexivity.
Qed.

Lemma squeeze_column (x y : Q) (X : list Q) :
  squeeze (map (fun q => [round6 q]) (x :: y :: X))
  = Returned (Vector (map round6 (x :: y :: X))).
Proof.
  assert (Hall : forall l : list Q,
             forallb (fun row : list Q => Nat.eqb (List.length row) 1)
                     (map (fun q => [round6 q]) l) = true).
  { induction l as [|a l IH]; [reflexivity | exact IH]. }
  unfold squeeze. cbn [map List.length].
  cbn [forallb List.length Nat.eqb andb]. rewrite Hall.
  cbn [Nat.eqb]. rewrite map_map. reflexivity.
Qed.

End StoredParameters.

(** X16: saving and loading is stable.  The four values read back from the
    file of a valid parameter vector are valid again (rounding to six decimals
    does not leave a range whose ends have one decimal), and saving what was
    read back and loading it again returns it unchanged. *)
Theorem save_load_stable (parameters : list Q) (filename : string) (fs : files) :
  in_bounds parameters ->
  let reloaded := map round6 parameters in
  load_parameters filename (save_parameters parameters filename fs)
  = Returned (Vector reloaded)
  /\ validate_parameters reloaded = Returned true
  /\ load_parameters filename (save_parameters reloaded filename fs)
     = Returned (Vector reloaded).
Proof.
  intros Hb reloaded.
  assert (Hload : forall X : list Q,
             in_bounds X ->
             load_parameters filename (save_parameters X filename fs)
             = Returned (Vector (map round6 X))).
  { intros X (A1 & B1 & A2 & B2 & -> & _).
    unfold load_parameters, save_parameters, write_file.
    rewrite String.eqb_refl. apply loadtxt_savetxt. }
  pose proof (round6_in_bounds parameters Hb) as Hb'. fold reloaded in Hb'.
  split; [apply Hload, Hb|].
  split; [apply validate_parameters_iff, Hb'|].
  rewrite (Hload reloaded Hb'). unfold reloaded.
  rewrite map_map. do 2 f_equal.
  apply map_ext. intros q. apply round6_stable.
Qed.

(** X16 on the mean parameters. *)
Lemma save_load_stable_witness :
  validate_parameters (map round6 [5.97; 3.95; 3.26; 2.85]%Q) = Returned true.
Proof.
  apply (save_load_stable [5.97; 3.95; 3.26; 2.85]%Q "parameters.txt" (fun _ => None)
           mean_in_bounds).
Defined.

(** X17: [save_parameters] and [load_parameters] on any array.  Nothing is
    validated when saving: an array of any length is written, one value per
    line.  What is read back depends on the length, because [np.loadtxt]
    squeezes: no value gives an empty array, a single value a scalar, two or
    more the vector of the rounded values.  Saving changes the one file only,
    the second save of a file replaces the first, and loading a file that does
    not exist raises FileNotFoundError. *)
Theorem save_parameters_any_length (parameters : list Q) (filename : string)
  (fs : files) :
  load_parameters filename (save_parameters parameters filename fs)
  = Returned match parameters with
             | [] => Vector []
             | [x] => Scalar (round6 x)
             | _ => Vector (map round6 parameters)
             end
  /\ (forall other,
        other <> filename ->
        load_parameters other (save_parameters parameters filename fs)
        = load_parameters other fs)
  /\ (forall earlier name,
        save_parameters parameters filename (save_parameters earlier filename fs) name
        = save_parameters parameters filename fs name)
  /\ (fs filename = None ->
      load_parameters filename fs = Raised (FileNotFoundError filename)).
Proof.
  split; [|split; [|split]].
  - unfold load_parameters, save_parameters, write_file.
    rewrite String.eqb_refl, loadtxt_savetxt_rows.
    destruct parameters as [|x [|y X]]; [reflexivity | reflexivity |].
    apply squeeze_column.
  - intros other Hother. unfold load_parameters, save_parameters, write_file.
    destruct (String.eqb_spec other filename); [contradiction | reflexivity].
  - intros earlier name. unfold save_parameters, write_file.
    destruct (String.eqb name filename); reflexivity.
  - intros Hnone. unfold load_parameters. rewrite Hnone. reflexivity.
Qed.

(* ===================================================================== *)
(** * The exported centre line *)
(* ===================================================================== *)

Module CenterlineExport.

Local Open Scope R_scope.

(** One line of [centerline.csv] in [export_csv]: the centre line point
    number [i] in centimetres, with [z = 0] in every mode other than "3D". *)
Definition centerline_row (g : geometry) (centerline_mode : string) (i : Z)
  : outcome vec3 :=
  (c0 <- centerline_at g 0 i ;;
   let x := c0 * 0.1 in
   c1 <- centerline_at g 1 i ;;
   let y := c1 * 0.1 in
   z <- (if String.eqb centerline_mode "3D"
         then c2 <- centerline_at g 2 i ;; Returned (c2 * 0.1)
         else Returned 0) ;;
   Returned (x, y, z))%py.

(** The centre line part of [export_csv]: [n_points] sample indices, evenly
    spaced over the columns and rounded down, one line for each. *)
Definition export_centerline (g : geometry) (centerline_mode : string)
  : outcome (list vec3) :=
  let n_points := 100%Z in
  (positions <-
     linspace 0 (IZR (Z.of_nat (List.length (nth 0 (centerline g) [])) - 1)) n_points ;;
   let indices := map Zfloor positions in
   map_each (centerline_row g centerline_mode) indices)%py.

(** The centre line of the simple export script: the same indices, the
    points in millimetres and always with their height. *)
Definition simple_centerline (g : geometry) : outcome (list vec3) :=
  let n_points := 100%Z in
  (positions <-
     linspace 0 (IZR (Z.of_nat (List.length (nth 0 (centerline g) [])) - 1)) n_points ;;
   let indices := map Zfloor positions in
   map_each (centerline_column g) indices)%py.

End CenterlineExport.

Import CenterlineExport.

Section CenterlineSamples.

Local Open Scope R_scope.

Lemma map_each_ext {T U : Type} (f : T -> outcome U) (h : T -> U) (xs : list T) :
  (forall x, In x xs -> f x = Returned (h x)) -> map_each f xs = Returned (map h xs).
Proof.
  induction xs as [|x xs IH]; intros Hall; [reflexivity|].
  cbn [map_each map]. rewrite (Hall x (or_introl eq_refl)). cbn [bind].
  rewrite IH by (intros x' Hx'; apply Hall; right; exact Hx'). reflexivity.
Qed.

(** The hundred sample indices over [len] columns. *)
Definition centerline_samples (len : nat) : list Z :=
  map Zfloor (spaced 0 (IZR (Z.of_nat len - 1)) 100).

Lemma centerline_samples_nth (len i : nat) :
  (i < 100)%nat ->
  nth i (centerline_samples len) 0%Z
  = Zfloor (INR i * (IZR (Z.of_nat len - 1) / 99)).
Proof.
  intros Hi. unfold centerline_samples.
  rewrite (nth_map_in _ _ _ 0) by (rewrite spaced_length; cbn; lia).
  rewrite spaced_nth by (cbn; lia).
  change (0 <? 100 - 1)%Z with true. cbv iota. change (100 - 1)%Z with 99%Z.
  f_equal. rewrite Rminus_0_r. ring.
Qed.

Lemma centerline_samples_spec (len : nat) :
  (1 <= len)%nat ->
  List.length (centerline_samples len) = 100%nat
  /\ nth 0 (centerline_samples len) 0%Z = 0%Z
  /\ nth 99 (centerline_samples len) 0%Z = (Z.of_nat len - 1)%Z
  /\ (forall i j, (i <= j < 100)%nat ->
        (nth i (centerline_samples len) 0 <= nth j (centerline_samples len) 0)%Z)
  /\ (forall idx, In idx (centerline_samples len) -> (0 <= idx < Z.of_nat len)%Z).
Proof.
  intros Hlen.
  assert (Hn : 0 <= IZR (Z.of_nat len - 1)) by (apply IZR_le; lia).
  split; [|split; [|split; [|split]]].
  - unfold centerline_samples. rewrite length_map. apply spaced_length.
  - rewrite centerline_samples_nth by lia. cbn [INR]. rewrite Rmult_0_l.
    apply (ZfloorZ 0).
  - rewrite centerline_samples_nth by lia.
    replace (INR 99 * (IZR (Z.of_nat len - 1) / 99)) with (IZR (Z.of_nat len - 1)).
    + apply ZfloorZ.
    + rewrite INR_IZR_INZ. change (Z.of_nat 99) with 99%Z. field.
  - intros i j Hij. rewrite !centerline_samples_nth by lia.
    apply Zfloor_le. apply Rmult_le_compat_r.
    + unfold Rdiv. apply Rmult_le_pos; [exact Hn | rlra].
    + apply le_INR. lia.
  - intros idx Hin. unfold centerline_samples in Hin.
    apply in_map_iff in Hin. destruct Hin as (x & <- & Hx).
    apply spaced_between in Hx; [|exact Hn]. destruct Hx as [Hlo Hhi].
    destruct (Zfloor_bound x) as [Hfl _]. split.
    + apply Zfloor_lub. exact Hlo.
    + assert (Zfloor x <= Z.of_nat len - 1)%Z by (apply le_IZR; rlra). lia.
Qed.

(** The line written for a column inside the arrays. *)
Definition scaled_column (g : geometry) (centerline_mode : string) (k : nat) : vec3 :=
  (get2 (centerline g) 0 k * 0.1, get2 (centerline g) 1 k * 0.1,
   if String.eqb centerline_mode "3D" then get2 (centerline g) 2 k * 0.1 else 0).

Definition plain_column (g : geometry) (k : nat) : vec3 :=
  (get2 (centerline g) 0 k, get2 (centerline g) 1 k, get2 (centerline g) 2 k).

Lemma centerline_row_in_range (g : geometry) (centerline_mode : string) (idx : Z) :
  aligned g -> (0 <= idx < Z.of_nat (List.length (phi g)))%Z ->
  centerline_row g centerline_mode idx
  = Returned (scaled_column g centerline_mode (Z.to_nat idx)).
Proof.
  intros Hal Hidx. unfold centerline_row, scaled_column.
  rewrite (centerline_at_in_range g 0 idx Hal ltac:(lia) Hidx).
  rewrite (centerline_at_in_range g 1 idx Hal ltac:(lia) Hidx).
  cbn [bind].
  destruct (String.eqb centerline_mode "3D"); [|reflexivity].
  rewrite (centerline_at_in_range g 2 idx Hal ltac:(lia) Hidx). reflexivity.
Qed.

Lemma centerline_column_in_range (g : geometry) (idx : Z) :
  aligned g -> (0 <= idx < Z.of_nat (List.length (phi g)))%Z ->
  centerline_column g idx = Returned (plain_column g (Z.to_nat idx)).
Proof.
  intros Hal Hidx. unfold centerline_column, plain_column.
  pose proof (centerline_at_in_range g 0 idx Hal ltac:(lia) Hidx) as H0.
  pose proof (centerline_at_in_range g 1 idx Hal ltac:(lia) Hidx) as H1.
  pose proof (centerline_at_in_range g 2 idx Hal ltac:(lia) Hidx) as H2.
  unfold centerline_at in H0, H1, H2. rewrite H0, H1, H2. reflexivity.
Qed.

Lemma export_centerline_aligned (g : geometry) (centerline_mode : string) :
  aligned g -> (1 <= List.length (phi g))%nat ->
  let ks := map Z.to_nat (centerline_samples (List.length (phi g))) in
  export_centerline g centerline_mode
  = Returned (map (scaled_column g centerline_mode) ks)
  /\ simple_centerline g = Returned (map (plain_column g) ks)
  /\ List.length ks = 100%nat
  /\ nth 0 ks 0%nat = 0%nat
  /\ nth 99 ks 0%nat = (List.length (phi g) - 1)%nat
  /\ (forall i j, (i <= j < 100)%nat -> (nth i ks 0 <= nth j ks 0)%nat)
  /\ Forall (fun k => (k < List.length (phi g))%nat) ks.
Proof.
  intros Hal Hlen ks.
  destruct (centerline_samples_spec (List.length (phi g)) Hlen)
    as (Hl & Hfirst & Hlast & Hmono & Hrange).
  assert (Hnth : forall i, (i < 100)%nat ->
             nth i ks 0%nat
             = Z.to_nat (nth i (centerline_samples (List.length (phi g))) 0%Z)).
  { intros i Hi. unfold ks. apply (nth_map_in _ _ _ 0%Z). rewrite Hl. exact Hi. }
  split; [|split; [|split; [|split; [|split; [|split]]]]].
  - unfold export_centerline. rewrite (Hal 0%nat) by lia.
    rewrite linspace_returns by lia. cbn [bind].
    fold (centerline_samples (List.length (phi g))).
    unfold ks. rewrite map_map. apply map_each_ext.
    intros idx Hin. apply centerline_row_in_range; [exact Hal | apply Hrange, Hin].
  - unfold simple_centerline. rewrite (Hal 0%nat) by lia.
    rewrite linspace_returns by lia. cbn [bind].
    fold (centerline_samples (List.length (phi g))).
    unfold ks. rewrite map_map. apply map_each_ext.
    intros idx Hin. apply centerline_column_in_range; [exact Hal | apply Hrange, Hin].
  - unfold ks. rewrite length_map. exact Hl.
  - rewrite Hnth by lia. rewrite Hfirst. reflexivity.
  - rewrite Hnth by lia. rewrite Hlast. lia.
  - intros i j Hij. rewrite !Hnth by lia.
    apply Z2Nat.inj_le.
    + apply Hrange, nth_In. rewrite Hl. lia.
    + apply Hrange, nth_In. rewrite Hl. lia.
    + apply Hmono, Hij.
  - apply Forall_forall. intros k Hk. unfold ks in Hk.
    apply in_map_iff in Hk. destruct Hk as (idx & <- & Hin).
    apply Hrange in Hin. lia.
Qed.

(** Without a column there is no first line: the index 0 is looked up
    along the second axis of the empty centre line array. *)
Lemma export_centerline_empty (g : geometry) (centerline_mode : string) :
  centerline g = [[]; []; []] ->
  export_centerline g centerline_mode = Raised (IndexError (OutOfBounds 0 1 0))
  /\ simple_centerline g = Raised (IndexError (OutOfBounds 0 1 0)).
Proof.
  intros Hc. unfold export_centerline, simple_centerline. rewrite Hc.
  cbn [nth List.length Z.of_nat].
  rewrite linspace_returns by lia. cbn [bind].
  destruct (spaced_from_zero (IZR (0 - 1)) 100 ltac:(lia)) as (rest & ->).
  cbn [map]. rewrite (ZfloorZ 0). split; apply map_each_first_raises.
  - unfold centerline_row, centerline_at. rewrite Hc. cbn [nth].
    rewrite index_axis_empty. reflexivity.
  - unfold centerline_column. rewrite Hc. cbn [nth].
    rewrite index_axis_empty. reflexivity.
Qed.

End CenterlineSamples.

(** X18: the exported centre line.  For a positive resolution and a
    positive total angle the centre line part of [export_csv] raises nothing
    and writes 100 points; they are columns of the centre line taken in
    ascending order, the first being column 0 and the last the last column, in
    centimetres, with [z = 0] in every mode other than "3D".  The simple export
    script writes the same columns in millimetres with their height. *)
Theorem export_centerline_points (self : model) (resolution : R)
  (centerline_mode : string) :
  (0 < resolution)%R -> (0 < c_length self)%R ->
  exists (g : geometry) (ks : list nat),
    generate_geometry self resolution = Returned g
    /\ export_centerline g centerline_mode
       = Returned (map (scaled_column g centerline_mode) ks)
    /\ simple_centerline g = Returned (map (plain_column g) ks)
    /\ List.length ks = 100%nat
    /\ nth 0 ks 0%nat = 0%nat
    /\ nth 99 ks 0%nat = (List.length (phi g) - 1)%nat
    /\ (forall i j, (i <= j < 100)%nat -> (nth i ks 0 <= nth j ks 0)%nat)
    /\ Forall (fun k => (k < List.length (phi g))%nat) ks.
Proof.
  intros Hres Hc.
  assert (Hres' : resolution <> 0%R) by rlra.
  destruct (generate_geometry_returns self resolution Hres')
    as (sx & sy & sz & Hg & _).
  match type of Hg with _ = Returned ?G => set (g := G) in * end.
  assert (Hlen : (1 <= List.length (phi g))%nat).
  { apply samples_first; assumption. }
  exists g, (map Z.to_nat (centerline_samples (List.length (phi g)))).
  split; [exact Hg|].
  apply (export_centerline_aligned g centerline_mode
           (generated_aligned _ _ _ Hres' Hg) Hlen).
Qed.

(** X18 on the mean model at the resolution of [export_all], in the 2D
    mode. *)
Lemma export_centerline_points_witness :
  exists (g : geometry) (ks : list nat),
    generate_geometry mean_model 0.05 = Returned g
    /\ export_centerline g "2D" = Returned (map (scaled_column g "2D") ks)
    /\ List.length ks = 100%nat.
Proof.
  destruct (export_centerline_points mean_model 0.05 "2D")
    as (g & ks & Hg & Hexp & _ & Hlen & _).
  - rlra.
  - exact (c_length_positive _ mean_in_bounds).
  - exists g, ks. split; [exact Hg|]. split; [exact Hexp | exact Hlen].
Defined.



(* ===================================================================== *)
(** * The export options *)
(* ===================================================================== *)

Module ExportOptions.

(** What a loop around [input()] ends with: an answer and the lines that are
    left on the standard input, or the EOFError of [input()] when the lines
    run out. *)
Inductive asked (T : Type) : Type :=
| Answered (value : T) (rest : list string)
| EOFError.

Arguments Answered {T} value rest.
Arguments EOFError {T}.

Section Input.

(** [str.strip] and [int] on a string ([None] for its ValueError). *)
Variable strip : string -> string.
Variable py_int : string -> option Z.

(** The loop [while True: choice = input(...).strip() ...] of [export_all]
    over the lines of the standard input. *)
Fixpoint ask_centerline_mode (inputs : list string) : asked string :=
  match inputs with
  | [] => EOFError
  | line :: inputs =>
      let choice := strip line in
      if String.eqb choice "1" then Answered "3D" inputs
      else if String.eqb choice "2" then Answered "2D" inputs
      else ask_centerline_mode inputs
  end.

(** The loop that asks for the number of cross sections. *)
Fixpoint ask_num_cross_sections (inputs : list string) : asked Z :=
  match inputs with
  | [] => EOFError
  | line :: inputs =>
      let num_input := strip line in
      if String.eqb num_input "" then Answered 5%Z inputs
      else
        match py_int num_input with
        | Some num_cross_sections =>
            if ((2 <=? num_cross_sections) && (num_cross_sections <=? 20))%Z%bool
            then Answered num_cross_sections inputs
            else ask_num_cross_sections inputs
        | None => ask_num_cross_sections inputs
        end
  end.

(** The points of [export_csv]: the centre line, then the rings.  The files
    they are written to are outside the model. *)
Definition export_csv (self : model) (g : geometry) (centerline_mode : string)
  (num_cross_sections : Z) : outcome (list vec3 * list (option (list vec3))) :=
  (centerline_data <- export_centerline g centerline_mode ;;
   cross_sections <- export_cross_sections self g centerline_mode num_cross_sections ;;
   Returned (centerline_data, cross_sections))%py.

(** [export_all]: the two questions, the geometry at the resolution 0.05,
    the points of [export_csv]. *)
Definition export_all (self : model) (inputs : list string)
  : asked (outcome (list vec3 * list (option (list vec3)))) :=
  match ask_centerline_mode inputs with
  | EOFError => EOFError
  | Answered centerline_mode inputs =>
      match ask_num_cross_sections inputs with
      | EOFError => EOFError
      | Answered num_cross_sections inputs =>
          Answered
            (geometry <- generate_geometry self 0.05 ;;
             export_csv self geometry centerline_mode num_cross_sections)%py
            inputs
      end
  end.

End Input.

End ExportOptions.

Import ExportOptions.

Section Answers.

Variable strip : string -> string.
Variable py_int : string -> option Z.

(** A line that does not answer the first question. *)
Definition no_mode (line : string) : Prop :=
  strip line <> "1"%string /\ strip line <> "2"%string.

(** A line that does not answer the second question. *)
Definition no_count (line : string) : Prop :=
  strip line <> ""%string
  /\ forall n, py_int (strip line) = Some n -> ~ (2 <= n <= 20)%Z.

Lemma ask_centerline_mode_answered (inputs : list string) (mode : string)
  (rest : list string) :
  ask_centerline_mode strip inputs = Answered mode rest ->
  exists (skipped : list string) (line : string),
    inputs = (skipped ++ line :: rest)%list
    /\ Forall no_mode skipped
    /\ ((strip line = "1"%string /\ mode = "3D"%string)
        \/ (strip line = "2"%string /\ mode = "2D"%string)).
Proof.
  induction inputs as [|l inputs IH]; cbn [ask_centerline_mode]; [discriminate|].
  destruct (String.eqb_spec (strip l) "1") as [H1|H1].
  - intros H. inversion H; subst. exists [], l. repeat split; auto.
  - destruct (String.eqb_spec (strip l) "2") as [H2|H2].
    + intros H. inversion H; subst. exists [], l. repeat split; auto.
    + intros H. destruct (IH H) as (skipped & line & -> & Hs & Hl).
      exists (l :: skipped), line. repeat split; auto.
      constructor; [split; assumption | exact Hs].
Qed.

Lemma ask_centerline_mode_eof (inputs : list string) :
  ask_centerline_mode strip inputs = EOFError <-> Forall no_mode inputs.
Proof.
  induction inputs as [|l inputs IH]; cbn [ask_centerline_mode].
  - split; [constructor | reflexivity].
  - destruct (String.eqb_spec (strip l) "1") as [H1|H1].
    { split; [discriminate|]. intros H. inversion H as [|? ? [Hn _] _]. contradiction. }
    destruct (String.eqb_spec (strip l) "2") as [H2|H2].
    { split; [discriminate|]. intros H. inversion H as [|? ? [_ Hn] _]. contradiction. }
    rewrite IH. split.
    + intros H. constructor; [split; assumption | exact H].
    + intros H. inversion H. assumption.
Qed.

Lemma ask_num_cross_sections_answered (inputs : list string) (n : Z)
  (rest : list string) :
  ask_num_cross_sections strip py_int inputs = Answered n rest ->
  exists (skipped : list string) (line : string),
    inputs = (skipped ++ line :: rest)%list
    /\ Forall no_count skipped
    /\ ((strip line = ""%string /\ n = 5%Z)
        \/ (strip line <> ""%string /\ py_int (strip line) = Some n
            /\ (2 <= n <= 20)%Z)).
Proof.
  induction inputs as [|l inputs IH]; cbn [ask_num_cross_sections]; [discriminate|].
  assert (Hskip : no_count l ->
            ask_num_cross_sections strip py_int inputs = Answered n rest ->
            exists (skipped : list string) (line : string),
              l :: inputs = (skipped ++ line :: rest)%list
              /\ Forall no_count skipped
              /\ ((strip line = ""%string /\ n = 5%Z)
                  \/ (strip line <> ""%string /\ py_int (strip line) = Some n
                      /\ (2 <= n <= 20)%Z))).
  { intros Hl H. destruct (IH H) as (skipped & line & -> & Hs & Hline).
    exists (l :: skipped), line. repeat split; auto. }
  destruct (String.eqb_spec (strip l) "") as [He|He].
  - intros H. inversion H; subst. exists [], l. repeat split; auto.
  - destruct (py_int (strip l)) as [m|] eqn:Hm.
    + destruct (Z.leb_spec 2 m) as [Hlo|Hlo]; cbn [andb].
      * destruct (Z.leb_spec m 20) as [Hhi|Hhi].
        -- intros H. inversion H; subst. exists [], l.
           split; [reflexivity|]. split; [constructor|]. right. repeat split; auto.
        -- apply Hskip. split; [exact He|]. intros k Hk.
           rewrite Hm in Hk. inversion Hk; subst. lia.
      * apply Hskip. split; [exact He|]. intros k Hk.
        rewrite Hm in Hk. inversion Hk; subst. lia.
    + apply Hskip. split; [exact He|]. intros k Hk.
      rewrite Hm in Hk. discriminate.
Qed.

Lemma ask_num_cross_sections_eof (inputs : list string) :
  Forall no_count inputs -> ask_num_cross_sections strip py_int inputs = EOFError.
Proof.
  induction inputs as [|l inputs IH]; intros H; cbn [ask_num_cross_sections];
    [reflexivity|].
  inversion H as [|? ? [He Hr] Hrest]; subst.
  destruct (String.eqb_spec (strip l) ""); [contradiction|].
  destruct (py_int (strip l)) as [m|] eqn:Hm; [|apply IH, Hrest].
  destruct (Z.leb_spec 2 m); cbn [andb]; [|apply IH, Hrest].
  destruct (Z.leb_spec m 20); [|apply IH, Hrest].
  exfalso. apply (Hr m eq_refl). lia.
Qed.

End Answers.

(** X20: the options that [export_all] asks for.  The first loop skips
    every line that is not 1 or 2 after stripping and answers "3D" for 1 and
    "2D" for 2; the second loop skips every line that is neither blank nor an
    integer between 2 and 20 and answers 5 for a blank line.  So the mode is
    always "3D" or "2D" and the count always between 2 and 20, and either loop
    ends with the EOFError of [input()] when no line answers it. *)
Theorem export_options_range (strip : string -> string)
  (py_int : string -> option Z) (inputs : list string) :
  (forall mode rest,
      ask_centerline_mode strip inputs = Answered mode rest ->
      (mode = "3D" \/ mode = "2D")
      /\ exists (skipped : list string) (line : string),
           inputs = (skipped ++ line :: rest)%list
           /\ Forall (no_mode strip) skipped
           /\ strip line = (if String.eqb mode "3D" then "1" else "2"))
  /\ (ask_centerline_mode strip inputs = EOFError
      <-> Forall (no_mode strip) inputs)
  /\ (forall n rest,
        ask_num_cross_sections strip py_int inputs = Answered n rest ->
        (2 <= n <= 20)%Z
        /\ exists (skipped : list string) (line : string),
             inputs = (skipped ++ line :: rest)%list
             /\ Forall (no_count strip py_int) skipped
             /\ (strip line = "" -> n = 5%Z)
             /\ (strip line <> "" -> py_int (strip line) = Some n))
  /\ (Forall (no_count strip py_int) inputs ->
      ask_num_cross_sections strip py_int inputs = EOFError).
Proof.
  split; [|split; [|split]].
  - intros mode rest H.
    destruct (ask_centerline_mode_answered strip inputs mode rest H)
      as (skipped & line & Hin & Hs & [[Hl ->] | [Hl ->]]).
    + split; [left; reflexivity|]. exists skipped, line. repeat split; assumption.
    + split; [right; reflexivity|]. exists skipped, line. repeat split; assumption.
  - apply ask_centerline_mode_eof.
  - intros n rest H.
    destruct (ask_num_cross_sections_answered strip py_int inputs n rest H)
      as (skipped & line & Hin & Hs & [[Hl ->] | (Hl & Hn & Hr)]).
    + split; [lia|]. exists skipped, line. repeat split; auto.
      intros Hne. contradiction.
    + split; [exact Hr|]. exists skipped, line. repeat split; auto.
      intros He. contradiction.
  - apply ask_num_cross_sections_eof.
Qed.

(** X21: [export_all] on a valid model.  Whatever the lines of the standard
    input are, once both questions are answered the geometry and the points of
    [export_csv] are computed without an exception: the centre line has 100
    points and there are as many rings as were asked for, between 2 and 20.
    With a line 1 or 2 followed by a blank line the questions are answered at
    once, with five rings. *)
Theorem export_all_writes (strip : string -> string) (py_int : string -> option Z)
  (parameters : list Q) (inputs : list string) :
  in_bounds parameters ->
  (forall result rest,
      export_all strip py_int (derived parameters) inputs = Answered result rest ->
      exists centerline_data cross_sections,
        result = Returned (centerline_data, cross_sections)
        /\ List.length centerline_data = 100%nat
        /\ (2 <= List.length cross_sections <= 20)%nat)
  /\ (forall first blank rest,
        strip first = "1" \/ strip first = "2" -> strip blank = "" ->
        exists centerline_data cross_sections,
          export_all strip py_int (derived parameters) (first :: blank :: rest)
          = Answered (Returned (centerline_data, cross_sections)) rest
          /\ List.length cross_sections = 5%nat).
Proof.
  intros Hb.
  assert (Hcsv : forall mode n, (0 <= n)%Z ->
             exists centerline_data cross_sections,
               (geometry <- generate_geometry (derived parameters) 0.05 ;;
                export_csv (derived parameters) geometry mode n)%py
               = Returned (centerline_data, cross_sections)
               /\ List.length centerline_data = 100%nat
               /\ List.length cross_sections = Z.to_nat n).
  { intros mode n Hn.
    assert (Hres : (0.05 <> 0)%R) by rlra.
    destruct (generate_geometry_returns (derived parameters) 0.05 Hres)
      as (sx & sy & sz & Hg & _).
    match type of Hg with _ = Returned ?G => set (g := G) in * end.
    assert (Hlen : (1 <= List.length (phi g))%nat).
    { apply samples_first; [rlra | apply c_length_positive, Hb]. }
    pose proof (generated_aligned _ _ _ Hres Hg) as Hal.
    destruct (export_centerline_aligned g mode Hal Hlen) as (Hc & _ & Hl & _).
    destruct (export_cross_sections_returns (derived parameters) g mode n Hal Hlen Hn)
      as (rings & Hr & Hrl).
    rewrite Hg. cbn [bind]. unfold export_csv. rewrite Hc, Hr. cbn [bind].
    eexists. eexists. split; [reflexivity|].
    split; [rewrite length_map; exact Hl | exact Hrl]. }
  split.
  - intros result rest H. unfold export_all in H.
    destruct (ask_centerline_mode strip inputs) as [mode inputs1|] eqn:Hmode;
      [|discriminate H].
    destruct (ask_num_cross_sections strip py_int inputs1) as [n inputs2|] eqn:Hnum;
      [|discriminate H].
    inversion H; subst result rest; clear H.
    destruct (ask_num_cross_sections_answered strip py_int inputs1 n inputs2 Hnum)
      as (skipped & line & _ & _ & Hn).
    assert (Hrange : (2 <= n <= 20)%Z) by (destruct Hn as [[_ ->] | (_ & _ & H)]; lia).
    destruct (Hcsv mode n ltac:(lia)) as (cd & cs & Hret & Hl & Hcs).
    exists cd, cs. split; [exact Hret|]. split; [exact Hl|]. rewrite Hcs. lia.
  - intros first blank rest Hfirst Hblank.
    unfold export_all. cbn [ask_centerline_mode ask_num_cross_sections].
    destruct Hfirst as [Hf|Hf]; rewrite Hf;
      [change (String.eqb "1" "1") with true
      |change (String.eqb "2" "1") with false; change (String.eqb "2" "2") with true];
      cbv iota; cbn [ask_num_cross_sections]; rewrite Hblank;
      change (String.eqb "" "") with true; cbv iota.
    + destruct (Hcsv "3D"%string 5%Z ltac:(lia)) as (cd & cs & Hret & _ & Hcs).
      exists cd, cs. rewrite Hret. split; [reflexivity | exact Hcs].
    + destruct (Hcsv "2D"%string 5%Z ltac:(lia)) as (cd & cs & Hret & _ & Hcs).
      exists cd, cs. rewrite Hret. split; [reflexivity | exact Hcs].
Qed.

(** X21 on the mean shape, with the answers 1 and a blank line. *)
Lemma export_all_writes_witness :
  exists centerline_data cross_sections,
    export_all (fun line => line) (fun _ => None)
      (derived [5.97; 3.95; 3.26; 2.85]%Q) ["1"; ""]%string
    = Answered (Returned (centerline_data, cross_sections)) []
    /\ List.length cross_sections = 5%nat.
Proof.
  destruct (export_all_writes (fun line => line) (fun _ => None)
              [5.97; 3.95; 3.26; 2.85]%Q ["1"; ""]%string mean_in_bounds)
    as [_ H].
  apply (H "1" "" [])%string; [left; reflexivity | reflexivity].
Defined.

(* ===================================================================== *)
(** * main.py *)
(* ===================================================================== *)

Module Main.

(** How [main] ends: [sys.exit(code)] out of [parser.error], or the value it
    returns. *)
Inductive status : Type :=
| Exit (code : Z)
| Return (code : Z).

(** The arguments that matter before the model exists. *)
Record arguments : Type := {
  arg_mode : string;
  arg_parameters : option (list Q)
}.

Section Run.

(** What follows the construction of the model inside the [try] block, the
    plots, the export and the statistics: whether it completes without an
    exception. *)
Variable run : model -> rng -> bool.

Definition main (args : arguments) (g : rng) : status :=
  (* argparse: choices=['mean', 'random', 'custom'], nargs=4 *)
  if negb (existsb (String.eqb (arg_mode args)) ["mean"; "random"; "custom"]%string)
  then Exit 2
  else if match arg_parameters args with
          | Some parameters => negb (Nat.eqb (List.length parameters) 4)
          | None => false
          end
  then Exit 2
  else if String.eqb (arg_mode args) "custom"
          && match arg_parameters args with None => true | Some _ => false end
  then Exit 2
  else if negb (String.eqb (arg_mode args) "custom")
          && match arg_parameters args with None => false | Some _ => true end
  then Exit 2
  else
    let created :=
      if String.eqb (arg_mode args) "custom"
      then init (arg_parameters args) "mean" g
      else init None (arg_mode args) g in
    match created with
    | (Returned model, g) => if run model g then Return 0 else Return 1
    | (Raised _, _) => Return 1
    end.

End Run.

End Main.

Import Main.

(** X22: the status of [main].  The run can end with the status 0 only
    with a model of the "mean" or "random" mode without parameters, or with
    four custom parameters inside the anatomical ranges; custom parameters of
    which one is outside its range give the status 1 whatever the rest of the
    run would do; in the modes "mean" and "random" the model is always created,
    so that the status is decided by the rest of the run alone. *)
Theorem main_status (run : model -> rng -> bool) (args : arguments) (g : rng) :
  (main run args g = Return 0 ->
   exists m g',
     run m g' = true
     /\ ((arg_mode args = "custom"
          /\ exists ps, arg_parameters args = Some ps /\ in_bounds ps
                        /\ m = derived ps /\ g' = g)
         \/ ((arg_mode args = "mean" \/ arg_mode args = "random")
             /\ arg_parameters args = None
             /\ init None (arg_mode args) g = (Returned m, g'))))
  /\ (forall ps,
        arg_mode args = "custom" -> arg_parameters args = Some ps ->
        List.length ps = 4%nat -> ~ in_bounds ps ->
        main run args g = Return 1)
  /\ (arg_mode args = "mean" \/ arg_mode args = "random" ->
      arg_parameters args = None ->
      exists m g',
        init None (arg_mode args) g = (Returned m, g')
        /\ main run args g = Return (if run m g' then 0 else 1))
  /\ (arg_mode args = "custom" -> arg_parameters args = None ->
      main run args g = Exit 2).
Proof.
  destruct args as [mode parameters]. cbn [arg_mode arg_parameters].
  split; [|split; [|split]].
  - unfold main. cbn [arg_mode arg_parameters existsb].
    destruct (String.eqb_spec mode "custom") as [->|Hc].
    + change (String.eqb "custom" "mean") with false.
      change (String.eqb "custom" "random") with false. cbn [orb negb andb].
      destruct parameters as [ps|]; [|discriminate].
      destruct (Nat.eqb (List.length ps) 4); cbn [negb]; [|discriminate].
      unfold init.
      destruct (validate_parameters ps) as [b|e] eqn:Hv; [|discriminate].
      assert (Hb : in_bounds ps).
      { apply validate_parameters_iff.
        destruct (validate_parameters_total ps) as [Ht|[e He]];
          [exact Ht | rewrite He in Hv; discriminate Hv]. }
      destruct (run (derived ps) g) eqn:Hrun; [|discriminate].
      intros _. exists (derived ps), g. split; [exact Hrun|].
      left. split; [reflexivity|]. exists ps. repeat split. exact Hb.
    + rewrite !orb_false_r. cbn [negb andb].
      destruct (String.eqb_spec mode "mean") as [Hm|Hm];
        destruct (String.eqb_spec mode "random") as [Hr|Hr]; cbn [orb negb];
        try discriminate;
        (destruct parameters as [ps|];
         [destruct (Nat.eqb (List.length ps) 4); cbn [negb]; discriminate|]);
        (destruct (init None mode g) as [[m|e] g'] eqn:Hi; [|discriminate]);
        (destruct (run m g') eqn:Hrun; [|discriminate]);
        intros _; exists m, g'; (split; [exact Hrun|]);
        right; repeat split; auto.
  - intros ps -> -> Hlen Hnb. unfold main. cbn [arg_mode arg_parameters existsb].
    change (String.eqb "custom" "mean") with false.
    change (String.eqb "custom" "random") with false.
    change (String.eqb "custom" "custom") with true.
    cbn [orb negb andb]. rewrite Hlen. cbn [Nat.eqb negb].
    unfold init.
    destruct (validate_parameters ps) as [b|e] eqn:Hv; [|reflexivity].
    exfalso. apply Hnb, validate_parameters_iff.
    destruct (validate_parameters_total ps) as [Ht|[e He]];
      [exact Ht | rewrite He in Hv; discriminate Hv].
  - intros Hmode ->.
    assert (Hinit : exists m g', init None mode g = (Returned m, g')).
    { unfold init. destruct Hmode as [-> | ->].
      - eexists. eexists. reflexivity.
      - rewrite generate_parameters_random. eexists. eexists. reflexivity. }
    destruct Hinit as (m & g' & Hi). exists m, g'. split; [exact Hi|].
    unfold main. cbn [arg_mode arg_parameters existsb].
    destruct Hmode as [-> | ->].
    + change (String.eqb "mean" "mean") with true.
      change (String.eqb "mean" "custom") with false. cbn [orb negb andb].
      rewrite Hi. destruct (run m g'); reflexivity.
    + change (String.eqb "random" "mean") with false.
      change (String.eqb "random" "random") with true.
      change (String.eqb "random" "custom") with false. cbn [orb negb andb].
      rewrite Hi. destruct (run m g'); reflexivity.
  - intros -> ->. reflexivity.
Qed.

(* ===================================================================== *)
(** * The tube radius on every path *)
(* ===================================================================== *)

Section TubeRadiusPaths.

Local Open Scope R_scope.

(** A resolution below the total angle gives at least two samples. *)
Lemma two_samples (c resolution : R) :
  0 < resolution < c -> (2 <= List.length (samples 0 c resolution))%nat.
Proof.
  intros [Hres Hc].
  assert (Hq : 1 < c / resolution).
  { apply (Rmult_lt_reg_r resolution); [exact Hres|].
    unfold Rdiv. rewrite Rmult_assoc, Rinv_l, Rmult_1_r by rlra. rlra. }
  rewrite samples_length, Rminus_0_r.
  destruct (Zceil_bound (c / resolution)) as [_ Hhi].
  assert (H2 : (1 < Zceil (c / resolution))%Z) by (apply lt_IZR; rlra).
  lia.
Qed.

(** The half-curve sections of a generated geometry. *)
Lemma generated_cross_sections (self : model) (resolution : R) (num_sections : Z) :
  0 < resolution < c_length self -> (0 <= num_sections)%Z ->
  exists (g : geometry) (sections : list section),
    generate_geometry self resolution = Returned g
    /\ generate_cross_sections self (Some g) num_sections = Returned sections
    /\ List.length sections = Z.to_nat num_sections
    /\ Forall (fun s =>
                 In (section_phi s) (phi g)
                 /\ radius s = tube_radius (c_length self) (section_phi s)
                 /\ points s
                    = map (fun angle =>
                             let r := tube_radius (c_length self) (section_phi s) in
                             (fst (fst (center s)) + r * (cos angle - 1) * cos (section_phi s),
                              snd (fst (center s)) + r * (cos angle - 1) * sin (section_phi s),
                              snd (center s) + r * sin angle))
                          (spaced 0 (2 * PI) 17))
              sections.
Proof.
  intros Hres Hn.
  assert (Hne : resolution <> 0) by rlra.
  destruct (generate_geometry_returns self resolution Hne) as (sx & sy & sz & Hg & _).
  pose proof (generated_aligned self resolution _ Hne Hg) as Hal.
  match type of Hg with _ = Returned ?G => set (g := G) in * end.
  assert (Hlen2 : (2 <= List.length (phi g))%nat) by (apply two_samples, Hres).
  exists g.
  unfold generate_cross_sections. cbn [bind].
  rewrite linspace_returns by exact Hn. cbn [bind].
  destruct (map_each_returns (cross_section self g)
              (fun s =>
                 In (section_phi s) (phi g)
                 /\ radius s = tube_radius (c_length self) (section_phi s)
                 /\ points s
                    = map (fun angle =>
                             let r := tube_radius (c_length self) (section_phi s) in
                             (fst (fst (center s)) + r * (cos angle - 1) * cos (section_phi s),
                              snd (fst (center s)) + r * (cos angle - 1) * sin (section_phi s),
                              snd (center s) + r * sin angle))
                          (spaced 0 (2 * PI) 17))
              (map Zfloor (spaced 0 (IZR (Z.of_nat (List.length (phi g)) / 2 - 1))
                                  num_sections)))
    as (sections & Hm & Hlens & Hall).
  { intros idx Hidx. apply in_map_iff in Hidx. destruct Hidx as (x & <- & Hx).
    destruct (first_half_index _ _ _ Hlen2 Hx) as [Hrange _].
    destruct (cross_section_at self g (Zfloor x) Hal Hrange) as (s & Hs & Hsp & _).
    exists s. split; [exact Hs|].
    destruct (cross_section_radius self g (Zfloor x) s Hs)
      as (_ & _ & Hr & angles & Ha & Hpts).
    split; [rewrite Hsp; apply nth_In; lia|].
    split; [exact Hr|].
    rewrite linspace_returns in Ha by lia. inversion Ha; subst angles. exact Hpts. }
  exists sections. split; [exact Hg|]. split; [exact Hm|]. split; [|exact Hall].
  rewrite Hlens, length_map, spaced_length. reflexivity.
Qed.

(** Every unit tangent has a frame. *)
Lemma frame_exists (tangent : vec3) :
  norm tangent = 1 -> exists perp1 perp2, frame tangent = Some (perp1, perp2).
Proof.
  intros Hn.
  assert (Hu : vdot tangent tangent = 1) by (apply norm_unit_iff, Hn).
  destruct tangent as [[x y] z]. unfold frame. cbn in Hu.
  destruct (Rlt_dec (Rabs z) 0.9) as [Hz|Hz].
  - destruct (frame_of_unit (x, y, z) (0, 0, 1)) as (H1 & H2 & _).
    { apply norm_unit_iff, Hn. }
    { cbn. apply Rabs_def2 in Hz. Lra.nra. }
    cbv zeta in H1, H2. rewrite H1, H2. eexists. eexists. reflexivity.
  - destruct (frame_of_unit (x, y, z) (1, 0, 0)) as (H1 & H2 & _).
    { apply norm_unit_iff, Hn. }
    { cbn. apply Rnot_lt_le in Hz.
      assert (Hzz : 0.81 <= z * z).
      { unfold Rabs in Hz. destruct (Rcase_abs z); Lra.nra. }
      Lra.nra. }
    cbv zeta in H1, H2. rewrite H1, H2. eexists. eexists. reflexivity.
Qed.

(** A vector with a [y] coordinate other than zero can be normalised, and
    its direction has a frame. *)
Lemma frame_of_direction (x y z : R) :
  y <> 0 ->
  exists tangent perp1 perp2,
    normalized (x, y, z) = Some tangent
    /\ frame tangent = Some (perp1, perp2)
    /\ norm perp1 = 1 /\ norm perp2 = 1.
Proof.
  intros Hy.
  assert (Hv : vdot (x, y, z) (x, y, z) <> 0).
  { cbn. assert (0 < y * y) by Lra.nra. Lra.nra. }
  destruct (normalized_unit (x, y, z) Hv) as [Hn Hu].
  destruct (frame_exists (vscale (/ norm (x, y, z)) (x, y, z)))
    as (perp1 & perp2 & Hf).
  { apply norm_unit_iff, Hu. }
  destruct (frame_some_units _ _ _ Hf) as [H1 H2].
  eexists. exists perp1, perp2. split; [exact Hn|]. split; [exact Hf|].
  split; assumption.
Qed.

(** The first ring of the export on a generated geometry: the position 0
    selects the sample 0, the tangent runs from the sample 0 to the sample 1,
    and its [y] coordinate is [r(resolution) * sin(resolution)]. *)
Lemma export_first_ring (self : model) (resolution : R) (centerline_mode : string)
  (g : geometry) :
  0 < resolution < c_length self -> resolution < PI ->
  _radius_modiolus_poly self resolution <> 0 ->
  generate_geometry self resolution = Returned g ->
  exists perp1 perp2,
    norm perp1 = 1 /\ norm perp2 = 1
    /\ export_cross_section self g centerline_mode 0
       = Returned (Some (ring centerline_mode (plain_column g 0)
                             (tube_radius (c_length self) 0) perp1 perp2
                             (spaced 0 (2 * PI) 61))).
Proof.
  intros Hres Hpi Hr Hg.
  assert (Hne : resolution <> 0) by rlra.
  pose proof (generated_aligned self resolution g Hne Hg) as Hal.
  destruct (generate_geometry_returns self resolution Hne) as (sx & sy & sz & Hg' & _).
  rewrite Hg' in Hg.
  assert (Hphi : phi g = samples 0 (c_length self) resolution)
    by (inversion Hg; reflexivity).
  assert (Hcl : centerline g
                = [ map (fun p => _radius_modiolus_poly self p * cos p)
                        (samples 0 (c_length self) resolution);
                    map (fun p => _radius_modiolus_poly self p * sin p)
                        (samples 0 (c_length self) resolution);
                    map (_height_poly self) (samples 0 (c_length self) resolution) ])
    by (inversion Hg; reflexivity).
  clear Hg Hg'.
  assert (Hlen2 : (2 <= List.length (phi g))%nat)
    by (rewrite Hphi; apply two_samples, Hres).
  assert (Hp0 : nth 0 (phi g) 0 = 0).
  { rewrite Hphi, samples_nth by (rewrite <- Hphi; lia). cbn [INR]. ring. }
  assert (Hp1 : nth 1 (phi g) 0 = resolution).
  { rewrite Hphi, samples_nth by (rewrite <- Hphi; lia). cbn [INR]. ring. }
  assert (Hy0 : get2 (centerline g) 1 0 = 0).
  { unfold get2. rewrite Hcl. cbn [nth].
    rewrite (nth_map_in _ _ _ 0) by (rewrite <- Hphi; lia).
    rewrite <- Hphi, Hp0, sin_0. ring. }
  assert (Hy1 : get2 (centerline g) 1 1 = _radius_modiolus_poly self resolution * sin resolution).
  { unfold get2. rewrite Hcl. cbn [nth].
    rewrite (nth_map_in _ _ _ 0) by (rewrite <- Hphi; lia).
    rewrite <- Hphi, Hp1. reflexivity. }
  assert (Hdy : get2 (centerline g) 1 1 - get2 (centerline g) 1 0 <> 0).
  { rewrite Hy0, Hy1, Rminus_0_r.
    apply Rmult_integral_contrapositive_currified; [exact Hr|].
    apply Rgt_not_eq, sin_gt_0; rlra. }
  unfold export_cross_section.
  rewrite Rmult_0_l, to_int_zero.
  rewrite (index_in_range (phi g) 0 0) by lia.
  rewrite !(centerline_at_in_range g _ 0 Hal) by lia.
  cbn [bind].
  assert (Hlt : (0 <? Z.of_nat (List.length (phi g)) - 1)%Z = true)
    by (apply Z.ltb_lt; lia).
  rewrite Hlt.
  rewrite !(centerline_at_in_range g _ (0 + 1) Hal) by lia.
  rewrite !(centerline_at_in_range g _ 0 Hal) by lia.
  change (Z.to_nat (0 + 1)) with 1%nat. change (Z.to_nat 0) with 0%nat.
  cbn [bind].
  rewrite (linspace_returns 0 (2 * PI) (60 + 1)) by lia.
  change (60 + 1)%Z with 61%Z.
  rewrite Hp0. fold (tube_radius (c_length self) 0). fold (plain_column g 0).
  destruct (String.eqb centerline_mode "3D"); cbn [bind];
    match goal with
    | |- context [normalized (?x, ?y, ?z)] =>
        destruct (frame_of_direction x y z Hdy)
          as (tangent & perp1 & perp2 & Hn & Hf & H1 & H2)
    end;
    rewrite Hn, Hf; exists perp1, perp2;
    (split; [exact H1|]); (split; [exact H2 | reflexivity]).
Qed.

Lemma map_each_head {T U : Type} (f : T -> outcome U) (x : T) (xs : list T)
  (y : U) (ys : list U) (d : U) :
  f x = Returned y -> map_each f (x :: xs) = Returned ys -> nth 0 ys d = y.
Proof.
  intros Hx H. cbn [map_each] in H. rewrite Hx in H. cbn [bind] in H.
  destruct (map_each f xs) as [rest|e]; cbn [bind] in H; [|discriminate H].
  inversion H. reflexivity.
Qed.

(** The rings of the export on a generated geometry. *)
Lemma generated_rings (self : model) (resolution : R) (centerline_mode : string)
  (num_cross_sections : Z) :
  0 < resolution -> 0 < c_length self -> (0 <= num_cross_sections)%Z ->
  exists (g : geometry) (rings : list (option (list vec3))),
    generate_geometry self resolution = Returned g
    /\ export_cross_sections self g centerline_mode num_cross_sections = Returned rings
    /\ List.length rings = Z.to_nat num_cross_sections
    /\ ((1 <= num_cross_sections)%Z ->
        resolution < c_length self -> resolution < PI ->
        _radius_modiolus_poly self resolution <> 0 ->
        exists perp1 perp2,
          norm perp1 = 1 /\ norm perp2 = 1
          /\ nth 0 rings None
             = Some (ring centerline_mode (plain_column g 0)
                          (tube_radius (c_length self) 0) perp1 perp2
                          (spaced 0 (2 * PI) 61))).
Proof.
  intros Hres Hc Hn.
  assert (Hne : resolution <> 0) by rlra.
  destruct (generate_geometry_returns self resolution Hne) as (sx & sy & sz & Hg & _).
  match type of Hg with _ = Returned ?G => set (g := G) in * end.
  assert (Hlen : (1 <= List.length (phi g))%nat).
  { apply samples_first; assumption. }
  pose proof (generated_aligned _ _ _ Hne Hg) as Hal.
  destruct (export_cross_sections_returns self g centerline_mode num_cross_sections
              Hal Hlen Hn) as (rings & Hr & Hl).
  exists g, rings. split; [exact Hg|]. split; [exact Hr|]. split; [exact Hl|].
  intros Hn1 Hlt Hpi Hrad.
  destruct (export_first_ring self resolution centerline_mode g
              (conj Hres Hlt) Hpi Hrad Hg) as (perp1 & perp2 & H1 & H2 & Hring).
  exists perp1, perp2. split; [exact H1|]. split; [exact H2|].
  unfold export_cross_sections in Hr.
  rewrite linspace_returns in Hr by exact Hn. cbn [bind] in Hr.
  destruct (spaced_from_zero 1 num_cross_sections Hn1) as (rest & Hsp).
  rewrite Hsp in Hr.
  apply (map_each_head _ _ _ _ _ None Hring Hr).
Qed.

(** The value of a polynomial with rational coefficients at a rational. *)
Lemma polyval_rational (p : list Q) (q : Q) :
  polyval p (Q2R q) = Q2R (fold_left (fun y pv => y * q + pv)%Q p 0%Q).
Proof.
  unfold polyval. rewrite <- Q2R_zero. generalize 0%Q.
  induction p as [|c p IH]; intros acc; cbn [fold_left]; [reflexivity|].
  rewrite <- Q2R_mult, <- Q2R_plus. apply IH.
Qed.

Lemma mean_radius_nonzero : _radius_modiolus_poly mean_model 0.1 <> 0.
Proof.
  unfold _radius_modiolus_poly. cbv zeta.
  change 0.1 with (Q2R (1 # 10)). rewrite polyval_rational.
  rewrite <- Q2R_zero. intros H. apply eqR_Qeq in H.
  vm_compute in H. discriminate H.
Qed.

End TubeRadiusPaths.

(** C5: in a valid model the three code paths that compute a tube radius
    (the surface mesh of [generate_geometry], the half-curve sections of
    [generate_cross_sections], the frame-based rings of the export) all use
    [(c_length - phi) / c_length * 0.5 + 0.6] at the angle [phi] of the sample;
    that radius is 1.1 at [phi = 0], 0.6 at [phi = c_length], and decreases
    linearly in between.  Each path is shown to produce its values: the surface
    arrays exist for every step other than zero; the half-curve sections are
    returned, as many as were asked for, on every generated geometry of at
    least two samples and on the default geometry; the rings of the export are
    returned, as many as were asked for, and the first ring is drawn with the
    radius at [phi = 0] whenever the centre line does not pass through the axis
    at the second sample. *)
Theorem tube_radius_in_every_path (parameters : list Q) :
  in_bounds parameters ->
  let self := derived parameters in
  let c := c_length self in
  (tube_radius c 0 = 1.1
   /\ tube_radius c c = 0.6
   /\ (forall phi, tube_radius c phi = 1.1 - 0.5 / c * phi)
   /\ (forall phi1 phi2, phi1 < phi2 -> tube_radius c phi2 < tube_radius c phi1))%R
  /\ (forall resolution,
        resolution <> 0%R ->
        exists g : geometry,
          generate_geometry self resolution = Returned g
          /\ forall i j,
               (i < List.length (phi g))%nat ->
               (j < List.length (samples 0 (2 * PI) resolution))%nat ->
               let p := nth i (phi g) 0%R in
               let angle := nth j (samples 0 (2 * PI) resolution) 0%R in
               let local_r :=
                 (_radius_modiolus_poly self p + tube_radius c p * (cos angle - 1))%R in
               get2 (scala_x g) j i = (local_r * cos p)%R
               /\ get2 (scala_y g) j i = (local_r * sin p)%R
               /\ get2 (scala_z g) j i
                  = (tube_radius c p * sin angle + _height_poly self p)%R)
  /\ (forall geometry num_sections sections s,
        generate_cross_sections self geometry num_sections = Returned sections ->
        In s sections ->
        radius s = tube_radius c (section_phi s)
        /\ exists angles,
             linspace 0 (2 * PI) 17 = Returned angles
             /\ points s
                = map (fun angle =>
                         let r := tube_radius c (section_phi s) in
                         (fst (fst (center s)) + r * (cos angle - 1) * cos (section_phi s),
                          snd (fst (center s)) + r * (cos angle - 1) * sin (section_phi s),
                          snd (center s) + r * sin angle)%R)
                      angles)
  /\ (forall resolution num_sections,
        (0 < resolution < c)%R -> (0 <= num_sections)%Z ->
        exists (g : geometry) (sections : list section),
          generate_geometry self resolution = Returned g
          /\ generate_cross_sections self (Some g) num_sections = Returned sections
          /\ List.length sections = Z.to_nat num_sections
          /\ Forall (fun s => In (section_phi s) (phi g)
                              /\ radius s = tube_radius c (section_phi s)) sections)
  /\ (forall num_sections,
        (0 <= num_sections)%Z ->
        exists sections : list section,
          generate_cross_sections self None num_sections = Returned sections
          /\ List.length sections = Z.to_nat num_sections
          /\ Forall (fun s => radius s = tube_radius c (section_phi s)) sections)
  /\ (forall g centerline_mode num_cross_sections rings pts,
        export_cross_sections self g centerline_mode num_cross_sections = Returned rings ->
        In (Some pts) rings ->
        exists idx p c0 c1 c2 perp1 perp2 angles,
          index (phi g) idx = Returned p
          /\ centerline_at g 0 idx = Returned c0
          /\ centerline_at g 1 idx = Returned c1
          /\ centerline_at g 2 idx = Returned c2
          /\ linspace 0 (2 * PI) 61 = Returned angles
          /\ norm perp1 = 1%R /\ norm perp2 = 1%R
          /\ pts = ring centerline_mode (c0, c1, c2) (tube_radius c p)
                        perp1 perp2 angles)
  /\ (forall resolution centerline_mode num_cross_sections,
        (0 < resolution)%R -> (0 <= num_cross_sections)%Z ->
        exists (g : geometry) (rings : list (option (list vec3))),
          generate_geometry self resolution = Returned g
          /\ export_cross_sections self g centerline_mode num_cross_sections
             = Returned rings
          /\ List.length rings = Z.to_nat num_cross_sections
          /\ ((1 <= num_cross_sections)%Z ->
              (resolution < c)%R -> (resolution < PI)%R ->
              _radius_modiolus_poly self resolution <> 0%R ->
              exists perp1 perp2,
                norm perp1 = 1%R /\ norm perp2 = 1%R
                /\ nth 0 rings None
                   = Some (ring centerline_mode (plain_column g 0) 1.1
                                perp1 perp2 (spaced 0 (2 * PI) 61)))).
Proof.
  intros Hb self c.
  assert (Hc : (0 < c)%R) by (apply c_length_positive, Hb).
  destruct (tube_radius_profile c) as (H0 & H1 & Hlin); [rlra|].
  split; [|split; [|split; [|split; [|split; [|split]]]]].
  - repeat split; try assumption.
    intros phi1 phi2. apply tube_radius_decreasing, Hc.
  - intros resolution Hres.
    destruct (generate_geometry_returns self resolution Hres)
      as (sx & sy & sz & Hg & _).
    eexists. split; [exact Hg|].
    intros i j Hi Hj. apply (scala_cells self resolution _ i j Hres Hg Hi Hj).
  - intros geometry num_sections sections s Hgen Hs.
    unfold generate_cross_sections in Hgen.
    destruct (match geometry with None => _ | Some g => _ end) as [g|e];
      cbn [bind] in Hgen; [|discriminate Hgen].
    destruct (linspace _ _ num_sections) as [positions|e]; cbn [bind] in Hgen;
      [|discriminate Hgen].
    destruct (map_each_In _ _ _ Hgen s Hs) as (idx & _ & Hsec).
    destruct (cross_section_radius self g idx s Hsec) as (_ & _ & Hr & Hpts).
    split; [exact Hr | exact Hpts].
  - intros resolution num_sections Hres Hn.
    destruct (generated_cross_sections self resolution num_sections Hres Hn)
      as (g & sections & Hg & Hs & Hl & Hall).
    exists g, sections. split; [exact Hg|]. split; [exact Hs|]. split; [exact Hl|].
    apply (Forall_impl _ (P := fun s => _ /\ _ /\ _)) with (2 := Hall).
    intros s (Hin & Hr & _). split; assumption.
  - intros num_sections Hn.
    destruct (c_length_range parameters Hb) as [Hlo _].
    destruct (generated_cross_sections self 5 num_sections) as
      (g & sections & Hg & Hs & Hl & Hall); [unfold self; split; rlra | exact Hn |].
    exists sections. split; [|split; [exact Hl|]].
    + unfold generate_cross_sections in Hs |- *. rewrite Hg. exact Hs.
    + apply (Forall_impl _ (P := fun s => _ /\ _ /\ _)) with (2 := Hall).
      intros s (_ & Hr & _). exact Hr.
  - intros g centerline_mode num_cross_sections rings pts Hexp Hin.
    unfold export_cross_sections in Hexp.
    destruct (linspace 0 1 num_cross_sections) as [positions|e]; cbn [bind] in Hexp;
      [|discriminate Hexp].
    destruct (map_each_In _ _ _ Hexp (Some pts) Hin) as (position & _ & Hring).
    destruct (export_cross_section_radius self g centerline_mode position pts Hring)
      as (p & c0 & c1 & c2 & perp1 & perp2 & angles & H).
    eexists. exists p, c0, c1, c2, perp1, perp2, angles. exact H.
  - intros resolution centerline_mode num_cross_sections Hres Hn.
    destruct (generated_rings self resolution centerline_mode num_cross_sections
                Hres Hc Hn) as (g & rings & Hg & Hr & Hl & Hfirst).
    exists g, rings. split; [exact Hg|]. split; [exact Hr|]. split; [exact Hl|].
    rewrite <- H0. exact Hfirst.
Qed.

(** C5 on the mean model with the default resolution: ten half-curve
    sections, five rings of the export, the first of them of radius 1.1 around
    the first centre line point. *)
Lemma tube_radius_in_every_path_witness :
  exists (g : geometry) (sections : list section)
         (rings : list (option (list vec3))) (perp1 perp2 : vec3),
    generate_geometry mean_model 0.1 = Returned g
    /\ generate_cross_sections mean_model (Some g) 10 = Returned sections
    /\ List.length sections = 10%nat
    /\ Forall (fun s => radius s = tube_radius (c_length mean_model) (section_phi s))
              sections
    /\ export_cross_sections mean_model g "3D" 5 = Returned rings
    /\ List.length rings = 5%nat
    /\ nth 0 rings None
       = Some (ring "3D" (plain_column g 0) 1.1 perp1 perp2 (spaced 0 (2 * PI) 61)).
Proof.
  destruct (tube_radius_in_every_path [5.97; 3.95; 3.26; 2.85]%Q mean_in_bounds)
    as (_ & _ & _ & Hsections & _ & _ & Hrings).
  destruct (c_length_range [5.97; 3.95; 3.26; 2.85]%Q mean_in_bounds) as [Hlo _].
  pose proof PI2_3_2 as Hpi.
  destruct (Hsections 0.1%R 10%Z) as (g & sections & Hg & Hs & Hl & Hall);
    [split; rlra | lia |].
  destruct (Hrings 0.1%R "3D" 5%Z) as (g' & rings & Hg' & Hr & Hlr & Hfirst);
    [rlra | lia |].
  change (derived [5.97; 3.95; 3.26; 2.85]%Q) with mean_model in *.
  rewrite Hg in Hg'. injection Hg' as <-.
  destruct Hfirst as (perp1 & perp2 & _ & _ & Hring);
    [lia | rlra | rlra | exact mean_radius_nonzero |].
  exists g, sections, rings, perp1, perp2.
  split; [exact Hg|]. split; [exact Hs|]. split; [exact Hl|].
  split.
  { apply (Forall_impl _ (P := fun s => _ /\ _)) with (2 := Hall).
    intros s [_ H]. exact H. }
  split; [exact Hr|]. split; [exact Hlr | exact Hring].
Defined.
